(** * NodeWrapper: the node-execution engine of nipype's pipeline

    A shallow embedding of [nipype/pipeline/node_wrapper.py].  The class
    [NodeWrapper] wraps an interface object (the execution adapter) and
    runs it inside a working directory, guarded by a hash file that marks
    a completed execution.

    The Python code is stateful: it mutates the node, the inputs of the
    interface, the process working directory and the file system, and it
    leaves all of these changed when an exception is raised.  The
    embedding therefore threads an explicit state through every method and
    returns either a value or the raised exception together with the
    state reached. *)

From stdpp Require Import gmap strings list fin_maps pretty.
From Stdlib Require Import ZArith Lia.

Local Open Scope Z_scope.
Local Open Scope string_scope.

(** ** Python values *)

(** The values stored in a [Bunch].  Numbers are integers, and [VObj]
    is any other object, known by its [repr].  Values are immutable
    trees: [deepcopy] is the identity on them, and two attributes never
    share one list object. *)
#[warnings="-register-all"]
Inductive pyval :=
| VNone
| VBool (b : bool)
| VInt (z : Z)
| VStr (s : string)
| VObj (repr : string)
| VList (l : list pyval).

(** A [Bunch] is a mapping from attribute names to values. *)
Abbreviation bunch := (gmap string pyval).

(** [Bunch.get(key)]: the stored value, [None] when the key is missing. *)
Definition bunch_get (b : bunch) (key : string) : pyval :=
  default VNone (b !! key).

(** [hasattr(bunch, key)], for the attributes stored in the [Bunch]. *)
Definition bunch_has (b : bunch) (key : string) : bool :=
  bool_decide (is_Some (b !! key)).

(** [isinstance(v, list)] *)
Definition is_list (v : pyval) : bool :=
  match v with VList _ => true | _ => false end.

(** Truth value of an object in a condition. *)
Definition truthy (v : pyval) : bool :=
  match v with
  | VNone => false
  | VBool b => b
  | VInt z => negb (Z.eqb z 0)
  | VStr s => negb (String.eqb s "")
  | VObj _ => true
  | VList l => negb (Nat.eqb (length l) 0)
  end.

(** Truth value of a directory argument that is [None] or a string. *)
Definition truthy_dir (d : option string) : bool :=
  match d with
  | None => false
  | Some s => negb (String.eqb s "")
  end.

(** [l.insert(i, x)] for a non-negative index: past the end it appends. *)
Definition py_insert {A} (i : nat) (x : A) (l : list A) : list A :=
  take i l ++ x :: drop i l.

(** [l.pop()]: the last element and the shortened list; [None] stands for
    the [IndexError] of an empty list. *)
Definition py_pop {A} (l : list A) : option (A * list A) :=
  match last l with
  | Some x => Some (x, take (Nat.pred (length l)) l)
  | None => None
  end.

(** ** Exceptions and results of the interface *)

Inductive exn :=
| PyException (msg : string)
| ValueError (msg : string)
| RuntimeError (msg : string)
| StandardError (msg : string)
| AttributeError
| IndexError
| IOError
| TypeError.

Inductive outcome (A : Type) :=
| Ok (a : A)
| Raise (e : exn).
Arguments Ok {A} a.
Arguments Raise {A} e.

(** [result.runtime] of one interface call. *)
Record Runtime := mkRuntime { returncode : Z; stderr : string }.

(** An attribute of [InterfaceResult] that is [None], one object, or a
    list of objects (when iterating over an input field). *)
Inductive slot (A : Type) :=
| SNone
| SOne (a : A)
| SList (l : list A).
Arguments SNone {A}.
Arguments SOne {A} a.
Arguments SList {A} l.

Record InterfaceResult := mkResult {
  interface : slot string;
  runtime : slot Runtime;
  outputs : bunch
}.

(** What [interface.run] hands back: one interface identity, one runtime
    and the outputs it produced. *)
Record RunResult := mkRun {
  run_interface : string;
  run_runtime : Runtime;
  run_outputs : bunch
}.

(** ** The file system and the process *)

Inductive fnode :=
| File (content : string)
| Dir.

Abbreviation filesystem := (gmap string fnode).

(** One entry of [interface.get_input_info()]. *)
Record InputInfo := mkInfo { key : string; copy : bool }.

(** The execution adapter: the name of its class and the last component
    of the name of its module, the inputs it holds when it is wrapped,
    and its methods.  [run] and [aggregate_outputs] read the inputs of
    the interface, the directory argument, the process working directory
    and the files; [run] may change the files.  [get_input_info] is
    [None] for an interface without that method. *)
Record Interface := mkInterface {
  class_name : string;
  module_name : string;
  interface_inputs : bunch;
  if_run : bunch → option string → string → filesystem → RunResult * filesystem;
  if_aggregate_outputs : bunch → string → filesystem → bunch;
  get_input_info : option (list InputInfo)
}.

(** Calls that leave the node: what the adapter was asked and what it
    answered, the files the node opened and wrote itself, and the
    warnings and critical messages of [_save_hashfile] (other log
    messages are not kept). *)
Inductive event :=
| EvRun (inputs : bunch) (cwd : option string) (result : RunResult)
| EvAggregate (inputs : bunch) (outs : bunch)
| EvOpen (path : string)
| EvWrite (path : string) (body : string)
| EvWarn (path : string)
| EvCritical (path : string).

(** The process: working directory, files, the paths that cannot be
    opened for writing, and the calls made so far (latest first). *)
Record world := mkWorld {
  w_cwd : string;
  w_fs : filesystem;
  w_locked : gset string;
  w_trace : list event
}.

(** ** Helpers that live outside this module

    [nipype.utils.filemanip], [Bunch._get_bunch_hash], [os.path.abspath],
    [tempfile.mkdtemp], [str] and [json] are used by the node but defined
    elsewhere; they are taken as parameters.  [abspath] gets the process
    working directory as its first argument. *)
Record Helpers := mkHelpers {
  get_bunch_hash : bunch → filesystem → bunch * string;
  cleandir : string → filesystem → filesystem;
  copyfiles : pyval → pyval → bool → filesystem → pyval * filesystem;
  fname_presuffix : pyval → string → string;
  filename_to_list : pyval → pyval;
  list_to_filename : pyval → pyval;
  json_dumps : bunch → option string;
  dict_str : bunch → string;
  bunch_str : bunch → string;
  abspath : string → string → string;
  mkdtemp : filesystem → string
}.

(** ** The node *)

Record NodeWrapper := mkNode {
  _interface : Interface;
  inputs : bunch;
  _result : option InterfaceResult;
  iterables : bunch;
  iterfield : list string;
  parameterization : pyval;
  disk_based : bool;
  output_directory_base : option string;
  overwrite : option bool;
  name : string;
  id : string;
  _itervals : option (gmap string (list pyval));
  attrs : bunch
}.

(** [inputs] is the [Bunch] of the interface ([self._interface.inputs]);
    [attrs] holds the attributes that [setattr(self, ...)] adds to the
    node beyond the ones [__init__] declares. *)

Definition with_inputs (b : bunch) (n : NodeWrapper) : NodeWrapper :=
  mkNode (_interface n) b (_result n) (iterables n) (iterfield n)
    (parameterization n) (disk_based n) (output_directory_base n)
    (overwrite n) (name n) (id n) (_itervals n) (attrs n).

Definition with_result (r : option InterfaceResult) (n : NodeWrapper) : NodeWrapper :=
  mkNode (_interface n) (inputs n) r (iterables n) (iterfield n)
    (parameterization n) (disk_based n) (output_directory_base n)
    (overwrite n) (name n) (id n) (_itervals n) (attrs n).

Definition with_base (d : option string) (n : NodeWrapper) : NodeWrapper :=
  mkNode (_interface n) (inputs n) (_result n) (iterables n) (iterfield n)
    (parameterization n) (disk_based n) d
    (overwrite n) (name n) (id n) (_itervals n) (attrs n).

Definition with_itervals (iv : option (gmap string (list pyval))) (n : NodeWrapper) : NodeWrapper :=
  mkNode (_interface n) (inputs n) (_result n) (iterables n) (iterfield n)
    (parameterization n) (disk_based n) (output_directory_base n)
    (overwrite n) (name n) (id n) iv (attrs n).

Definition with_attrs (a : bunch) (n : NodeWrapper) : NodeWrapper :=
  mkNode (_interface n) (inputs n) (_result n) (iterables n) (iterfield n)
    (parameterization n) (disk_based n) (output_directory_base n)
    (overwrite n) (name n) (id n) (_itervals n) a.

Definition with_cwd (d : string) (w : world) : world :=
  mkWorld d (w_fs w) (w_locked w) (w_trace w).

Definition with_fs (fs : filesystem) (w : world) : world :=
  mkWorld (w_cwd w) fs (w_locked w) (w_trace w).

Definition emit (e : event) (w : world) : world :=
  mkWorld (w_cwd w) (w_fs w) (w_locked w) (e :: w_trace w).

(** ** Construction *)

(** [NodeWrapper.__init__] *)
Definition __init__ (interface : option Interface)
    (iterables : bunch) (iterfield : list string)
    (diskbased : bool) (base_directory : option string)
    (overwrite : bool) (name : option string) : outcome NodeWrapper :=
  match interface with
  | None => Raise (PyException "Interface must be provided")
  | Some itf =>
    if negb diskbased && bool_decide (base_directory ≠ None) then
      Raise (ValueError "Setting base_directory requires a disk based interface")
    else
      let output_directory_base := if diskbased then base_directory else None in
      let overwrite := if diskbased then Some overwrite else None in
      let name :=
        match name with
        | None => class_name itf +:+ "." +:+ module_name itf
        | Some nm => nm
        end in
      Ok (mkNode itf (interface_inputs itf) None iterables iterfield VNone diskbased
            output_directory_base overwrite name name None ∅)
  end.

(** [NodeWrapper.set_input]: priority goes to the interface.  A parameter
    that is no input becomes an attribute of the node; the model keeps
    these apart from the attributes that [__init__] declares, which no
    iteration field is expected to be named after. *)
Definition set_input (parameter : string) (val : pyval) (n : NodeWrapper) : NodeWrapper :=
  if bunch_has (inputs n) parameter
  then with_inputs (<[parameter := val]> (inputs n)) n
  else with_attrs (<[parameter := val]> (attrs n)) n.

(** [getattr(self, parameter)] on the data attributes of the node: the
    ones added by [setattr] and the plain values set in [__init__]. *)
Definition node_getattr (n : NodeWrapper) (parameter : string) : outcome pyval :=
  match attrs n !! parameter with
  | Some v => Ok v
  | None =>
    if String.eqb parameter "name" then Ok (VStr (name n))
    else if String.eqb parameter "id" then Ok (VStr (id n))
    else if String.eqb parameter "disk_based" then Ok (VBool (disk_based n))
    else if String.eqb parameter "iterfield" then Ok (VList (VStr <$> iterfield n))
    else if String.eqb parameter "parameterization" then Ok (parameterization n)
    else if String.eqb parameter "overwrite" then
      Ok (from_option VBool VNone (overwrite n))
    else if String.eqb parameter "output_directory_base" then
      Ok (from_option VStr VNone (output_directory_base n))
    else Raise AttributeError
  end.

(** [NodeWrapper.get_output] *)
Definition get_output (n : NodeWrapper) (parameter : string) : outcome pyval :=
  match _result n with
  | Some res =>
    if bunch_has (outputs res) parameter
    then Ok (bunch_get (outputs res) parameter)
    else node_getattr n parameter
  | None => Ok VNone
  end.

(** [NodeWrapper.__repr__] *)
Definition __repr__ (n : NodeWrapper) : string := id n.

(** ** Stateful methods

    A method runs on the node and the process and ends in a value or in a
    raised exception; either way the state it reached is kept. *)

Record state := mkState { self : NodeWrapper; proc : world }.

Definition M (A : Type) : Type := state → outcome A * state.

Definition ret {A} (a : A) : M A := λ s, (Ok a, s).

Definition raise {A} (e : exn) : M A := λ s, (Raise e, s).

Definition bind {A B} (m : M A) (k : A → M B) : M B :=
  λ s, match m s with
       | (Ok a, s') => k a s'
       | (Raise e, s') => (Raise e, s')
       end.

Declare Scope py_scope.
Delimit Scope py_scope with py.
Bind Scope py_scope with M.
Notation "'let*' x ':=' m 'in' k" := (bind m (λ x, k))
  (at level 10, x pattern, m at level 100, k at level 200) : py_scope.
Notation "m ;; k" := (bind m (λ _, k))
  (at level 100, k at level 200, right associativity) : py_scope.
Local Open Scope py_scope.

Definition get_self : M NodeWrapper := λ s, (Ok (self s), s).
Definition get_proc : M world := λ s, (Ok (proc s), s).
Definition modify_self (f : NodeWrapper → NodeWrapper) : M unit :=
  λ s, (Ok tt, mkState (f (self s)) (proc s)).
Definition modify_proc (f : world → world) : M unit :=
  λ s, (Ok tt, mkState (self s) (f (proc s))).

Definition when (b : bool) (m : M unit) : M unit := if b then m else ret tt.

(** [for x in l: body(x)] *)
Fixpoint for_each {A} (l : list A) (body : A → M unit) : M unit :=
  match l with
  | [] => ret tt
  | x :: l' => body x ;; for_each l' body
  end.

(** [for i, x in enumerate(l): body(i, x)], counting from [i]. *)
Fixpoint for_enumerate {A} (i : nat) (l : list A) (body : nat → A → M unit) : M unit :=
  match l with
  | [] => ret tt
  | x :: l' => body i x ;; for_enumerate (S i) l' body
  end.

(** *** Operating system

    Creating a directory always goes through.  The one failure of the
    file system that the node handles itself is a file that cannot be
    opened for writing. *)

Definition getcwd : M string := let* w := get_proc in ret (w_cwd w).

Definition chdir (d : string) : M unit := modify_proc (with_cwd d).

(** [os.path.exists] *)
Definition path_exists (p : string) : M bool :=
  let* w := get_proc in ret (bool_decide (is_Some (w_fs w !! p))).

Definition mkdir (p : string) : M unit :=
  modify_proc (λ w, with_fs (<[p := Dir]> (w_fs w)) w).

(** [open(path, 'w')]: [IOError] when the path cannot be opened for
    writing, otherwise the file exists and is empty. *)
Definition open_w (p : string) : M unit :=
  let* w := get_proc in
  if bool_decide (p ∈ w_locked w) then raise IOError
  else modify_proc (λ w, emit (EvOpen p) (with_fs (<[p := File ""]> (w_fs w)) w)).

(** Writing to the file opened at [p] and closing it. *)
Definition write_close (p : string) (body : string) : M unit :=
  modify_proc (λ w, emit (EvWrite p body) (with_fs (<[p := File body]> (w_fs w)) w)).

Definition log_event (e : event) : M unit := modify_proc (emit e).

(** [os.path.join] of two components. *)
Fixpoint ends_with_slash (s : string) : bool :=
  match s with
  | EmptyString => false
  | String c EmptyString => Ascii.eqb c (Ascii.ascii_of_nat 47)
  | String _ s' => ends_with_slash s'
  end.

Definition path_join (a b : string) : string :=
  if String.prefix "/" b then b
  else if String.eqb a "" || ends_with_slash a then a +:+ b
  else a +:+ "/" +:+ b.

(** *** The adapter *)

(** [self._interface.run(cwd=cwd)] *)
Definition call_run (cwd : option string) : M RunResult :=
  λ s,
    let n := self s in
    let w := proc s in
    let '(r, fs') := if_run (_interface n) (inputs n) cwd (w_cwd w) (w_fs w) in
    (Ok r, mkState n (emit (EvRun (inputs n) cwd r) (with_fs fs' w))).

(** [self._interface.aggregate_outputs()] *)
Definition call_aggregate_outputs : M bunch :=
  λ s,
    let n := self s in
    let w := proc s in
    let outs := if_aggregate_outputs (_interface n) (inputs n) (w_cwd w) (w_fs w) in
    (Ok outs, mkState n (emit (EvAggregate (inputs n) outs) w)).

Section Node.

Context (H : Helpers).

(** *** The hash file *)

(** Modelled from the spec: [save_json] of [nipype.utils.filemanip], which
    is not part of this module.  It opens the file for writing and dumps
    the data as JSON into it; a value that JSON cannot represent raises
    [TypeError] once the file is open. *)
Definition save_json (filename : string) (data : bunch) : M unit :=
  open_w filename ;;
  match json_dumps H data with
  | Some body => write_close filename body
  | None => raise TypeError
  end.

(** [NodeWrapper._save_hashfile] *)
Definition _save_hashfile (hashfile : string) (hashed_inputs : bunch) : M unit :=
  λ s,
    match save_json hashfile hashed_inputs s with
    | (Raise TypeError, s') =>
      (open_w hashfile ;;
       write_close hashfile (dict_str H hashed_inputs) ;;
       log_event (EvWarn hashfile)) s'
    | (Raise IOError, s') => log_event (EvCritical hashfile) s'
    | r => r
    end.

(** *** Directories *)

(** [NodeWrapper._output_directory] *)
Definition _output_directory : M string :=
  let* n := get_self in
  let* base :=
    match output_directory_base n with
    | None =>
      let* w := get_proc in
      let d := mkdtemp H (w_fs w) in
      mkdir d ;;
      modify_self (with_base (Some d)) ;;
      ret d
    | Some d => ret d
    end in
  let* cwd := getcwd in
  ret (abspath H cwd (path_join base (name n))).

(** [NodeWrapper._make_output_dir] *)
Definition _make_output_dir (outdir : string) : M string :=
  let* cwd := getcwd in
  let* ex := path_exists (abspath H cwd outdir) in
  when (negb ex) (mkdir outdir) ;;
  ret outdir.

(** *** Staging of input files *)

Definition set_inputs_attr (key : string) (v : pyval) : M unit :=
  modify_self (λ n, with_inputs (<[key := v]> (inputs n)) n).

(** [copyfiles(files, dest, copy=copy)] *)
Definition call_copyfiles (files dest : pyval) (copy : bool) : M pyval :=
  let* w := get_proc in
  let '(newfiles, fs') := copyfiles H files dest copy (w_fs w) in
  modify_proc (with_fs fs') ;;
  ret newfiles.

(** Lines 182-188 of [run]: copy the files over and change the inputs. *)
Definition stage_inputs (outdir : string) : M unit :=
  let* n := get_self in
  match get_input_info (_interface n) with
  | None => ret tt
  | Some infos =>
    for_each infos (λ info,
      let* n := get_self in
      let files := bunch_get (inputs n) (key info) in
      match files with
      | VNone => ret tt
      | _ =>
        let infiles := filename_to_list H files in
        let* newfiles := call_copyfiles infiles (VList [VStr outdir]) (copy info) in
        set_inputs_attr (key info) (list_to_filename H newfiles)
      end)
  end.

(** Lines 210-225 of [run]: point the inputs at the files of an earlier
    execution, copying the ones that are missing. *)
Definition repoint_inputs (outdir : string) : M unit :=
  let* n := get_self in
  match get_input_info (_interface n) with
  | None => ret tt
  | Some infos =>
    for_each infos (λ info,
      let* n := get_self in
      let files := bunch_get (inputs n) (key info) in
      when (truthy files)
        (let infiles := match files with VList l => l | _ => [files] end in
         for_enumerate 0 infiles (λ i f,
           let newfile := fname_presuffix H f outdir in
           let* ex := path_exists newfile in
           when (negb ex)
             (let* _ := call_copyfiles f (VStr newfile) (copy info) in ret tt) ;;
           if is_list files then
             let* n := get_self in
             match bunch_get (inputs n) (key info) with
             | VList l => set_inputs_attr (key info) (VList (<[i := VStr newfile]> l))
             | _ => raise TypeError
             end
           else set_inputs_attr (key info) (VStr newfile))))
  end.

(** *** Iterating over input fields *)

(** Lines 243-250: the values to iterate over for each field of
    [iterfield], and whether the value had to be wrapped in a list. *)
Definition coerce_field (b : bunch)
    (acc : gmap string (list pyval) * gmap string bool) (field : string)
    : gmap string (list pyval) * gmap string bool :=
  match bunch_get b field with
  | VList l => (<[field := l]> acc.1, <[field := false]> acc.2)
  | v => (<[field := [v]]> acc.1, <[field := true]> acc.2)
  end.

Definition coerce_iterfields (n : NodeWrapper)
    : gmap string (list pyval) * gmap string bool :=
  foldl (coerce_field (inputs n)) (∅, ∅) (iterfield n).

(** Lines 288-298: every output of one call goes into the list kept
    under its key; a key seen for the first time gets a new list. *)
Definition collect_output (i : nat) (acc : bunch) (item : string * pyval) : bunch :=
  match bunch_get acc item.1 with
  | VList l => <[item.1 := VList (py_insert i item.2 l)]> acc
  | _ => <[item.1 := VList [item.2]]> acc
  end.

Definition collect_outputs (i : nat) (outs : bunch) (acc : bunch) : bunch :=
  foldl (collect_output i) acc (map_to_list outs).

Definition update_result (f : InterfaceResult → outcome InterfaceResult) : M unit :=
  let* n := get_self in
  match _result n with
  | None => raise AttributeError
  | Some res =>
    match f res with
    | Ok res' => modify_self (with_result (Some res'))
    | Raise e => raise e
    end
  end.

(** Lines 282-283: [insert(i, ...)] on the interface and runtime lists. *)
Definition record_call (i : nat) (r : RunResult) (res : InterfaceResult)
    : outcome InterfaceResult :=
  match interface res, runtime res with
  | SList itfs, SList rts =>
    Ok (mkResult (SList (py_insert i (run_interface r) itfs))
                 (SList (py_insert i (run_runtime r) rts))
                 (outputs res))
  | _, _ => Raise AttributeError
  end.

(** Lines 254-260: the directory of iteration [i].  [cwd] is the local
    variable of that name, which a disk based node rebinds. *)
Definition enter_subdir (basewd : option string) (i : nat) (cwd : option string)
    : M (option string * string) :=
  let* n := get_self in
  if disk_based n then
    match basewd with
    | None => raise AttributeError
    | Some b =>
      let subdir := path_join b (default "" (head (iterfield n)) +:+ "_" +:+ pretty i) in
      let* ex := path_exists subdir in
      when (negb ex) (mkdir subdir) ;;
      chdir subdir ;;
      ret (Some subdir, subdir)
    end
  else ret (cwd, "").

(** Lines 261-269: every field of [iterfield] gets its [i]-th value. *)
Definition assign_iterfields (itervals : gmap string (list pyval)) (i : nat)
    (subdir : string) : M unit :=
  let* n := get_self in
  for_each (iterfield n) (λ field,
    match (itervals !!! field) !! i with
    | None => raise IndexError
    | Some v =>
      let* n := get_self in
      let* newfile :=
        if disk_based n then
          let* copied := call_copyfiles v (VList [VStr subdir]) false in
          ret (list_to_filename H copied)
        else ret v in
      modify_self (set_input field newfile)
    end).

(** Lines 272-287: run the interface, or only collect its outputs. *)
Definition invoke (execute : bool) (itervals : gmap string (list pyval))
    (i : nat) (cwd : option string) : M bunch :=
  if execute then
    let* result := call_run cwd in
    if negb (returncode (run_runtime result) =? 0)%Z then
      modify_self (with_itervals (Some itervals)) ;;
      raise (RuntimeError (stderr (run_runtime result)))
    else
      update_result (record_call i result) ;;
      ret (run_outputs result)
  else call_aggregate_outputs.

(** Lines 288-298 *)
Definition store_outputs (i : nat) (outs : bunch) : M unit :=
  update_result (λ res,
    Ok (mkResult (interface res) (runtime res) (collect_outputs i outs (outputs res)))).

(** Lines 254-298: the body of the loop for index [i]. *)
Definition iterate_once (execute : bool) (basewd : option string)
    (itervals : gmap string (list pyval)) (i : nat) (cwd : option string)
    : M (option string) :=
  let* (cwd, subdir) := enter_subdir basewd i cwd in
  assign_iterfields itervals i subdir ;;
  let* outs := invoke execute itervals i cwd in
  store_outputs i outs ;;
  ret cwd.

(** Line 253: [for i, v in enumerate(...)], counting from [i]. *)
Fixpoint iterate (execute : bool) (basewd : option string)
    (itervals : gmap string (list pyval)) (i : nat) (vals : list pyval)
    (cwd : option string) : M (option string) :=
  match vals with
  | [] => ret cwd
  | _ :: vals' =>
    let* cwd := iterate_once execute basewd itervals i cwd in
    iterate execute basewd itervals (S i) vals' cwd
  end.

(** Lines 299-304: restore the input state.  [pop] shortens the list
    kept in [itervals]. *)
Fixpoint restore_inputs (fields : list string)
    (itervals : gmap string (list pyval)) (notlist : gmap string bool) : M unit :=
  match fields with
  | [] => ret tt
  | field :: fields' =>
    if (notlist !!! field : bool) then
      match py_pop (itervals !!! field) with
      | None => raise IndexError
      | Some (v, rest) =>
        modify_self (set_input field v) ;;
        restore_inputs fields' (<[field := rest]> itervals) notlist
      end
    else
      modify_self (set_input field (VList (itervals !!! field))) ;;
      restore_inputs fields' itervals notlist
  end.

(** [NodeWrapper._run_interface] *)
Definition _run_interface (execute : bool) (cwd : option string) : M unit :=
  let* old_cwd := getcwd in
  when (truthy_dir cwd) (chdir (default "" cwd)) ;;
  let* n := get_self in
  let* cwd :=
    if negb (truthy_dir cwd) && disk_based n then
      let* d := _output_directory in
      chdir d ;;
      ret (Some d)
    else ret cwd in
  let basewd := cwd in
  let* n := get_self in
  let* cwd :=
    match iterfield n with
    | field0 :: _ =>
      let '(itervals, notlist) := coerce_iterfields n in
      modify_self (with_result (Some (mkResult (SList []) (SList []) ∅))) ;;
      let* cwd := iterate execute basewd itervals 0 (itervals !!! field0) cwd in
      restore_inputs (iterfield n) itervals notlist ;;
      ret cwd
    | [] =>
      (if execute then
         let* result := call_run cwd in
         modify_self (with_result (Some
           (mkResult (SOne (run_interface result)) (SOne (run_runtime result))
                     (run_outputs result)))) ;;
         when (negb (returncode (run_runtime result) =? 0)%Z)
           (raise (RuntimeError (stderr (run_runtime result))))
       else
         let* aggouts := call_aggregate_outputs in
         modify_self (with_result (Some (mkResult SNone SNone aggouts)))) ;;
      ret cwd
    end in
  when (truthy_dir cwd) (chdir old_cwd).

(** *** Running the node *)

Definition newline : string := String (Ascii.ascii_of_nat 10) "".
Definition tab : string := String (Ascii.ascii_of_nat 9) "".

(** Lines 190-199 of [run]: the combined return code. *)
Definition combined_returncode (res : InterfaceResult) : outcome Z :=
  match runtime res with
  | SList rts => Ok (foldl (λ rc r, Z.max (returncode r) rc) 0%Z rts)
  | SOne r => Ok (returncode r)
  | SNone => Raise AttributeError
  end.

(** Lines 203-206 of [run]: the [StandardError] for a failed execution. *)
Definition could_not_run (n : NodeWrapper) (res : InterfaceResult) : exn :=
  match runtime res with
  | SOne r =>
    StandardError ("Could not run " +:+ name n +:+
                   newline +:+ "with inputs:" +:+ newline +:+ bunch_str H (inputs n) +:+
                   newline +:+ tab +:+ "stderr: " +:+ stderr r)
  | _ => AttributeError
  end.

Definition hashfile_name (outdir hashvalue : string) : string :=
  path_join outdir ("_0x" +:+ hashvalue +:+ ".json").

(** Lines 167-173 of [run]: the output directory, the hashed inputs, the
    hash value and the hash file of the current inputs. *)
Definition hash_step : M (string * bunch * string * string) :=
  let* outdir := _output_directory in
  let* outdir := _make_output_dir outdir in
  let* n := get_self in
  let* w := get_proc in
  let '(hashed_inputs, hashvalue) := get_bunch_hash H (inputs n) (w_fs w) in
  ret (outdir, hashed_inputs, hashvalue, hashfile_name outdir hashvalue).


(** [NodeWrapper.run] *)
Definition run (updatehash : bool) : M (option InterfaceResult) :=
  let* n := get_self in
  (if disk_based n then
     let* (outdir, hashed_inputs, hashvalue, hashfile) := hash_step in
     let* n := get_self in
     when updatehash (_save_hashfile hashfile hashed_inputs) ;;
     let* ex := path_exists hashfile in
     if negb updatehash && (default false (overwrite n) || negb ex) then
       modify_proc (λ w, with_fs (cleandir H outdir (w_fs w)) w) ;;
       stage_inputs outdir ;;
       _run_interface true (Some outdir) ;;
       let* n := get_self in
       match _result n with
       | None => raise AttributeError
       | Some res =>
         match combined_returncode res with
         | Raise e => raise e
         | Ok rc =>
           if (rc =? 0)%Z then _save_hashfile hashfile hashed_inputs
           else raise (could_not_run n res)
         end
       end
     else
       repoint_inputs outdir ;;
       _run_interface false (Some outdir)
   else _run_interface true None) ;;
  let* n := get_self in
  ret (_result n).

End Node.

(** ** A concrete environment

    Simple stand-ins for the helpers and two adapters, used to run the
    node on concrete inputs. *)
Module Demo.

Fixpoint show (v : pyval) : string :=
  match v with
  | VNone => "None"
  | VBool b => if b then "True" else "False"
  | VInt z => pretty z
  | VStr s => "'" +:+ s +:+ "'"
  | VObj r => r
  | VList l => "[" +:+ foldr (λ x acc, show x +:+ "," +:+ acc) "" l +:+ "]"
  end.

Definition show_bunch (b : bunch) : string :=
  foldr (λ '(k, v) acc, k +:+ "=" +:+ show v +:+ ";" +:+ acc) "" (map_to_list b).

(** JSON has no form for an arbitrary object. *)
Fixpoint serializable (v : pyval) : bool :=
  match v with
  | VObj _ => false
  | VList l => forallb serializable l
  | _ => true
  end.

(** The part of a path behind its last slash. *)
Fixpoint basename_aux (s acc : string) : string :=
  match s with
  | EmptyString => acc
  | String c s' =>
    if Ascii.eqb c (Ascii.ascii_of_nat 47) then basename_aux s' "" else basename_aux s' (acc +:+ String c "")
  end.
Definition basename (s : string) : string := basename_aux s "".

Definition presuffix (f : pyval) (newpath : string) : string :=
  match f with
  | VStr s => newpath +:+ "/" +:+ basename s
  | _ => newpath +:+ "/" +:+ show f
  end.

Definition to_list (v : pyval) : pyval :=
  match v with
  | VStr s => VList [VStr s]
  | VList l => VList l
  | _ => VNone
  end.

Definition to_filename (v : pyval) : pyval :=
  match v with
  | VList [x] => x
  | _ => v
  end.

(** Copies every file of [files] under its new name. *)
Definition copy_all (files dest : pyval) (copy : bool) (fs : filesystem)
    : pyval * filesystem :=
  let target := match dest with VList (VStr d :: _) => d | VStr d => d | _ => "" end in
  let sources := match files with VList l => l | v => [v] end in
  let names := (λ f, presuffix f target) <$> sources in
  (VList (VStr <$> names),
   foldr (λ '(f, nm) fs,
            match f with
            | VStr src => from_option (λ nd, <[nm := nd]> fs) fs (fs !! src)
            | _ => fs
            end) fs (zip sources names)).

Definition is_file (nd : fnode) : bool :=
  match nd with File _ => true | Dir => false end.

Definition helpers : Helpers :=
  {| get_bunch_hash := λ b _, (b, show_bunch b);
     cleandir := λ d fs,
       filter (λ entry, String.prefix (d +:+ "/") entry.1 && is_file entry.2 = false) fs;
     copyfiles := copy_all;
     fname_presuffix := presuffix;
     filename_to_list := to_list;
     list_to_filename := to_filename;
     json_dumps := λ b,
       if forallb (λ '(_, v), serializable v) (map_to_list b)
       then Some ("{" +:+ show_bunch b +:+ "}") else None;
     dict_str := show_bunch;
     bunch_str := show_bunch;
     abspath := λ cwd p,
       if String.prefix "/" p then p else cwd +:+ "/" +:+ p;
     mkdtemp := λ _, "/tmp/tmpdir" |}.

(** An adapter that doubles its input [x] into the output [y]; it fails
    with return code 1 on a negative [x]. *)
Definition doubler : Interface :=
  {| class_name := "Doubler";
     module_name := "demo";
     interface_inputs := {[ "x" := VNone ]};
     if_run := λ b _ cwd fs,
       match bunch_get b "x" with
       | VInt z =>
         if (z <? 0)%Z then (mkRun "Doubler" (mkRuntime 1 "negative input") ∅, fs)
         else (mkRun "Doubler" (mkRuntime 0 "") {[ "y" := VInt (2 * z) ]},
               <[cwd +:+ "/y.txt" := File (pretty (2 * z)%Z)]> fs)
       | _ => (mkRun "Doubler" (mkRuntime 2 "x is not a number") ∅, fs)
       end;
     if_aggregate_outputs := λ b _ _,
       match bunch_get b "x" with
       | VInt z => if (z <? 0)%Z then ∅ else {[ "y" := VInt (2 * z) ]}
       | _ => ∅
       end;
     get_input_info := None |}.

(** An adapter that works on a file: it writes [<infile>.out] next to
    its input and fails with return code 1 when the input is missing. *)
Definition stamper : Interface :=
  {| class_name := "Stamper";
     module_name := "demo";
     interface_inputs := {[ "infile" := VNone ]};
     if_run := λ b _ _ fs,
       match bunch_get b "infile" with
       | VStr p =>
         match fs !! p with
         | Some (File body) =>
           (mkRun "Stamper" (mkRuntime 0 "") {[ "outfile" := VStr (p +:+ ".out") ]},
            <[p +:+ ".out" := File body]> fs)
         | _ => (mkRun "Stamper" (mkRuntime 1 ("no such file: " +:+ p)) ∅, fs)
         end
       | _ => (mkRun "Stamper" (mkRuntime 2 "infile is not a path") ∅, fs)
       end;
     if_aggregate_outputs := λ b _ _,
       match bunch_get b "infile" with
       | VStr p => {[ "outfile" := VStr (p +:+ ".out") ]}
       | _ => ∅
       end;
     get_input_info := None |}.

(** What a call of [run] returned, [None] when it raised. *)
Definition returned (r : outcome (option InterfaceResult)) : option InterfaceResult :=
  match r with Ok x => x | Raise _ => None end.

Definition world0 : world :=
  mkWorld "/home"
    {[ "/wf" := Dir; "/data/a.nii" := File "aaa"; "/data/b.nii" := File "bbb" ]}
    ∅ [].

(** The node [N] around [itf], with its inputs set to [inputs]. *)
Definition node_of (itf : Interface) (iterfield : list string) (diskbased : bool)
    (base : option string) (inputs : bunch) : NodeWrapper :=
  match __init__ (Some itf) ∅ iterfield diskbased base false (Some "N") with
  | Ok n => map_fold set_input n inputs
  | Raise _ => mkNode itf inputs None ∅ iterfield VNone diskbased base None "N" "N" None ∅
  end.

(** The node [N] around [itf] with the given [overwrite] flag, and its
    inputs set to [inputs]. *)
Definition node_with (itf : Interface) (iterfield : list string) (diskbased : bool)
    (base : option string) (overwrite : bool) (inputs : bunch) : NodeWrapper :=
  match __init__ (Some itf) ∅ iterfield diskbased base overwrite (Some "N") with
  | Ok n => map_fold set_input n inputs
  | Raise _ => mkNode itf inputs None ∅ iterfield VNone diskbased base None "N" "N" None ∅
  end.

(** An adapter like [stamper] that declares [infile] as a file input to
    be copied into the directory of the node. *)
Definition filer : Interface :=
  {| class_name := "Filer";
     module_name := "demo";
     interface_inputs := {[ "infile" := VNone; "label" := VNone ]};
     if_run := if_run stamper;
     if_aggregate_outputs := if_aggregate_outputs stamper;
     get_input_info := Some [mkInfo "infile" true] |}.

End Demo.

(** * Vocabulary of the properties *)

Local Open Scope list_scope.
Local Open Scope py_scope.

Definition failure {A} (r : outcome A) : option exn :=
  match r with Ok _ => None | Raise e => Some e end.

(** A relation between the state before, the exception raised (if any)
    and the state after that holds for doing nothing and is closed
    under sequencing. *)
Class Composable (Q : state → option exn → state → Prop) : Prop := {
  q_stay : ∀ s r, Q s r s;
  q_seq : ∀ s s' s'' r, Q s None s' → Q s' r s'' → Q s r s''
}.

Definition sat (Q : state → option exn → state → Prop) {A} (m : M A) : Prop :=
  ∀ s, Q s (failure (m s).1) (m s).2.

(** What a step leaves alone: the configuration of the node and the
    set of paths that cannot be written.  The base directory may be
    set once, by [_output_directory], and is kept thereafter. *)
Record same_config (s s' : state) : Prop := {
  cfg_interface : _interface (self s') = _interface (self s);
  cfg_iterfield : iterfield (self s') = iterfield (self s);
  cfg_disk_based : disk_based (self s') = disk_based (self s);
  cfg_overwrite : overwrite (self s') = overwrite (self s);
  cfg_name : name (self s') = name (self s);
  cfg_base : is_Some (output_directory_base (self s)) →
             output_directory_base (self s') = output_directory_base (self s);
  cfg_locked : w_locked (proc s') = w_locked (proc s)
}.

(** A step that keeps the configuration and adds only events that
    satisfy [P] to the trace. *)
Definition emits (P : event → Prop) (s : state) (r : option exn) (s' : state) : Prop :=
  same_config s s' ∧
  ∃ new, w_trace (proc s') = new ++ w_trace (proc s) ∧ Forall P new.

Definition no_event (e : event) : Prop := False.

Definition is_aggregate (e : event) : Prop :=
  match e with EvAggregate _ _ => True | _ => False end.

Definition is_save (e : event) : Prop :=
  match e with
  | EvOpen _ | EvWrite _ _ | EvWarn _ | EvCritical _ => True
  | _ => False
  end.

(** A call of [run] on the adapter that returned status 0. *)
Definition ok_run (e : event) : Prop :=
  match e with
  | EvRun _ _ result => returncode (run_runtime result) = 0%Z
  | _ => False
  end.

(** What [_save_hashfile] does, case by case. *)
Definition saved_body (H : Helpers) (hashed_inputs : bunch) : string :=
  match json_dumps H hashed_inputs with
  | Some body => body
  | None => dict_str H hashed_inputs
  end.

Definition save_events (H : Helpers) (hashfile : string) (hashed_inputs : bunch)
    : list event :=
  match json_dumps H hashed_inputs with
  | Some body => [EvWrite hashfile body; EvOpen hashfile]
  | None => [EvWarn hashfile; EvWrite hashfile (dict_str H hashed_inputs);
             EvOpen hashfile; EvOpen hashfile]
  end.

(** The shape of an execution: calls that returned 0, possibly ended by
    one failed call, whose error output is raised as a [RuntimeError]. *)
Definition exec_shape (s : state) (r : option exn) (s' : state) : Prop :=
  same_config s s' ∧
  ∃ new, w_trace (proc s') = new ++ w_trace (proc s) ∧
    (Forall ok_run new ∨
     ∃ b c result rest,
       new = EvRun b c result :: rest ∧
       returncode (run_runtime result) ≠ 0%Z ∧
       r = Some (RuntimeError (stderr (run_runtime result))) ∧
       Forall ok_run rest).

(** The shape of a whole [run]: either no call of the adapter failed,
    or the run is an execution cut short by the failed call. *)
Definition failed_run (e : event) : Prop :=
  match e with
  | EvRun _ _ result => returncode (run_runtime result) ≠ 0%Z
  | _ => False
  end.

Definition run_shape (s : state) (r : option exn) (s' : state) : Prop :=
  same_config s s' ∧
  ∃ new, w_trace (proc s') = new ++ w_trace (proc s) ∧
    (Forall (λ e, ¬ failed_run e) new ∨
     ∃ b c result rest,
       new = EvRun b c result :: rest ∧
       returncode (run_runtime result) ≠ 0%Z ∧
       r = Some (RuntimeError (stderr (run_runtime result))) ∧
       Forall ok_run rest).

Definition is_save_or_aggregate (e : event) : Prop := is_save e ∨ is_aggregate e.

(** A relation on the state that ignores the outcome. *)
Definition keeps {X} (g : state → X) (s : state) (r : option exn) (s' : state) : Prop :=
  g s' = g s.

(** The values a field is iterated over. *)
Definition iter_values (v : pyval) : list pyval :=
  match v with VList l => l | _ => [v] end.

(** Two bunches with the same keys that differ at most on [fields]. *)
Definition agree_off (fields : list string) (b b' : bunch) : Prop :=
  dom b' = dom b ∧ ∀ k, k ∉ fields → b' !! k = b !! k.

(** A step that changes the inputs at most on the iteration fields. *)
Definition iterfields_only (s : state) (r : option exn) (s' : state) : Prop :=
  iterfield (self s') = iterfield (self s) ∧
  agree_off (iterfield (self s)) (inputs (self s)) (inputs (self s')).

(** A call of the adapter, of [run] or of [aggregate_outputs]. *)
Definition is_call (e : event) : Prop :=
  match e with EvRun _ _ _ | EvAggregate _ _ => True | _ => False end.

(** The outputs a call handed back and the inputs it saw. *)
Definition call_outputs (e : event) : bunch :=
  match e with
  | EvRun _ _ result => run_outputs result
  | EvAggregate _ outs => outs
  | _ => ∅
  end.

Definition call_inputs (e : event) : bunch :=
  match e with
  | EvRun b _ _ | EvAggregate b _ => b
  | _ => ∅
  end.

(** What the calls, in the order they were made, produced for [key]. *)
Definition gathered (key : string) (calls : list event) : list pyval :=
  omap (λ c, call_outputs c !! key) calls.

(** The outputs of the result hold, under every key, the list of what
    the calls so far produced for it. *)
Definition gathers (calls : list event) (outs : bunch) : Prop :=
  ∀ key, outs !! key =
         match gathered key calls with
         | [] => None
         | l => Some (VList l)
         end.

(** The value an iteration field is given for the value [v] of its
    list: [v] itself, or the file that [copyfiles] put in the
    directory of the iteration. *)
Definition assigned (H : Helpers) (diskbased : bool) (subdir : string)
    (v newfile : pyval) : Prop :=
  if diskbased
  then ∃ fs, newfile = list_to_filename H (copyfiles H v (VList [VStr subdir]) false fs).1
  else newfile = v.



(** Two values that iterate alike: both lists or both scalars, with
    the same number of values. *)
Definition same_shape (v v' : pyval) : Prop :=
  is_list v' = is_list v ∧ length (iter_values v') = length (iter_values v).

(** A step that keeps the iteration fields and the shape of every
    input. *)
Definition keeps_shape (s s' : state) : Prop :=
  iterfield (self s') = iterfield (self s) ∧
  ∀ k, same_shape (bunch_get (inputs (self s)) k) (bunch_get (inputs (self s')) k).



(** The number of calls of [run] on the adapter in a trace. *)
Definition is_run (e : event) : bool :=
  match e with EvRun _ _ _ => true | _ => false end.



(** The result records return codes, and all of them are 0. *)
Definition all_zero (res : InterfaceResult) : Prop :=
  match runtime res with
  | SList rts => Forall (λ r, returncode r = 0%Z) rts
  | SOne r => returncode r = 0%Z
  | SNone => False
  end.

(** A step that, when it returns, keeps the return codes recorded in
    the result at 0. *)
Definition zero_kept (s : state) (r : option exn) (s' : state) : Prop :=
  r = None →
  (∀ res, _result (self s) = Some res → all_zero res) →
  ∀ res', _result (self s') = Some res' → all_zero res'.

(** A step on a node that is not disk based: the process stays in its
    directory and no base directory is allocated. *)
Definition stays_put (s : state) (r : option exn) (s' : state) : Prop :=
  disk_based (self s) = false →
  disk_based (self s') = false ∧
  w_cwd (proc s') = w_cwd (proc s) ∧
  output_directory_base (self s') = output_directory_base (self s).

(** The directory of iteration [i] under [basewd]. *)
Definition iteration_dir (basewd field0 : string) (i : nat) : string :=
  path_join basewd (field0 +:+ "_" +:+ pretty i).

(** A call of [run] on the adapter made inside [dir]: the directory is
    passed as [cwd] and is the working directory of the process. *)
Definition runs_inside (itf : Interface) (dir : string) (e : event) : Prop :=
  ∃ b fs, e = EvRun b (Some dir) (if_run itf b (Some dir) dir fs).1.

(** What lines 186-188 of [run] put under a declared file input that
    held [files], when the copy is made in the file system [fs]. *)
Definition staged (H : Helpers) (outdir : string) (info : InputInfo)
    (files : pyval) (fs : filesystem) : pyval :=
  list_to_filename H
    (copyfiles H (filename_to_list H files) (VList [VStr outdir]) (copy info) fs).1.

(** What lines 213-225 of [run] put under a declared file input that
    held [files]: every file name is moved into [outdir]. *)
Definition repointed (H : Helpers) (outdir : string) (files : pyval) : pyval :=
  match files with
  | VList l => VList ((λ f, VStr (fname_presuffix H f outdir)) <$> l)
  | f => VStr (fname_presuffix H f outdir)
  end.

(** * Properties *)

Local Set Warnings "-clear-no-such-hyp".

(** ** Construction and outputs of a node that has not run *)

(** C9: constructing a node without an interface raises at once, and so
    does constructing one with a base directory while it is not disk
    based; in both cases [__init__] ends in the exception and yields no
    node. *)
Theorem init_rejects_bad_configuration :
  (∀ iterables iterfield diskbased base_directory overwrite name,
     __init__ None iterables iterfield diskbased base_directory overwrite name
     = Raise (PyException "Interface must be provided")) ∧
  (∀ itf iterables iterfield dir overwrite name,
     __init__ (Some itf) iterables iterfield false (Some dir) overwrite name
     = Raise (ValueError "Setting base_directory requires a disk based interface")).
Proof. split; reflexivity. Qed.

Lemma init_has_no_result itf iterables iterfield diskbased base ow nm n :
  __init__ itf iterables iterfield diskbased base ow nm = Ok n → _result n = None.
Proof.
  unfold __init__. destruct itf as [itf|]; [|discriminate].
  destruct (negb diskbased && bool_decide (base ≠ None)); [discriminate|].
  intros [= <-]. reflexivity.
Qed.

(** C10: as long as the node holds no result, [get_output] returns [None]
    for every parameter name, whether or not it names an output or an
    attribute of the node. *)
Theorem get_output_without_result (n : NodeWrapper) (parameter : string) :
  _result n = None → get_output n parameter = Ok VNone.
Proof. unfold get_output. intros ->. reflexivity. Qed.

Lemma get_output_without_result_witness :
  _result (Demo.node_of Demo.doubler [] false None ∅) = None ∧
  get_output (Demo.node_of Demo.doubler [] false None ∅) "no_such_output" = Ok VNone.
Proof.
  split; [reflexivity|].
  apply (get_output_without_result (Demo.node_of Demo.doubler [] false None ∅)).
  reflexivity.
Defined.

(** ** Rules for composed methods *)

Section Rules.

Context (Q : state → option exn → state → Prop) `{!Composable Q}.

Lemma sat_ret {A} (a : A) : sat Q (ret a).
Proof. intros s. apply q_stay. Qed.

Lemma sat_raise {A} (e : exn) : sat Q (@raise A e).
Proof. intros s. apply q_stay. Qed.

Lemma sat_get_self : sat Q get_self.
Proof. intros s. apply q_stay. Qed.

Lemma sat_get_proc : sat Q get_proc.
Proof. intros s. apply q_stay. Qed.

Lemma sat_bind {A B} (m : M A) (k : A → M B) :
  sat Q m → (∀ a, sat Q (k a)) → sat Q (bind m k).
Proof.
  intros Hm Hk s. unfold bind. specialize (Hm s).
  destruct (m s) as [[a|e] s']; simpl in *.
  - eapply q_seq; [exact Hm|apply Hk].
  - exact Hm.
Qed.

Lemma sat_when (b : bool) (m : M unit) : sat Q m → sat Q (when b m).
Proof. destruct b; [trivial|intros _; apply sat_ret]. Qed.

Lemma sat_for_each {A} (l : list A) (body : A → M unit) :
  (∀ x, sat Q (body x)) → sat Q (for_each l body).
Proof.
  intros Hb. induction l as [|x l IH]; simpl; [apply sat_ret|].
  apply sat_bind; auto.
Qed.

Lemma sat_for_enumerate {A} (l : list A) (body : nat → A → M unit) (i : nat) :
  (∀ j x, sat Q (body j x)) → sat Q (for_enumerate i l body).
Proof.
  intros Hb. revert i. induction l as [|x l IH]; intros i; simpl; [apply sat_ret|].
  apply sat_bind; auto.
Qed.

Lemma sat_getcwd : sat Q getcwd.
Proof. apply sat_bind; [apply sat_get_proc|intros; apply sat_ret]. Qed.

Lemma sat_path_exists (p : string) : sat Q (path_exists p).
Proof. apply sat_bind; [apply sat_get_proc|intros; apply sat_ret]. Qed.

End Rules.

Lemma sat_weaken (Q Q' : state → option exn → state → Prop) {A} (m : M A) :
  (∀ s r s', Q s r s' → Q' s r s') → sat Q m → sat Q' m.
Proof. intros HQ Hm s. apply HQ, Hm. Qed.

Lemma same_config_refl s : same_config s s.
Proof. split; auto. Qed.

Lemma same_config_trans s s' s'' :
  same_config s s' → same_config s' s'' → same_config s s''.
Proof.
  intros [] []. split; try congruence.
  intros Hb. rewrite <- cfg_base0 by assumption. apply cfg_base1.
  rewrite cfg_base0; assumption.
Qed.

Global Instance emits_composable P : Composable (emits P).
Proof.
  split.
  - intros s r. split; [apply same_config_refl|]. exists []. auto.
  - intros s s' s'' r [Hc (new & Ht & HP)] [Hc' (new' & Ht' & HP')].
    split; [eapply same_config_trans; eauto|].
    exists (new' ++ new). rewrite Ht', Ht, app_assoc. split; [done|].
    apply Forall_app; auto.
Qed.

Lemma emits_mono (P P' : event → Prop) s r s' :
  (∀ e, P e → P' e) → emits P s r s' → emits P' s r s'.
Proof.
  intros HP [Hc (new & Ht & Hn)]. split; [done|].
  exists new. split; [done|]. eapply Forall_impl; eauto.
Qed.

Lemma sat_quiet (P : event → Prop) {A} (m : M A) : sat (emits no_event) m → sat (emits P) m.
Proof. apply sat_weaken. intros s r s'. apply emits_mono. intros e []. Qed.

(** Steps on the node alone *)
Lemma emits_modify_self P (f : NodeWrapper → NodeWrapper) :
  (∀ n, _interface (f n) = _interface n ∧ iterfield (f n) = iterfield n ∧
        disk_based (f n) = disk_based n ∧ overwrite (f n) = overwrite n ∧
        name (f n) = name n ∧
        (is_Some (output_directory_base n) →
         output_directory_base (f n) = output_directory_base n)) →
  sat (emits P) (modify_self f).
Proof.
  intros Hf [n w]. destruct (Hf n) as (? & ? & ? & ? & ? & ?).
  split; [split; simpl; auto|]. exists []. auto.
Qed.

Lemma emits_modify_proc P (f : world → world) :
  (∀ w, w_locked (f w) = w_locked w ∧ w_trace (f w) = w_trace w) →
  sat (emits P) (modify_proc f).
Proof.
  intros Hf [n w]. destruct (Hf w) as [Hl Ht].
  split; [split; simpl; auto|]. exists []. simpl. auto.
Qed.

Lemma emits_log P (e : event) : P e → sat (emits P) (log_event e).
Proof.
  intros He [n w]. split; [split; simpl; auto|]. exists [e]. simpl. auto.
Qed.

Lemma set_input_config field v n :
  _interface (set_input field v n) = _interface n ∧
  iterfield (set_input field v n) = iterfield n ∧
  disk_based (set_input field v n) = disk_based n ∧
  overwrite (set_input field v n) = overwrite n ∧
  name (set_input field v n) = name n ∧
  (is_Some (output_directory_base n) →
   output_directory_base (set_input field v n) = output_directory_base n).
Proof. unfold set_input. destruct (bunch_has _ _); simpl; auto 10. Qed.

Ltac sat_prim :=
  first
    [ apply sat_ret; exact _ | apply sat_raise; exact _
    | apply sat_get_self; exact _ | apply sat_get_proc; exact _
    | apply sat_getcwd; exact _ | apply sat_path_exists; exact _
    | apply emits_modify_self; intros; simpl; auto 10 using set_input_config
    | apply emits_modify_proc; intros; simpl; auto ].

Ltac sat_step :=
  first
    [ sat_prim
    | apply sat_bind; [exact _| |intros]
    | apply sat_when; [exact _|]
    | apply sat_for_each; [exact _|intros]
    | apply sat_for_enumerate; [exact _|intros]
    | match goal with
      | |- sat _ (match ?x with _ => _ end) => destruct x
      | |- sat _ (if ?x then _ else _) => destruct x
      end ].

Ltac sat_auto := repeat sat_step.

(** ** Which events a method can add *)

Section Events.

Context (H : Helpers).

Lemma quiet_chdir P d : sat (emits P) (chdir d).
Proof. unfold chdir. sat_auto. Qed.

Lemma quiet_mkdir P p : sat (emits P) (mkdir p).
Proof. unfold mkdir. sat_auto. Qed.

Lemma quiet_call_copyfiles P files dest copy :
  sat (emits P) (call_copyfiles H files dest copy).
Proof. unfold call_copyfiles. sat_auto. Qed.

Lemma quiet_set_inputs_attr P key v : sat (emits P) (set_inputs_attr key v).
Proof. unfold set_inputs_attr. sat_auto. Qed.

Lemma quiet_output_directory P : sat (emits P) (_output_directory H).
Proof.
  intros [n w]. unfold _output_directory, bind, get_self, getcwd, get_proc, ret; simpl.
  destruct (output_directory_base n) as [d|] eqn:Hb; simpl.
  - apply q_stay.
  - split; [split; simpl; auto|exists []; auto].
    rewrite Hb. intros [? [=]].
Qed.

Lemma quiet_make_output_dir P outdir : sat (emits P) (_make_output_dir H outdir).
Proof. unfold _make_output_dir. sat_auto. Qed.

Lemma quiet_hash_step P : sat (emits P) (hash_step H).
Proof.
  unfold hash_step.
  apply sat_bind; [exact _|apply quiet_output_directory|intros].
  apply sat_bind; [exact _|apply quiet_make_output_dir|intros].
  sat_auto.
Qed.

Lemma quiet_stage_inputs P outdir : sat (emits P) (stage_inputs H outdir).
Proof. unfold stage_inputs, call_copyfiles. sat_auto. Qed.

Lemma quiet_repoint_inputs P outdir : sat (emits P) (repoint_inputs H outdir).
Proof. unfold repoint_inputs, call_copyfiles. sat_auto. Qed.

Lemma quiet_enter_subdir P basewd i cwd : sat (emits P) (enter_subdir basewd i cwd).
Proof. unfold enter_subdir. sat_auto. Qed.

Lemma quiet_assign_iterfields P itervals i subdir :
  sat (emits P) (assign_iterfields H itervals i subdir).
Proof. unfold assign_iterfields, call_copyfiles. sat_auto. Qed.

Lemma quiet_update_result P f : sat (emits P) (update_result f).
Proof. unfold update_result. sat_auto. Qed.

Lemma quiet_store_outputs P i outs : sat (emits P) (store_outputs i outs).
Proof. apply quiet_update_result. Qed.

Lemma quiet_restore_inputs P fields itervals notlist :
  sat (emits P) (restore_inputs fields itervals notlist).
Proof.
  revert itervals. induction fields as [|f fields IH]; intros itervals; simpl.
  - sat_auto.
  - destruct (notlist !!! f).
    + destruct (py_pop (itervals !!! f)) as [[v rest]|]; [|sat_auto].
      apply sat_bind; [exact _|sat_auto|intros; apply IH].
    + apply sat_bind; [exact _|sat_auto|intros; apply IH].
Qed.

Lemma save_hashfile_outcome hashfile hashed_inputs s :
  _save_hashfile H hashfile hashed_inputs s =
    (Ok tt,
     mkState (self s)
       (if bool_decide (hashfile ∈ w_locked (proc s))
        then emit (EvCritical hashfile) (proc s)
        else mkWorld (w_cwd (proc s))
               (<[hashfile := File (saved_body H hashed_inputs)]> (w_fs (proc s)))
               (w_locked (proc s))
               (save_events H hashfile hashed_inputs ++ w_trace (proc s)))).
Proof.
  destruct s as [n w].
  unfold _save_hashfile, save_json, open_w, bind, get_proc, raise,
    saved_body, save_events; simpl.
  destruct (bool_decide (hashfile ∈ w_locked w)) eqn:Hl; simpl; [reflexivity|].
  destruct (json_dumps H hashed_inputs) as [body|]; simpl.
  - unfold write_close, modify_proc, emit, with_fs; simpl.
    by rewrite insert_insert_eq.
  - rewrite Hl. simpl. unfold write_close, modify_proc, emit, with_fs, log_event; simpl.
    by rewrite !insert_insert_eq.
Qed.

Lemma save_events_are_saves hashfile hashed_inputs :
  Forall is_save (save_events H hashfile hashed_inputs).
Proof. unfold save_events. destruct (json_dumps _ _); repeat constructor. Qed.

Lemma emits_save_hashfile hashfile hashed_inputs :
  sat (emits is_save) (_save_hashfile H hashfile hashed_inputs).
Proof.
  intros s. rewrite save_hashfile_outcome. simpl.
  destruct (bool_decide _); (split; [split; simpl; auto|]).
  - exists [EvCritical hashfile]. simpl. split; [done|]. repeat constructor.
  - eexists. simpl. split; [done|]. apply save_events_are_saves.
Qed.

Global Instance exec_shape_composable : Composable exec_shape.
Proof.
  split.
  - intros s r. split; [apply same_config_refl|]. exists []. auto.
  - intros s s' s'' r [Hc (new & Ht & Hs)] [Hc' (new' & Ht' & Hs')].
    split; [eapply same_config_trans; eauto|].
    destruct Hs as [Hok|(? & ? & ? & ? & _ & _ & [=] & _)].
    exists (new' ++ new). rewrite Ht', Ht, app_assoc. split; [done|].
    destruct Hs' as [Hok'|(b & c & result & rest & -> & Hrc & -> & Hrest)].
    + left. apply Forall_app; auto.
    + right. exists b, c, result, (rest ++ new).
      repeat split; auto. apply Forall_app; auto.
Qed.

Lemma emits_exec_shape s r s' : emits ok_run s r s' → exec_shape s r s'.
Proof. intros [Hc (new & Ht & Hok)]. split; [done|]. exists new. auto. Qed.

Ltac via_emits :=
  apply (sat_weaken (emits ok_run)); [exact emits_exec_shape|].

Lemma exec_invoke itervals i cwd : sat exec_shape (invoke true itervals i cwd).
Proof.
  intros [n w]. unfold invoke, bind, call_run; simpl.
  destruct (if_run _ _ _ _ _) as [result fs'] eqn:Hr; simpl.
  destruct (Z.eqb_spec (returncode (run_runtime result)) 0) as [Hz|Hz]; simpl.
  - unfold update_result, bind, get_self; simpl.
    assert (Hev : ∀ r n',
              _interface n' = _interface n → iterfield n' = iterfield n →
              disk_based n' = disk_based n → overwrite n' = overwrite n →
              name n' = name n → output_directory_base n' = output_directory_base n →
              exec_shape (mkState n w) r
                (mkState n' (emit (EvRun (inputs n) cwd result) (with_fs fs' w)))).
    { intros r n' ? ? ? ? ? ?.
      split; [split; simpl; auto|].
      exists [EvRun (inputs n) cwd result]. simpl. split; [done|].
      left. repeat constructor. exact Hz. }
    destruct (_result n) as [res|]; simpl; [|by apply Hev].
    destruct (record_call i result res); simpl; by apply Hev.
  - split; [split; simpl; auto|].
    exists [EvRun (inputs n) cwd result]. simpl. split; [done|].
    right. exists (inputs n), cwd, result, []. auto.
Qed.

Lemma emits_invoke_collect itervals i cwd :
  sat (emits is_aggregate) (invoke false itervals i cwd).
Proof.
  intros [n w]. simpl. split; [split; simpl; auto|].
  eexists [_]. simpl. split; [done|]. repeat constructor.
Qed.

Lemma exec_iterate_once basewd itervals i cwd :
  sat exec_shape (iterate_once H true basewd itervals i cwd).
Proof.
  unfold iterate_once.
  apply sat_bind; [exact _|via_emits; apply quiet_enter_subdir|intros [c subdir]].
  apply sat_bind; [exact _|via_emits; apply quiet_assign_iterfields|intros _].
  apply sat_bind; [exact _|apply exec_invoke|intros outs].
  apply sat_bind; [exact _|via_emits; apply quiet_store_outputs|intros _].
  apply sat_ret; exact _.
Qed.

Lemma emits_iterate_once_collect basewd itervals i cwd :
  sat (emits is_aggregate) (iterate_once H false basewd itervals i cwd).
Proof.
  unfold iterate_once.
  apply sat_bind; [exact _|apply quiet_enter_subdir|intros [c subdir]].
  apply sat_bind; [exact _|apply quiet_assign_iterfields|intros _].
  apply sat_bind; [exact _|apply emits_invoke_collect|intros outs].
  apply sat_bind; [exact _|apply quiet_store_outputs|intros _].
  apply sat_ret; exact _.
Qed.

Lemma exec_iterate basewd itervals vals i cwd :
  sat exec_shape (iterate H true basewd itervals i vals cwd).
Proof.
  revert i cwd. induction vals as [|v vals IH]; intros i cwd; simpl.
  - apply sat_ret; exact _.
  - apply sat_bind; [exact _|apply exec_iterate_once|intros; apply IH].
Qed.

Lemma emits_iterate_collect basewd itervals vals i cwd :
  sat (emits is_aggregate) (iterate H false basewd itervals i vals cwd).
Proof.
  revert i cwd. induction vals as [|v vals IH]; intros i cwd; simpl.
  - apply sat_ret; exact _.
  - apply sat_bind; [exact _|apply emits_iterate_once_collect|intros; apply IH].
Qed.

Lemma exec_run_interface cwd : sat exec_shape (_run_interface H true cwd).
Proof.
  unfold _run_interface.
  apply sat_bind; [exact _|via_emits; sat_auto|intros old_cwd].
  apply sat_bind; [exact _|via_emits; sat_auto|intros _].
  apply sat_bind; [exact _|via_emits; sat_auto|intros n].
  apply sat_bind; [exact _| |intros cwd'].
  { via_emits. destruct (_ && _); [|sat_auto].
    apply sat_bind; [exact _|apply quiet_output_directory|intros; sat_auto]. }
  apply sat_bind; [exact _|via_emits; sat_auto|intros n'].
  apply sat_bind; [exact _| |intros; via_emits; sat_auto].
  destruct (iterfield n') as [|field0 fields].
  - apply sat_bind; [exact _| |intros; via_emits; sat_auto].
    intros [n0 w]. unfold bind, call_run, modify_self, when; simpl.
    destruct (if_run _ _ _ _ _) as [result fs'] eqn:Hr; simpl.
    destruct (Z.eqb_spec (returncode (run_runtime result)) 0) as [Hz|Hz]; simpl;
      (split; [split; simpl; auto|]);
      exists [EvRun (inputs n0) cwd' result]; (split; [done|]).
    + left. repeat constructor. exact Hz.
    + right. exists (inputs n0), cwd', result, []. auto.
  - destruct (coerce_iterfields n') as [itervals notlist].
    apply sat_bind; [exact _|via_emits; sat_auto|intros _].
    apply sat_bind; [exact _|apply exec_iterate|intros c].
    apply sat_bind; [exact _|via_emits; apply quiet_restore_inputs|intros; via_emits; sat_auto].
Qed.

Lemma emits_run_interface_collect cwd :
  sat (emits is_aggregate) (_run_interface H false cwd).
Proof.
  unfold _run_interface.
  apply sat_bind; [exact _|sat_auto|intros old_cwd].
  apply sat_bind; [exact _|sat_auto|intros _].
  apply sat_bind; [exact _|sat_auto|intros n].
  apply sat_bind; [exact _| |intros cwd'].
  { destruct (_ && _); [|sat_auto].
    apply sat_bind; [exact _|apply quiet_output_directory|intros; sat_auto]. }
  apply sat_bind; [exact _|sat_auto|intros n'].
  apply sat_bind; [exact _| |intros; sat_auto].
  destruct (iterfield n') as [|field0 fields].
  - apply sat_bind; [exact _| |intros; sat_auto].
    apply sat_bind; [exact _| |intros; sat_auto].
    intros [n0 w]. simpl. split; [split; simpl; auto|].
    eexists [_]. simpl. split; [done|]. repeat constructor.
  - destruct (coerce_iterfields n') as [itervals notlist].
    apply sat_bind; [exact _|sat_auto|intros _].
    apply sat_bind; [exact _|apply emits_iterate_collect|intros c].
    apply sat_bind; [exact _|apply quiet_restore_inputs|intros; sat_auto].
Qed.

Lemma sat_bind_het (Q1 Q2 Q3 : state → option exn → state → Prop)
    {A B} (m : M A) (k : A → M B) :
  (∀ s s' s'' r, Q1 s None s' → Q2 s' r s'' → Q3 s r s'') →
  (∀ s e s', Q1 s (Some e) s' → Q3 s (Some e) s') →
  sat Q1 m → (∀ a, sat Q2 (k a)) → sat Q3 (bind m k).
Proof.
  intros Hseq Herr Hm Hk s. unfold bind. specialize (Hm s).
  destruct (m s) as [[a|e] s']; simpl in *.
  - eapply Hseq; [exact Hm|apply Hk].
  - by apply Herr.
Qed.

Lemma ok_run_not_failed e : ok_run e → ¬ failed_run e.
Proof. destruct e; simpl; auto. Qed.

Lemma emits_run_shape P s r s' :
  (∀ e, P e → ¬ failed_run e) → emits P s r s' → run_shape s r s'.
Proof.
  intros HP [Hc (new & Ht & Hn)]. split; [done|]. exists new. split; [done|].
  left. eapply Forall_impl; eauto.
Qed.

Lemma exec_run_shape s r s' : exec_shape s r s' → run_shape s r s'.
Proof.
  intros [Hc (new & Ht & Hn)]. split; [done|]. exists new. split; [done|].
  destruct Hn as [Hok|Hfail]; [left|by right].
  eapply Forall_impl; eauto using ok_run_not_failed.
Qed.

Lemma quiet_then_run_shape s s' s'' r :
  emits no_event s None s' → run_shape s' r s'' → run_shape s r s''.
Proof.
  intros [Hc (new & Ht & Hn)] [Hc' (new' & Ht' & Hn')].
  split; [eapply same_config_trans; eauto|].
  destruct new as [|e new]; [|by inversion Hn].
  exists new'. rewrite Ht', Ht. auto.
Qed.

Lemma run_shape_then_quiet s s' s'' r :
  run_shape s None s' → emits no_event s' r s'' → run_shape s r s''.
Proof.
  intros [Hc (new & Ht & Hn)] [Hc' (new' & Ht' & Hn')].
  split; [eapply same_config_trans; eauto|].
  destruct new' as [|e new']; [|by inversion Hn'].
  exists new. rewrite Ht', Ht. split; [done|].
  destruct Hn as [Hok|(? & ? & ? & ? & _ & _ & [=] & _)]. by left.
Qed.

Lemma exec_then_save s s' s'' r :
  exec_shape s None s' → emits is_save s' r s'' → run_shape s r s''.
Proof.
  intros [Hc (new & Ht & Hn)] [Hc' (new' & Ht' & Hn')].
  split; [eapply same_config_trans; eauto|].
  exists (new' ++ new). rewrite Ht', Ht, app_assoc. split; [done|].
  destruct Hn as [Hok|(? & ? & ? & ? & _ & _ & [=] & _)].
  left. apply Forall_app. split.
  - eapply Forall_impl; [exact Hn'|]. intros []; simpl; auto.
  - eapply Forall_impl; eauto using ok_run_not_failed.
Qed.

Lemma quiet_error_run_shape s e s' :
  emits no_event s (Some e) s' → run_shape s (Some e) s'.
Proof. apply emits_run_shape. intros ? []. Qed.

Lemma sat_run_shape updatehash : sat run_shape (run H updatehash).
Proof.
  unfold run.
  apply (sat_bind_het (emits no_event) run_shape run_shape);
    [apply quiet_then_run_shape|apply quiet_error_run_shape|sat_auto|intros n].
  apply (sat_bind_het run_shape (emits no_event) run_shape);
    [apply run_shape_then_quiet|auto| |intros; sat_auto].
  destruct (disk_based n);
    [|apply (sat_weaken exec_shape); [exact exec_run_shape|apply exec_run_interface]].
  apply (sat_bind_het (emits no_event) run_shape run_shape);
    [apply quiet_then_run_shape|apply quiet_error_run_shape|apply quiet_hash_step|].
  intros [[[outdir hashed_inputs] hashvalue] hashfile].
  apply (sat_bind_het (emits no_event) run_shape run_shape);
    [apply quiet_then_run_shape|apply quiet_error_run_shape|sat_auto|intros n'].
  destruct updatehash; simpl.
  - apply (sat_weaken (emits is_save_or_aggregate)).
    { intros s r s'. apply emits_run_shape. intros [] [[]|[]]; simpl; auto. }
    apply sat_bind; [exact _| |intros _].
    { apply (sat_weaken (emits is_save)); [|apply emits_save_hashfile].
      intros s r s'. apply emits_mono. by left. }
    apply sat_bind; [exact _|sat_auto|intros ex].
    apply sat_bind; [exact _|apply quiet_repoint_inputs|intros _].
    apply (sat_weaken (emits is_aggregate)); [|apply emits_run_interface_collect].
    intros s r s'. apply emits_mono. by right.
  - apply (sat_bind_het (emits no_event) run_shape run_shape);
      [apply quiet_then_run_shape|apply quiet_error_run_shape|sat_auto|intros _].
    apply (sat_bind_het (emits no_event) run_shape run_shape);
      [apply quiet_then_run_shape|apply quiet_error_run_shape|sat_auto|intros ex].
    destruct (default false (overwrite n') || negb ex).
    + apply (sat_bind_het (emits no_event) run_shape run_shape);
        [apply quiet_then_run_shape|apply quiet_error_run_shape|sat_auto|intros _].
      apply (sat_bind_het (emits no_event) run_shape run_shape);
        [apply quiet_then_run_shape|apply quiet_error_run_shape
        |apply quiet_stage_inputs|intros _].
      apply (sat_bind_het exec_shape (emits is_save) run_shape);
        [apply exec_then_save|intros; by apply exec_run_shape
        |apply exec_run_interface|intros _].
      apply sat_bind; [exact _|sat_auto|intros n''].
      destruct (_result n'') as [res|]; [|sat_auto].
      destruct (combined_returncode res) as [rc|e]; [|sat_auto].
      destruct (rc =? 0)%Z; [apply emits_save_hashfile|sat_auto].
    + apply (sat_bind_het (emits no_event) run_shape run_shape);
        [apply quiet_then_run_shape|apply quiet_error_run_shape
        |apply quiet_repoint_inputs|intros _].
      apply (sat_weaken (emits is_aggregate)); [|apply emits_run_interface_collect].
      intros s r s'. apply emits_run_shape. intros []; simpl; auto.
Qed.

End Events.

(** ** The hash file *)


(** ** A failed call of the adapter *)

(** C2: whenever a call of the adapter returns a nonzero status during a
    run, [run] raises (a [RuntimeError] with the error output of that
    call), the failed call is the last thing the run did, so the adapter
    is not called for a later index and the hash file is not written,
    and everything the run did before it was a successful call of the
    adapter. *)
Theorem failed_call_aborts_run (H : Helpers) (updatehash : bool)
    (s s' : state) (res : outcome (option InterfaceResult)) :
  run H updatehash s = (res, s') →
  ∃ new, w_trace (proc s') = new ++ w_trace (proc s) ∧
    ∀ b c result,
      EvRun b c result ∈ new → returncode (run_runtime result) ≠ 0%Z →
      res = Raise (RuntimeError (stderr (run_runtime result))) ∧
      ∃ earlier, new = EvRun b c result :: earlier ∧ Forall ok_run earlier.
Proof.
  intros Hrun. pose proof (sat_run_shape H updatehash s) as [_ (new & Ht & Hn)].
  rewrite Hrun in Ht, Hn. simpl in Ht, Hn.
  exists new. split; [done|]. intros b c result Hin Hrc.
  destruct Hn as [Hok|(b' & c' & result' & rest & -> & Hrc' & Hres & Hrest)].
  - rewrite Forall_forall in Hok. destruct (Hok _ Hin). exact Hrc.
  - apply elem_of_cons in Hin as [[= -> -> ->]|Hin].
    + split; [|eauto]. destruct res; simpl in Hres; congruence.
    + rewrite Forall_forall in Hrest. apply Hrest in Hin. simpl in Hin. congruence.
Qed.

(** ** Inversion of composed methods *)

Lemma bind_Ok {A B} (m : M A) (k : A → M B) s b s' :
  bind m k s = (Ok b, s') → ∃ a s1, m s = (Ok a, s1) ∧ k a s1 = (Ok b, s').
Proof.
  unfold bind. destruct (m s) as [[a|e] s1]; [eauto|discriminate].
Qed.

Lemma bind_unfold {A B} (m : M A) (k : A → M B) s :
  bind m k s =
  match m s with
  | (Ok a, s') => k a s'
  | (Raise e, s') => (Raise e, s')
  end.
Proof. reflexivity. Qed.

Lemma when_Ok (c : bool) (m : M unit) s s' :
  when c m s = (Ok tt, s') → (c = true ∧ m s = (Ok tt, s')) ∨ (c = false ∧ s' = s).
Proof. destruct c; simpl; [auto|]. unfold ret. intros [= ->]. auto. Qed.

Global Instance keeps_composable {X} (g : state → X) : Composable (keeps g).
Proof. split; unfold keeps; congruence. Qed.

Lemma keeps_modify_self {X} (g : state → X) f :
  (∀ n w, g (mkState (f n) w) = g (mkState n w)) → sat (keeps g) (modify_self f).
Proof. intros Hf [n w]. apply Hf. Qed.

Lemma keeps_modify_proc {X} (g : state → X) f :
  (∀ n w, g (mkState n (f w)) = g (mkState n w)) → sat (keeps g) (modify_proc f).
Proof. intros Hf [n w]. apply Hf. Qed.

Ltac keeps_auto :=
  repeat first
    [ sat_step
    | apply keeps_modify_self; intros; reflexivity
    | apply keeps_modify_self; intros; unfold set_input;
      destruct (bunch_has _ _); reflexivity
    | apply keeps_modify_proc; intros; reflexivity ].

(** ** Restoring the iteration fields *)

Lemma agree_off_refl fields b : agree_off fields b b.
Proof. split; auto. Qed.

Lemma agree_off_trans fields b b' b'' :
  agree_off fields b b' → agree_off fields b' b'' → agree_off fields b b''.
Proof. intros [Hd Hk] [Hd' Hk']. split; [congruence|]. intros k Hn. rewrite Hk', Hk; auto. Qed.

Lemma agree_off_mono fields fields' b b' :
  fields ⊆ fields' → agree_off fields b b' → agree_off fields' b b'.
Proof. intros Hsub [Hd Hk]. split; [done|]. intros k Hn. apply Hk. set_solver. Qed.

Lemma bunch_has_spec (b : bunch) k : bunch_has b k = true ↔ k ∈ dom b.
Proof. unfold bunch_has. rewrite bool_decide_eq_true, elem_of_dom. done. Qed.

Lemma set_input_agree fields f v n :
  f ∈ fields → agree_off fields (inputs n) (inputs (set_input f v n)).
Proof.
  intros Hf. unfold set_input. destruct (bunch_has (inputs n) f) eqn:Hh; simpl.
  - apply bunch_has_spec in Hh. split.
    + rewrite dom_insert_L. set_solver.
    + intros k Hk. apply lookup_insert_ne. intros ->. done.
  - apply agree_off_refl.
Qed.

Lemma set_input_lookup f v n :
  bunch_has (inputs n) f = true → inputs (set_input f v n) !! f = Some v.
Proof. intros Hh. unfold set_input. rewrite Hh. simpl. apply lookup_insert_eq. Qed.

Lemma coerce_fields_spec (b : bunch) fields acc :
  ∀ f,
    (f ∈ fields →
     (foldl (coerce_field b) acc fields).1 !!! f = iter_values (bunch_get b f) ∧
     (foldl (coerce_field b) acc fields).2 !!! f = negb (is_list (bunch_get b f))) ∧
    (f ∉ fields →
     (foldl (coerce_field b) acc fields).1 !!! f = acc.1 !!! f ∧
     (foldl (coerce_field b) acc fields).2 !!! f = acc.2 !!! f).
Proof.
  revert acc. induction fields as [|g fields IH]; intros acc f; simpl.
  - split; [intros Hin; inversion Hin|done].
  - destruct (decide (f ∈ fields)) as [Hin|Hnin].
    + split; [intros _; by apply IH|]. intros Hn. set_solver.
    + destruct (IH (coerce_field b acc g) f) as [_ Hout]. specialize (Hout Hnin).
      destruct Hout as [-> ->].
      destruct (decide (f = g)) as [->|Hne].
      * split; [intros _|set_solver].
        unfold coerce_field.
        destruct (bunch_get b g); simpl;
          by rewrite !lookup_total_insert_eq.
      * split; [set_solver|intros _].
        unfold coerce_field.
        destruct (bunch_get b g); simpl;
          by rewrite !lookup_total_insert_ne.
Qed.

Lemma coerce_iterfields_spec n f :
  f ∈ iterfield n →
  (coerce_iterfields n).1 !!! f = iter_values (bunch_get (inputs n) f) ∧
  (coerce_iterfields n).2 !!! f = negb (is_list (bunch_get (inputs n) f)).
Proof. apply coerce_fields_spec. Qed.

Global Instance iterfields_only_composable : Composable iterfields_only.
Proof.
  split.
  - intros s r. split; [done|apply agree_off_refl].
  - intros s s' s'' r [Hf Ha] [Hf' Ha']. split; [congruence|].
    rewrite Hf in Ha'. eapply agree_off_trans; eauto.
Qed.

Lemma keeps_iterfields_only s r s' :
  keeps (λ s, (iterfield (self s), inputs (self s))) s r s' → iterfields_only s r s'.
Proof. unfold keeps. intros [= Hf Hi]. split; [done|]. rewrite Hi. apply agree_off_refl. Qed.

Ltac via_keeps :=
  apply (sat_weaken (keeps (λ s, (iterfield (self s), inputs (self s)))));
    [exact keeps_iterfields_only|].

Section Restoring.

Context (H : Helpers).

Lemma keeps_call_copyfiles {X} (g : state → X) files dest copy :
  (∀ n w fs, g (mkState n (with_fs fs w)) = g (mkState n w)) →
  sat (keeps g) (call_copyfiles H files dest copy).
Proof.
  intros Hg [n w]. unfold call_copyfiles, bind, get_proc; simpl.
  destruct (copyfiles H files dest copy (w_fs w)). simpl. apply Hg.
Qed.

Lemma keeps_output_directory {X} (g : state → X) :
  (∀ n w fs d, g (mkState (with_base d n) (with_fs fs w)) = g (mkState n w)) →
  sat (keeps g) (_output_directory H).
Proof.
  intros Hg [n w]. unfold _output_directory, bind, get_self, getcwd, get_proc, ret; simpl.
  destruct (output_directory_base n); simpl; [done|]. apply Hg.
Qed.

Lemma assign_fields_only (itervals : gmap string (list pyval)) i subdir fields s :
  let body := λ field : string,
    match (itervals !!! field) !! i with
    | None => raise IndexError
    | Some v =>
      let* n := get_self in
      let* newfile :=
        if disk_based n then
          let* copied := call_copyfiles H v (VList [VStr subdir]) false in
          ret (list_to_filename H copied)
        else ret v in
      modify_self (set_input field newfile)
    end in
  iterfield (self (for_each fields body s).2) = iterfield (self s) ∧
  agree_off fields (inputs (self s)) (inputs (self (for_each fields body s).2)).
Proof.
  intros body. revert s. induction fields as [|f fields IH]; intros s; simpl.
  - split; [done|apply agree_off_refl].
  - rewrite bind_unfold.
    assert (Hstep : iterfield (self (body f s).2) = iterfield (self s) ∧
                    agree_off [f] (inputs (self s)) (inputs (self (body f s).2))).
    { unfold body. destruct ((itervals !!! f) !! i) as [v|]; simpl;
        [|split; [done|apply agree_off_refl]].
      destruct s as [n w]. unfold bind, get_self; simpl.
      destruct (disk_based n); simpl.
      - unfold call_copyfiles, bind, get_proc; simpl.
        destruct (copyfiles H v _ false (w_fs w)) as [copied fs']; simpl.
        split; [apply set_input_config|apply set_input_agree; set_solver].
      - split; [apply set_input_config|apply set_input_agree; set_solver]. }
    destruct Hstep as [Hf Ha].
    destruct (body f s) as [[[]|e] s1]; simpl in *.
    + destruct (IH s1) as [Hf' Ha']. split; [congruence|].
      eapply agree_off_trans.
      * eapply agree_off_mono; [|exact Ha]. set_solver.
      * eapply agree_off_mono; [|exact Ha']. set_solver.
    + split; [done|]. eapply agree_off_mono; [|exact Ha]. set_solver.
Qed.

Lemma iterfields_only_assign itervals i subdir :
  sat iterfields_only (assign_iterfields H itervals i subdir).
Proof.
  intros [n w]. unfold assign_iterfields, bind at 1, get_self; simpl.
  apply (assign_fields_only itervals i subdir (iterfield n) (mkState n w)).
Qed.

Lemma iterfields_only_invoke execute itervals i cwd :
  sat iterfields_only (invoke execute itervals i cwd).
Proof.
  via_keeps. intros [n w]. unfold invoke. destruct execute.
  - unfold bind, call_run; simpl.
    destruct (if_run _ _ _ _ _) as [result fs']; simpl.
    destruct (negb _); simpl; [done|].
    unfold update_result, bind, get_self; simpl.
    destruct (_result n) as [res|]; simpl; [|done].
    destruct (record_call i result res); done.
  - done.
Qed.

Lemma iterfields_only_iterate_once execute basewd itervals i cwd :
  sat iterfields_only (iterate_once H execute basewd itervals i cwd).
Proof.
  unfold iterate_once.
  apply sat_bind; [exact _|via_keeps; unfold enter_subdir; keeps_auto|intros [c subdir]].
  apply sat_bind; [exact _|apply iterfields_only_assign|intros _].
  apply sat_bind; [exact _|apply iterfields_only_invoke|intros outs].
  apply sat_bind; [exact _|via_keeps; unfold store_outputs, update_result; keeps_auto|intros _].
  apply sat_ret; exact _.
Qed.

Lemma iterfields_only_iterate execute basewd itervals vals i cwd :
  sat iterfields_only (iterate H execute basewd itervals i vals cwd).
Proof.
  revert i cwd. induction vals as [|v vals IH]; intros i cwd; simpl.
  - apply sat_ret; exact _.
  - apply sat_bind; [exact _|apply iterfields_only_iterate_once|intros; apply IH].
Qed.

Lemma py_pop_singleton {A} (x : A) : py_pop [x] = Some (x, []).
Proof. reflexivity. Qed.

(** [restore_inputs] gives every field that is an input its value in
    [b0], provided the lists it pops from still hold that value. *)
Lemma restore_inputs_spec (b0 : bunch) (notlist : gmap string bool) fields :
  ∀ (itervals : gmap string (list pyval)) s s',
    (∀ f, f ∈ fields →
       if (notlist !!! f : bool)
       then itervals !!! f = [bunch_get b0 f] ∨ itervals !!! f = []
       else VList (itervals !!! f) = bunch_get b0 f) →
    restore_inputs fields itervals notlist s = (Ok tt, s') →
    agree_off fields (inputs (self s)) (inputs (self s')) ∧
    ∀ f, f ∈ fields → bunch_has (inputs (self s)) f = true →
         inputs (self s') !! f = Some (bunch_get b0 f).
Proof.
  induction fields as [|g fields IH]; intros itervals s s' Hinv; simpl.
  - intros [= <-]. split; [apply agree_off_refl|]. intros f Hf. inversion Hf.
  - pose proof (Hinv g ltac:(set_solver)) as Hg.
    assert (Hstep : ∀ itervals' s1,
      s1 = mkState (set_input g (bunch_get b0 g) (self s)) (proc s) →
      (∀ f, f ∈ fields →
         if (notlist !!! f : bool)
         then itervals' !!! f = [bunch_get b0 f] ∨ itervals' !!! f = []
         else VList (itervals' !!! f) = bunch_get b0 f) →
      restore_inputs fields itervals' notlist s1 = (Ok tt, s') →
      agree_off (g :: fields) (inputs (self s)) (inputs (self s')) ∧
      ∀ f, f ∈ g :: fields → bunch_has (inputs (self s)) f = true →
           inputs (self s') !! f = Some (bunch_get b0 f)).
    { intros itervals' s1 -> Hinv' Hrest.
      destruct (IH _ _ _ Hinv' Hrest) as [Ha Hv]. simpl in Ha, Hv.
      pose proof (set_input_agree [g] g (bunch_get b0 g) (self s) ltac:(set_solver)) as Hset.
      split.
      - eapply agree_off_trans.
        + eapply agree_off_mono; [|exact Hset]. set_solver.
        + eapply agree_off_mono; [|exact Ha]. set_solver.
      - intros f Hf Hhas.
        assert (Hhas' : bunch_has (inputs (set_input g (bunch_get b0 g) (self s))) f = true).
        { apply bunch_has_spec. destruct Hset as [-> _]. by apply bunch_has_spec. }
        destruct (decide (f ∈ fields)) as [Hin|Hnin]; [by apply Hv|].
        assert (f = g) as -> by set_solver.
        destruct Ha as [_ Hk]. rewrite Hk by done.
        by apply set_input_lookup. }
    destruct (notlist !!! g) eqn:Hnl.
    + destruct Hg as [Hg|Hg]; rewrite Hg; [|discriminate].
      rewrite py_pop_singleton, bind_unfold. unfold modify_self at 1.
      intros Hrest. eapply Hstep; [destruct s; reflexivity| |exact Hrest].
      intros f Hf. specialize (Hinv f ltac:(set_solver)).
      destruct (decide (f = g)) as [->|Hne].
      * rewrite Hnl, lookup_total_insert_eq. by right.
      * by rewrite lookup_total_insert_ne.
    + rewrite Hg, bind_unfold. unfold modify_self at 1.
      intros Hrest. eapply Hstep; [destruct s; reflexivity| |exact Hrest].
      intros f Hf. apply Hinv. set_solver.
Qed.

Lemma restore_inputs_config fields :
  ∀ (itervals : gmap string (list pyval)) notlist,
    sat (keeps (λ s, (_result (self s), proc s))) (restore_inputs fields itervals notlist).
Proof.
  induction fields as [|g fields IH]; intros itervals notlist; simpl.
  - apply sat_ret; exact _.
  - destruct (notlist !!! g).
    + destruct (py_pop _) as [[v rest]|]; [|apply sat_raise; exact _].
      apply sat_bind; [exact _| |intros; apply IH].
      intros [n w]. unfold keeps, set_input; simpl. by destruct (bunch_has _ _).
    + apply sat_bind; [exact _| |intros; apply IH].
      intros [n w]. unfold keeps, set_input; simpl. by destruct (bunch_has _ _).
Qed.

(** A run of the interface that returns leaves the inputs as they
    were. *)
Lemma run_interface_keeps_inputs execute cwd s s' :
  _run_interface H execute cwd s = (Ok tt, s') →
  inputs (self s') = inputs (self s).
Proof.
  unfold _run_interface. intros Hrun.
  apply bind_Ok in Hrun as (old_cwd & s1 & Hcwd & Hrun).
  injection Hcwd as <- <-.
  apply bind_Ok in Hrun as ([] & s2 & Hch & Hrun).
  assert (Hs2 : inputs (self s2) = inputs (self s) ∧ iterfield (self s2) = iterfield (self s)).
  { apply when_Ok in Hch as [[_ Hch]|[_ ->]]; [|done].
    destruct s. injection Hch as <-. done. }
  destruct Hs2 as [Hi2 Hf2].
  apply bind_Ok in Hrun as (n & s2' & Hn & Hrun). injection Hn as <- <-.
  apply bind_Ok in Hrun as (cwd' & s3 & Hdir & Hrun).
  assert (Hs3 : inputs (self s3) = inputs (self s) ∧ iterfield (self s3) = iterfield (self s)).
  { destruct (_ && _).
    - pose proof (keeps_output_directory (λ s, (inputs (self s), iterfield (self s)))
                    ltac:(done) s2) as Hk.
      apply bind_Ok in Hdir as (d & s2a & Hd & Hdir). rewrite Hd in Hk.
      unfold keeps in Hk. simpl in Hk.
      apply bind_Ok in Hdir as ([] & s2b & Hc & Hdir).
      destruct s2a. injection Hc as <-. injection Hdir as _ <-.
      simpl in *. injection Hk as -> ->. done.
    - injection Hdir as _ <-. done. }
  destruct Hs3 as [Hi3 Hf3].
  apply bind_Ok in Hrun as (n' & s3' & Hn & Hrun). injection Hn as <- <-.
  apply bind_Ok in Hrun as (cwd'' & s4 & Hbody & Hrun).
  assert (Hs4 : inputs (self s4) = inputs (self s)).
  2:{ apply when_Ok in Hrun as [[_ Hch']|[_ ->]]; [|done].
      destruct s4. injection Hch' as <-. done. }
  destruct (iterfield (self s3)) as [|field0 fields] eqn:Hfields.
  - apply bind_Ok in Hbody as ([] & s3a & Hcall & Hret). injection Hret as _ <-.
    rewrite <- Hi3. destruct execute.
    + apply bind_Ok in Hcall as (result & s3b & Hc & Hrest).
      unfold call_run in Hc. destruct (if_run _ _ _ _ _). injection Hc as <- <-.
      apply bind_Ok in Hrest as ([] & s3c & Hm & Hw). injection Hm as <-.
      apply when_Ok in Hw as [[_ Hw]|[_ ->]]; [discriminate|done].
    + apply bind_Ok in Hcall as (aggouts & s3b & Hc & Hrest).
      injection Hc as _ <-. injection Hrest as <-. done.
  - destruct (coerce_iterfields (self s3)) as [itervals notlist] eqn:Hco.
    apply bind_Ok in Hbody as ([] & s3a & Hm & Hbody). injection Hm as <-.
    apply bind_Ok in Hbody as (c & s3b & Hit & Hbody).
    apply bind_Ok in Hbody as ([] & s3c & Hre & Hret). injection Hret as _ <-.
    pose proof (iterfields_only_iterate execute cwd' itervals (itervals !!! field0) 0 cwd'
                  (mkState (with_result (Some (mkResult (SList []) (SList []) ∅)) (self s3))
                           (proc s3))) as [Hf Ha].
    rewrite Hit in Hf, Ha. simpl in Hf, Ha.
    assert (Hinv : ∀ f, f ∈ field0 :: fields →
              if (notlist !!! f : bool)
              then itervals !!! f = [bunch_get (inputs (self s3)) f] ∨ itervals !!! f = []
              else VList (itervals !!! f) = bunch_get (inputs (self s3)) f).
    { intros f Hin. rewrite <- Hfields in Hin.
      destruct (coerce_iterfields_spec (self s3) f Hin) as [Hv Hn].
      rewrite Hco in Hv, Hn. simpl in Hv, Hn. rewrite Hv, Hn.
      destruct (bunch_get (inputs (self s3)) f); simpl; auto. }
    destruct (restore_inputs_spec _ _ _ _ _ _ Hinv Hre) as [Hb Hv].
    rewrite Hfields in Ha. rewrite <- Hi3.
    apply map_eq. intros k.
    destruct (decide (k ∈ field0 :: fields)) as [Hin|Hnin].
    + destruct (inputs (self s3) !! k) as [v|] eqn:Hk.
      * rewrite Hv; [|done|].
        -- unfold bunch_get. by rewrite Hk.
        -- apply bunch_has_spec. destruct Ha as [-> _]. apply elem_of_dom. eauto.
      * apply not_elem_of_dom. destruct Hb as [-> _], Ha as [-> _].
        by apply not_elem_of_dom.
    + destruct Hb as [_ ->]; [|done]. destruct Ha as [_ ->]; done.
Qed.

End Restoring.

(** C6: after a run of the interface over iteration fields that returns,
    every iteration field holds the value it had before: a field that
    held a scalar (and was wrapped in a one-element list for the
    iteration) holds that scalar again, and a field that held a list
    holds the whole list again. *)
Theorem iterfields_restored_after_run (H : Helpers) (execute : bool)
    (cwd : option string) (s s' : state) (field : string) :
  _run_interface H execute cwd s = (Ok tt, s') →
  field ∈ iterfield (self s) →
  let before := bunch_get (inputs (self s)) field in
  let after := bunch_get (inputs (self s')) field in
  (is_list before = false → is_list after = false ∧ after = before) ∧
  (∀ l, before = VList l → after = VList l).
Proof.
  intros Hrun _ before after.
  assert (after = before) as ->.
  { unfold after, before. by rewrite (run_interface_keeps_inputs H _ _ _ _ Hrun). }
  split; [auto|done].
Qed.

Lemma iterfields_restored_after_run_witness :
  let s := mkState (Demo.node_of Demo.doubler ["x"] false None {[ "x" := VInt 3 ]})
                   Demo.world0 in
  let s' := (_run_interface Demo.helpers true None s).2 in
  (is_list (bunch_get (inputs (self s)) "x") = false →
   is_list (bunch_get (inputs (self s')) "x") = false ∧
   bunch_get (inputs (self s')) "x" = bunch_get (inputs (self s)) "x") ∧
  (∀ l, bunch_get (inputs (self s)) "x" = VList l →
        bunch_get (inputs (self s')) "x" = VList l).
Proof.
  intros s s'.
  apply (iterfields_restored_after_run Demo.helpers true None s s' "x").
  - vm_compute. reflexivity.
  - vm_compute. left.
Defined.

(** ** Gathering the outputs of an iteration *)

Lemma py_insert_past_end {A} (i : nat) (x : A) (l : list A) :
  (length l ≤ i)%nat → py_insert i x l = l ++ [x].
Proof.
  intros Hle. unfold py_insert. by rewrite take_ge, drop_ge by lia.
Qed.

Lemma collect_list_lookup i (items : list (string * pyval)) :
  NoDup items.*1 →
  ∀ (acc : bunch) key,
    (∀ v, (key, v) ∈ items →
       foldl (collect_output i) acc items !! key =
       Some (VList (match bunch_get acc key with
                    | VList l => py_insert i v l
                    | _ => [v]
                    end))) ∧
    (key ∉ items.*1 → foldl (collect_output i) acc items !! key = acc !! key).
Proof.
  induction items as [|[k0 v0] items IH]; intros Hnd acc key; simpl.
  - split; [intros v Hin; inversion Hin|done].
  - apply NoDup_cons in Hnd as [Hk0 Hnd]. simpl in Hk0.
    destruct (IH Hnd (collect_output i acc (k0, v0)) key) as [Hin Hout].
    assert (Hstep : ∀ k, k ≠ k0 →
              collect_output i acc (k0, v0) !! k = acc !! k).
    { intros k Hne. unfold collect_output. simpl.
      destruct (bunch_get acc k0); by rewrite lookup_insert_ne. }
    split.
    + intros v Hv. apply elem_of_cons in Hv as [[= -> ->]|Hv].
      * rewrite Hout by done. unfold collect_output. simpl.
        destruct (bunch_get acc k0); by rewrite lookup_insert_eq.
      * assert (key ≠ k0) as Hne.
        { intros ->. apply Hk0. apply list_elem_of_fmap. by exists (k0, v). }
        rewrite (Hin v Hv). unfold bunch_get. by rewrite Hstep.
    + intros Hn. apply not_elem_of_cons in Hn as [Hne Hn].
      rewrite Hout by done. by apply Hstep.
Qed.

Lemma collect_outputs_lookup i (outs acc : bunch) key :
  collect_outputs i outs acc !! key =
  match outs !! key with
  | Some v => Some (VList (match bunch_get acc key with
                           | VList l => py_insert i v l
                           | _ => [v]
                           end))
  | None => acc !! key
  end.
Proof.
  unfold collect_outputs.
  destruct (collect_list_lookup i (map_to_list outs) (NoDup_fst_map_to_list outs) acc key)
    as [Hin Hout].
  destruct (outs !! key) as [v|] eqn:Hk.
  - apply Hin. by apply elem_of_map_to_list.
  - apply Hout. intros Hin'. apply list_elem_of_fmap in Hin' as [[k v] [-> Hkv]].
    apply elem_of_map_to_list in Hkv. simpl in Hk. congruence.
Qed.

Lemma gathered_length key calls : (length (gathered key calls) ≤ length calls)%nat.
Proof.
  unfold gathered. induction calls as [|c calls IH]; [done|].
  change (omap (λ c, call_outputs c !! key) (c :: calls))
    with (match call_outputs c !! key with
          | Some v => v :: omap (λ c, call_outputs c !! key) calls
          | None => omap (λ c, call_outputs c !! key) calls
          end).
  destruct (call_outputs c !! key); simpl; lia.
Qed.

Lemma gathered_snoc key calls c :
  gathered key (calls ++ [c]) =
  gathered key calls ++ match call_outputs c !! key with Some v => [v] | None => [] end.
Proof.
  unfold gathered. rewrite omap_app. simpl. by destruct (call_outputs c !! key).
Qed.

(** One more call: its outputs are appended, never inserted before or
    over what is there. *)
Lemma gathers_collect calls c (acc : bunch) :
  gathers calls acc →
  gathers (calls ++ [c]) (collect_outputs (length calls) (call_outputs c) acc).
Proof.
  intros Hacc key. rewrite collect_outputs_lookup, gathered_snoc.
  specialize (Hacc key). unfold bunch_get. rewrite Hacc.
  pose proof (gathered_length key calls) as Hlen.
  destruct (call_outputs c !! key) as [v|]; simpl.
  - destruct (gathered key calls) as [|x l] eqn:Hg; simpl; [done|].
    by rewrite py_insert_past_end by (simpl in *; lia).
  - by rewrite app_nil_r.
Qed.

Lemma gathered_all key calls :
  (∀ c, c ∈ calls → is_Some (call_outputs c !! key)) →
  gathered key calls = (λ c, bunch_get (call_outputs c) key) <$> calls.
Proof.
  unfold gathered. induction calls as [|c calls IH]; intros Hall; simpl; [done|].
  destruct (Hall c ltac:(set_solver)) as [v Hv].
  unfold bunch_get at 1. rewrite Hv. simpl. f_equal. apply IH.
  intros c' Hc'. apply Hall. set_solver.
Qed.

Section Gathering.

Context (H : Helpers).

Lemma enter_subdir_keeps basewd i cwd :
  sat (keeps (λ s, (self s, w_trace (proc s)))) (enter_subdir basewd i cwd).
Proof. unfold enter_subdir. keeps_auto. Qed.

Lemma assign_iterfields_keeps itervals i subdir :
  sat (keeps (λ s, (_result (self s), disk_based (self s), w_trace (proc s))))
      (assign_iterfields H itervals i subdir).
Proof.
  unfold assign_iterfields. keeps_auto.
  all: apply keeps_call_copyfiles; done.
Qed.

Lemma assign_fields_values (itervals : gmap string (list pyval)) i subdir fields :
  let body := λ field : string,
    match (itervals !!! field) !! i with
    | None => raise IndexError
    | Some v =>
      let* n := get_self in
      let* newfile :=
        if disk_based n then
          let* copied := call_copyfiles H v (VList [VStr subdir]) false in
          ret (list_to_filename H copied)
        else ret v in
      modify_self (set_input field newfile)
    end in
  ∀ s s', for_each fields body s = (Ok tt, s') →
    ∀ f, f ∈ fields → bunch_has (inputs (self s)) f = true →
      ∃ v, (itervals !!! f) !! i = Some v ∧
           assigned H (disk_based (self s)) subdir v (bunch_get (inputs (self s')) f).
Proof.
  intros body. induction fields as [|g fields IH]; intros s s' Hrun f Hf Hhas.
  - inversion Hf.
  - simpl in Hrun. apply bind_Ok in Hrun as ([] & s1 & Hg & Hrest).
    pose proof (assign_fields_only H itervals i subdir fields s1) as [_ Hoff].
    fold body in Hoff. rewrite Hrest in Hoff. simpl in Hoff.
    assert (Hs1 : disk_based (self s1) = disk_based (self s) ∧
                  dom (inputs (self s1)) = dom (inputs (self s)) ∧
                  ∃ v, (itervals !!! g) !! i = Some v ∧
                       (bunch_has (inputs (self s)) g = true →
                        assigned H (disk_based (self s)) subdir v
                          (bunch_get (inputs (self s1)) g))).
    { unfold body in Hg. destruct ((itervals !!! g) !! i) as [v|]; [|discriminate].
      destruct s as [n w]. unfold bind, get_self in Hg. simpl in Hg.
      unfold assigned. simpl. destruct (disk_based n) eqn:Hdb.
      - unfold call_copyfiles, bind, get_proc in Hg. simpl in Hg.
        destruct (copyfiles H v _ false (w_fs w)) as [copied fs'] eqn:Hc.
        simpl in Hg. injection Hg as <-. simpl.
        destruct (set_input_config g (list_to_filename H copied) n) as (_ & _ & -> & _).
        destruct (set_input_agree [g] g (list_to_filename H copied) n ltac:(set_solver))
          as [-> _].
        repeat split; [done|]. exists v. split; [done|]. intros Hh.
        exists (w_fs w). rewrite Hc. simpl. unfold bunch_get.
        by rewrite set_input_lookup.
      - injection Hg as <-. simpl.
        destruct (set_input_config g v n) as (_ & _ & -> & _).
        destruct (set_input_agree [g] g v n ltac:(set_solver)) as [-> _].
        repeat split; [done|]. exists v. split; [done|]. intros Hh.
        unfold bunch_get. by rewrite set_input_lookup. }
    destruct Hs1 as (Hdb & Hdom & v & Hv & Hval).
    destruct (decide (f ∈ fields)) as [Hin|Hnin].
    + rewrite <- Hdb. apply (IH s1 s' Hrest f Hin).
      apply bunch_has_spec. rewrite Hdom. by apply bunch_has_spec.
    + assert (f = g) as -> by set_solver.
      exists v. split; [done|].
      destruct Hoff as [_ Hk]. unfold bunch_get. rewrite Hk by done.
      by apply Hval.
Qed.

Lemma invoke_Ok execute itervals i cwd s outs s' :
  invoke execute itervals i cwd s = (Ok outs, s') →
  ∃ ev, w_trace (proc s') = ev :: w_trace (proc s) ∧
        is_call ev ∧ call_outputs ev = outs ∧ call_inputs ev = inputs (self s) ∧
        outputs <$> _result (self s') = outputs <$> _result (self s).
Proof.
  destruct s as [n w]. unfold invoke. destruct execute.
  - unfold bind, call_run; simpl.
    destruct (if_run _ _ _ _ _) as [result fs']; simpl.
    destruct (negb _); simpl; [discriminate|].
    unfold update_result, bind, get_self; simpl.
    destruct (_result n) as [res|] eqn:Hres; simpl; [|discriminate].
    unfold record_call.
    destruct (interface res), (runtime res); simpl; try discriminate.
    intros [= <- <-]. simpl. eexists. repeat split; try reflexivity.
  - intros [= <- <-]. simpl. eexists. repeat split; try reflexivity.
Qed.

Lemma store_outputs_Ok i outs s s' :
  store_outputs i outs s = (Ok tt, s') →
  ∃ res, _result (self s) = Some res ∧
         _result (self s') =
           Some (mkResult (interface res) (runtime res)
                          (collect_outputs i outs (outputs res))) ∧
         proc s' = proc s.
Proof.
  destruct s as [n w]. unfold store_outputs, update_result, bind, get_self; simpl.
  destruct (_result n) as [res|]; simpl; [|discriminate].
  intros [= <-]. eauto.
Qed.

Lemma iterate_once_Ok execute basewd itervals i cwd s c' s' :
  iterate_once H execute basewd itervals i cwd s = (Ok c', s') →
  ∃ ev res res',
    w_trace (proc s') = ev :: w_trace (proc s) ∧ is_call ev ∧
    _result (self s) = Some res ∧ _result (self s') = Some res' ∧
    outputs res' = collect_outputs i (call_outputs ev) (outputs res) ∧
    ∀ f, f ∈ iterfield (self s) → bunch_has (inputs (self s)) f = true →
      ∃ v subdir, (itervals !!! f) !! i = Some v ∧
        assigned H (disk_based (self s)) subdir v (bunch_get (call_inputs ev) f).
Proof.
  unfold iterate_once. intros Hrun.
  apply bind_Ok in Hrun as ([c subdir] & s1 & Hent & Hrun).
  pose proof (enter_subdir_keeps basewd i cwd s) as K1. rewrite Hent in K1.
  unfold keeps in K1. simpl in K1. injection K1 as Hn1 Ht1.
  apply bind_Ok in Hrun as ([] & s2 & Hass & Hrun).
  pose proof (assign_iterfields_keeps itervals i subdir s1) as K2. rewrite Hass in K2.
  unfold keeps in K2. simpl in K2. injection K2 as Hr2 Hd2 Ht2.
  apply bind_Ok in Hrun as (outs & s3 & Hinv & Hrun).
  apply invoke_Ok in Hinv as (ev & Ht3 & Hcall & Hout & Hin & Hr3).
  apply bind_Ok in Hrun as ([] & s4 & Hst & Hret). injection Hret as _ <-.
  apply store_outputs_Ok in Hst as (res3 & Hres3 & Hres4 & Hp4).
  rewrite Hres3, Hr2, Hn1 in Hr3. simpl in Hr3.
  destruct (_result (self s)) as [res|] eqn:Hres; [|discriminate]. injection Hr3 as Hr3.
  exists ev, res. eexists. rewrite Hp4, Ht3, Ht2, Ht1.
  split; [done|]. split; [done|]. split; [done|]. split; [exact Hres4|]. split.
  - simpl. by rewrite Hout, Hr3.
  - intros f Hf Hhas. rewrite Hin.
    unfold assign_iterfields in Hass. apply bind_Ok in Hass as (n1 & s1' & Hg & Hass).
    injection Hg as <- <-. rewrite Hn1 in Hass.
    destruct (assign_fields_values itervals i subdir (iterfield (self s)) s1 s2 Hass f Hf)
      as (v & Hv & Has); [by rewrite Hn1|].
    exists v, subdir. split; [done|]. by rewrite <- Hn1.
Qed.

Lemma iterate_Ok execute basewd itervals vals :
  ∀ i cwd s c' s' calls0 res,
    iterate H execute basewd itervals i vals cwd s = (Ok c', s') →
    length calls0 = i →
    _result (self s) = Some res → gathers calls0 (outputs res) →
    ∃ calls res',
      w_trace (proc s') = reverse calls ++ w_trace (proc s) ∧
      length calls = length vals ∧ Forall is_call calls ∧
      _result (self s') = Some res' ∧ gathers (calls0 ++ calls) (outputs res') ∧
      ∀ j c f, calls !! j = Some c → f ∈ iterfield (self s) →
        bunch_has (inputs (self s)) f = true →
        ∃ v subdir, (itervals !!! f) !! (i + j)%nat = Some v ∧
          assigned H (disk_based (self s)) subdir v (bunch_get (call_inputs c) f).
Proof.
  induction vals as [|v0 vals IH]; intros i cwd s c' s' calls0 res Hrun Hlen Hres Hg.
  - injection Hrun as _ <-. exists [], res. rewrite app_nil_r.
    repeat split; auto. intros j c f Hj. inversion Hj.
  - simpl in Hrun. apply bind_Ok in Hrun as (c1 & s1 & Hone & Hrest).
    pose proof (iterfields_only_iterate_once H execute basewd itervals i cwd s) as [Hf1 [Hdom1 _]].
    assert (Hdb1 : disk_based (self s1) = disk_based (self s)).
    { destruct execute.
      - pose proof (exec_iterate_once H basewd itervals i cwd s) as [Hc _].
        rewrite Hone in Hc. apply Hc.
      - pose proof (emits_iterate_once_collect H basewd itervals i cwd s) as [Hc _].
        rewrite Hone in Hc. apply Hc. }
    rewrite Hone in Hf1, Hdom1. simpl in Hf1, Hdom1.
    apply iterate_once_Ok in Hone as (ev & res0 & res1 & Ht1 & Hcall & Hres0 & Hres1 & Hout & Hin).
    rewrite Hres in Hres0. injection Hres0 as <-.
    assert (Hg1 : gathers (calls0 ++ [ev]) (outputs res1)).
    { rewrite Hout, <- Hlen. by apply gathers_collect. }
    destruct (IH (S i) c1 s1 c' s' (calls0 ++ [ev]) res1 Hrest) as
      (calls & res' & Ht & Hl & Hcalls & Hres' & Hg' & Hin'); [|done|done|].
    { rewrite length_app. simpl. lia. }
    exists (ev :: calls), res'. simpl. rewrite reverse_cons, <- app_assoc. simpl.
    rewrite Ht, Ht1. repeat split; [lia|by constructor|done| |].
    + by rewrite <- app_assoc in Hg'.
    + intros [|j] c f Hj Hf Hhas; simpl in Hj.
      * injection Hj as <-. rewrite Nat.add_0_r. by apply Hin.
      * rewrite <- Hdb1. replace (i + S j)%nat with (S i + j)%nat by lia.
        apply (Hin' j c f Hj); [by rewrite Hf1|].
        apply bunch_has_spec. rewrite Hdom1. by apply bunch_has_spec.
Qed.

(** The steps of [_run_interface] on a node with iteration fields. *)
Lemma run_interface_iter_Ok execute cwd s s' field0 fields :
  iterfield (self s) = field0 :: fields →
  _run_interface H execute cwd s = (Ok tt, s') →
  ∃ s3 basewd c s4 s5,
    inputs (self s3) = inputs (self s) ∧ iterfield (self s3) = iterfield (self s) ∧
    disk_based (self s3) = disk_based (self s) ∧
    w_trace (proc s3) = w_trace (proc s) ∧
    let '(itervals, notlist) := coerce_iterfields (self s3) in
    iterate H execute basewd itervals 0 (itervals !!! field0) basewd
      (mkState (with_result (Some (mkResult (SList []) (SList []) ∅)) (self s3)) (proc s3))
      = (Ok c, s4) ∧
    restore_inputs (field0 :: fields) itervals notlist s4 = (Ok tt, s5) ∧
    self s' = self s5 ∧ w_trace (proc s') = w_trace (proc s5).
Proof.
  intros Hfields. unfold _run_interface. intros Hrun.
  apply bind_Ok in Hrun as (old_cwd & s1 & Hcwd & Hrun).
  injection Hcwd as <- <-.
  set (g := λ s : state, (inputs (self s), iterfield (self s), disk_based (self s),
                          w_trace (proc s))).
  apply bind_Ok in Hrun as ([] & s2 & Hch & Hrun).
  assert (Hs2 : g s2 = g s).
  { apply when_Ok in Hch as [[_ Hch]|[_ ->]]; [|done].
    destruct s. injection Hch as <-. done. }
  apply bind_Ok in Hrun as (n & s2' & Hn & Hrun). injection Hn as <- <-.
  apply bind_Ok in Hrun as (cwd' & s3 & Hdir & Hrun).
  assert (Hs3 : g s3 = g s).
  { rewrite <- Hs2. destruct (_ && _).
    - pose proof (keeps_output_directory H g ltac:(done) s2) as Hk.
      apply bind_Ok in Hdir as (d & s2a & Hd & Hdir). rewrite Hd in Hk.
      unfold keeps in Hk. simpl in Hk. rewrite <- Hk.
      apply bind_Ok in Hdir as ([] & s2b & Hc & Hdir).
      destruct s2a. injection Hc as <-. injection Hdir as _ <-. done.
    - injection Hdir as _ <-. done. }
  apply bind_Ok in Hrun as (n' & s3' & Hn & Hrun). injection Hn as <- <-.
  apply bind_Ok in Hrun as (cwd'' & s4 & Hbody & Hrun).
  injection Hs3 as Hi3 Hf3 Hd3 Ht3.
  rewrite Hf3, Hfields in Hbody.
  exists s3, cwd'.
  destruct (coerce_iterfields (self s3)) as [itervals notlist] eqn:Hco.
  apply bind_Ok in Hbody as ([] & s3a & Hm & Hbody). injection Hm as <-.
  apply bind_Ok in Hbody as (c & s3b & Hit & Hbody).
  apply bind_Ok in Hbody as ([] & s3c & Hre & Hret). injection Hret as _ <-.
  exists c, s3b, s3c.
  repeat split; try done.
  all: apply when_Ok in Hrun as [[_ Hch']|[_ ->]]; [|done];
    destruct s3c; injection Hch' as <-; done.
Qed.

End Gathering.

(** ** Outputs of an iteration *)

Lemma run_interface_iter_spec (H : Helpers) (execute : bool)
    (cwd : option string) (s s' : state) (field0 : string) (fields : list string) :
  iterfield (self s) = field0 :: fields →
  _run_interface H execute cwd s = (Ok tt, s') →
  let values := λ f, iter_values (bunch_get (inputs (self s)) f) in
  ∃ calls res,
    w_trace (proc s') = reverse calls ++ w_trace (proc s) ∧
    Forall is_call calls ∧
    length calls = length (values field0) ∧
    (∀ i c f, calls !! i = Some c → f ∈ iterfield (self s) →
       bunch_has (inputs (self s)) f = true →
       ∃ v subdir, values f !! i = Some v ∧
         assigned H (disk_based (self s)) subdir v (bunch_get (call_inputs c) f)) ∧
    _result (self s') = Some res ∧
    gathers calls (outputs res) ∧
    ∀ key, (∀ c, c ∈ calls → is_Some (call_outputs c !! key)) → calls ≠ [] →
      ∃ l, outputs res !! key = Some (VList l) ∧
           l = (λ c, bunch_get (call_outputs c) key) <$> calls ∧
           length l = length (values field0).
Proof.
  intros Hfields Hrun values.
  destruct (run_interface_iter_Ok H _ _ _ _ _ _ Hfields Hrun)
    as (s3 & basewd & c & s4 & s5 & Hi3 & Hf3 & Hd3 & Ht3 & Hsteps).
  destruct (coerce_iterfields (self s3)) as [itervals notlist] eqn:Hco.
  destruct Hsteps as (Hit & Hre & Hself & Htrace).
  assert (Hvals : ∀ f, f ∈ iterfield (self s) → itervals !!! f = values f).
  { intros f Hf. rewrite <- Hf3 in Hf.
    destruct (coerce_iterfields_spec (self s3) f Hf) as [Hv _].
    rewrite Hco in Hv. simpl in Hv. by rewrite Hv, Hi3. }
  destruct (iterate_Ok H _ _ _ _ _ _ _ _ _ [] _ Hit eq_refl eq_refl)
    as (calls & res & Ht & Hlen & Hcalls & Hres & Hg & Hin).
  { intros key. simpl. apply lookup_empty. }
  simpl in Ht, Hg, Hin.
  pose proof (restore_inputs_config (field0 :: fields) itervals notlist s4) as Hk.
  rewrite Hre in Hk. unfold keeps in Hk. simpl in Hk. injection Hk as Hr5 Hp5.
  exists calls, res.
  split; [by rewrite Htrace, Hp5, Ht, Ht3|].
  split; [done|].
  split; [by rewrite Hlen, Hvals by (rewrite Hfields; set_solver)|].
  split.
  { intros i c0 f Hc0 Hf Hhas.
    destruct (Hin i c0 f Hc0) as (v & subdir & Hv & Has).
    - by rewrite Hf3.
    - by rewrite Hi3.
    - exists v, subdir. rewrite <- Hvals, <- Hd3 by done. done. }
  split; [by rewrite Hself, Hr5|].
  split; [done|].
  intros key Hall Hne. eexists. split; [|split; [reflexivity|]].
  - rewrite (Hg key), (gathered_all key calls Hall).
    destruct calls; [done|reflexivity].
  - by rewrite length_fmap, Hlen, Hvals by (rewrite Hfields; set_solver).
Qed.

(** C4: when a run of the interface over iteration fields returns, one
    call was made for every value of the first iteration field, in index
    order, each with the iteration fields set to their values at that
    index.  Under every key the result holds the list of what the calls
    produced for it, in call order: the first call that produces a key
    creates the list and later calls append to it.  A key that every
    call produced thus holds one entry per iteration value, the i-th
    being the output of the i-th call. *)
Theorem iteration_outputs_in_order (H : Helpers) (execute : bool)
    (cwd : option string) (s s' : state) (field0 : string) (fields : list string) :
  iterfield (self s) = field0 :: fields →
  _run_interface H execute cwd s = (Ok tt, s') →
  let values := λ f, iter_values (bunch_get (inputs (self s)) f) in
  ∃ calls res,
    w_trace (proc s') = reverse calls ++ w_trace (proc s) ∧
    Forall is_call calls ∧
    length calls = length (values field0) ∧
    (∀ i c f, calls !! i = Some c → f ∈ iterfield (self s) →
       bunch_has (inputs (self s)) f = true →
       ∃ v subdir, values f !! i = Some v ∧
         assigned H (disk_based (self s)) subdir v (bunch_get (call_inputs c) f)) ∧
    _result (self s') = Some res ∧
    gathers calls (outputs res) ∧
    ∀ key, (∀ c, c ∈ calls → is_Some (call_outputs c !! key)) → calls ≠ [] →
      ∃ l, outputs res !! key = Some (VList l) ∧
           l = (λ c, bunch_get (call_outputs c) key) <$> calls ∧
           length l = length (values field0).
Proof. apply run_interface_iter_spec. Qed.


(** ** The working directory *)

Lemma string_app_nonempty (a b : string) : b ≠ "" → a +:+ b ≠ "".
Proof. destruct a; simpl; [done|discriminate]. Qed.

Lemma path_join_nonempty (a b : string) : b ≠ "" → path_join a b ≠ "".
Proof.
  intros Hb. unfold path_join. destruct (String.prefix "/" b); [done|].
  destruct (_ || _); apply string_app_nonempty; [done|].
  by apply string_app_nonempty.
Qed.

Lemma truthy_dir_Some d : d ≠ "" → truthy_dir (Some d) = true.
Proof.
  intros Hd. simpl. destruct (String.eqb_spec d ""); [done|reflexivity].
Qed.

Section WorkingDirectory.

Context (H : Helpers).

Lemma subdir_nonempty (b field : string) (i : nat) :
  path_join b (field +:+ "_" +:+ pretty i) ≠ "".
Proof. apply path_join_nonempty, string_app_nonempty. discriminate. Qed.

(** The local variable [cwd] stays true through the loop. *)
Lemma iterate_cwd_truthy execute basewd itervals vals :
  ∀ i cwd s c' s',
    iterate H execute basewd itervals i vals cwd s = (Ok c', s') →
    truthy_dir cwd = true → truthy_dir c' = true.
Proof.
  induction vals as [|v vals IH]; intros i cwd s c' s' Hrun Hcwd; simpl in Hrun.
  - by injection Hrun as <- _.
  - apply bind_Ok in Hrun as (c1 & s1 & Hone & Hrest).
    apply (IH _ _ _ _ _ Hrest).
    unfold iterate_once in Hone.
    apply bind_Ok in Hone as ([c subdir] & s0 & Hent & Hone).
    apply bind_Ok in Hone as ([] & s2 & _ & Hone).
    apply bind_Ok in Hone as (outs & s3 & _ & Hone).
    apply bind_Ok in Hone as ([] & s4 & _ & Hone). injection Hone as <- _.
    unfold enter_subdir in Hent.
    apply bind_Ok in Hent as (n & s0' & Hn & Hent). injection Hn as <- <-.
    destruct (disk_based (self s)); [|by injection Hent as <- _ _].
    destruct basewd as [b|]; [|discriminate].
    apply bind_Ok in Hent as (ex & sa & _ & Hent).
    apply bind_Ok in Hent as ([] & sb & _ & Hent).
    apply bind_Ok in Hent as ([] & sc & _ & Hent).
    injection Hent as <- _ _. apply truthy_dir_Some, subdir_nonempty.
Qed.

(** A run of the interface in a given directory that returns has put
    the process back into the directory it started from. *)
Lemma run_interface_restores_cwd execute d s s' :
  d ≠ "" →
  _run_interface H execute (Some d) s = (Ok tt, s') →
  w_cwd (proc s') = w_cwd (proc s).
Proof.
  intros Hd. unfold _run_interface. rewrite (truthy_dir_Some d Hd). simpl.
  intros Hrun.
  apply bind_Ok in Hrun as (old_cwd & s1 & Hcwd & Hrun). injection Hcwd as <- <-.
  apply bind_Ok in Hrun as ([] & s2 & _ & Hrun).
  apply bind_Ok in Hrun as (n & s2' & Hn & Hrun). injection Hn as <- <-.
  apply bind_Ok in Hrun as (cwd' & s3 & Hdir & Hrun). injection Hdir as <- <-.
  apply bind_Ok in Hrun as (n' & s3' & Hn & Hrun). injection Hn as <- <-.
  apply bind_Ok in Hrun as (cwd'' & s4 & Hbody & Hrun).
  assert (Htr : truthy_dir cwd'' = true).
  { destruct (iterfield (self s2)) as [|field0 fields].
    - apply bind_Ok in Hbody as ([] & s3a & _ & Hret). injection Hret as <- _.
      by apply truthy_dir_Some.
    - destruct (coerce_iterfields (self s2)) as [itervals notlist].
      apply bind_Ok in Hbody as ([] & s3a & _ & Hbody).
      apply bind_Ok in Hbody as (c & s3b & Hit & Hbody).
      apply bind_Ok in Hbody as ([] & s3c & _ & Hret). injection Hret as <- _.
      eapply iterate_cwd_truthy; [exact Hit|]. by apply truthy_dir_Some. }
  rewrite Htr in Hrun. simpl in Hrun. destruct s4. by injection Hrun as <-.
Qed.

End WorkingDirectory.

(** ** When an iteration goes through *)


Lemma bind_Ok_eq {A B} (m : M A) (k : A → M B) s a s1 :
  m s = (Ok a, s1) → bind m k s = k a s1.
Proof. intros Hm. unfold bind. by rewrite Hm. Qed.


Section Ready.

Context (H : Helpers).










Lemma keeps_shape_refl s : keeps_shape s s.
Proof. split; [done|]. intros k. by split. Qed.

Lemma keeps_shape_trans s s' s'' :
  keeps_shape s s' → keeps_shape s' s'' → keeps_shape s s''.
Proof.
  intros [Hf Hk] [Hf' Hk']. split; [congruence|]. intros k.
  destruct (Hk k) as [? ?], (Hk' k) as [? ?]. split; congruence.
Qed.


Lemma for_each_inv {A} (P : state → Prop) (R : state → state → Prop)
    (l : list A) (body : A → M unit) :
  (∀ s, R s s) → (∀ s s' s'', R s s' → R s' s'' → R s s'') →
  (∀ x s, P s → ∃ s', body x s = (Ok tt, s') ∧ R s s' ∧ P s') →
  ∀ s, P s → ∃ s', for_each l body s = (Ok tt, s') ∧ R s s' ∧ P s'.
Proof.
  intros Hrefl Htrans Hbody. induction l as [|x l IH]; intros s HP; simpl.
  - exists s. auto.
  - destruct (Hbody x s HP) as (s1 & Hx & HR & HP1).
    destruct (IH s1 HP1) as (s' & Hl & HR' & HP').
    exists s'. rewrite (bind_Ok_eq _ _ _ _ _ Hx). eauto.
Qed.

Lemma for_enumerate_inv {A} (P : state → Prop) (R : state → state → Prop)
    (l : list A) (body : nat → A → M unit) :
  (∀ s, R s s) → (∀ s s' s'', R s s' → R s' s'' → R s s'') →
  (∀ i x s, P s → ∃ s', body i x s = (Ok tt, s') ∧ R s s' ∧ P s') →
  ∀ i s, P s → ∃ s', for_enumerate i l body s = (Ok tt, s') ∧ R s s' ∧ P s'.
Proof.
  intros Hrefl Htrans Hbody. induction l as [|x l IH]; intros i s HP; simpl.
  - exists s. auto.
  - destruct (Hbody i x s HP) as (s1 & Hx & HR & HP1).
    destruct (IH (S i) s1 HP1) as (s' & Hl & HR' & HP').
    exists s'. rewrite (bind_Ok_eq _ _ _ _ _ Hx). eauto.
Qed.

Lemma set_inputs_attr_shape key v s :
  same_shape (bunch_get (inputs (self s)) key) v →
  keeps_shape s (mkState (with_inputs (<[key := v]> (inputs (self s))) (self s)) (proc s)).
Proof.
  intros Hs. split; [done|]. intros k. simpl. unfold bunch_get in *.
  destruct (decide (k = key)) as [->|Hne].
  - by rewrite lookup_insert_eq.
  - rewrite lookup_insert_ne by done. by split.
Qed.

(** Pointing the inputs at the files of an earlier execution never
    raises and keeps the shape of every input. *)
Lemma repoint_inputs_Ok outdir s :
  ∃ s', repoint_inputs H outdir s = (Ok tt, s') ∧ keeps_shape s s'.
Proof.
  unfold repoint_inputs. rewrite bind_unfold. simpl.
  destruct (get_input_info (_interface (self s))) as [infos|].
  2:{ exists s. split; [done|apply keeps_shape_refl]. }
  destruct (for_each_inv (λ _, True) keeps_shape infos
     (λ info,
      let* n := get_self in
      let files := bunch_get (inputs n) (key info) in
      when (truthy files)
        (let infiles := match files with VList l => l | _ => [files] end in
         for_enumerate 0 infiles (λ i f,
           let newfile := fname_presuffix H f outdir in
           let* ex := path_exists newfile in
           when (negb ex)
             (let* _ := call_copyfiles H f (VStr newfile) (copy info) in ret tt) ;;
           if is_list files then
             let* n := get_self in
             match bunch_get (inputs n) (key info) with
             | VList l => set_inputs_attr (key info) (VList (<[i := VStr newfile]> l))
             | _ => raise TypeError
             end
           else set_inputs_attr (key info) (VStr newfile))))
     keeps_shape_refl keeps_shape_trans) with s as (s' & Hrun & HR & _); [|done|eauto].
  clear s. intros info s _. rewrite bind_unfold. simpl.
  remember (bunch_get (inputs (self s)) (key info)) as files eqn:Hfiles.
  destruct (truthy files) eqn:Htr; simpl; [|exists s; auto using keeps_shape_refl].
  destruct (for_enumerate_inv
     (λ s', is_list (bunch_get (inputs (self s')) (key info)) = is_list files)
     keeps_shape
     (match files with VList l => l | _ => [files] end)
     (λ i f,
        let newfile := fname_presuffix H f outdir in
        let* ex := path_exists newfile in
        when (negb ex)
          (let* _ := call_copyfiles H f (VStr newfile) (copy info) in ret tt) ;;
        if is_list files then
          let* n := get_self in
          match bunch_get (inputs n) (key info) with
          | VList l => set_inputs_attr (key info) (VList (<[i := VStr newfile]> l))
          | _ => raise TypeError
          end
        else set_inputs_attr (key info) (VStr newfile))
     keeps_shape_refl keeps_shape_trans) with 0%nat s as (s' & Hrun & HR & _);
    [|by rewrite Hfiles|exists s'; auto].
  clear Htr Hfiles s. intros i f s HP.
  rewrite bind_unfold. simpl.
  set (newfile := fname_presuffix H f outdir).
  assert (∃ s1, when (negb (bool_decide (is_Some (w_fs (proc s) !! newfile))))
                  (let* _ := call_copyfiles H f (VStr newfile) (copy info) in ret tt) s
                = (Ok tt, s1) ∧ self s1 = self s) as (s1 & Hcp & Hn1).
  { destruct (negb _); simpl; [|by exists s].
    unfold call_copyfiles, bind, get_proc; simpl.
    destruct (copyfiles H f _ _ _); simpl. by eexists. }
  rewrite (bind_Ok_eq _ _ _ _ _ Hcp).
  assert (Hks1 : ∀ s2, keeps_shape s1 s2 → keeps_shape s s2).
  { intros s2 [Hf Hk]. split; by rewrite <- Hn1. }
  rewrite <- Hn1 in HP.
  destruct (is_list files) eqn:Hl.
  - rewrite bind_unfold. simpl.
    destruct (bunch_get (inputs (self s1)) (key info)) as [| | | | |l] eqn:Hcur;
      try discriminate.
    eexists. split; [reflexivity|]. split.
    + apply Hks1, set_inputs_attr_shape. rewrite Hcur.
      split; [done|]. simpl. by rewrite length_insert.
    + simpl. unfold bunch_get. by rewrite lookup_insert_eq.
  - eexists. split; [reflexivity|]. split.
    + apply Hks1, set_inputs_attr_shape.
      destruct (bunch_get (inputs (self s1)) (key info)); try discriminate; by split.
    + simpl. unfold bunch_get. by rewrite lookup_insert_eq.
Qed.

Lemma with_base_same n b :
  output_directory_base n = Some b → with_base (Some b) n = n.
Proof. destruct n. simpl. by intros ->. Qed.

(** What [hash_step] computes, and what it leaves alone. *)
Lemma hash_step_spec s :
  ∃ base fs1,
    (∀ b, output_directory_base (self s) = Some b → base = b) ∧
    (∀ p, is_Some (w_fs (proc s) !! p) → is_Some (fs1 !! p)) ∧
    let outdir := abspath H (w_cwd (proc s)) (path_join base (name (self s))) in
    let hashed := get_bunch_hash H (inputs (self s)) fs1 in
    hash_step H s =
      (Ok (outdir, hashed.1, hashed.2, hashfile_name outdir hashed.2),
       mkState (with_base (Some base) (self s))
               (mkWorld (w_cwd (proc s)) fs1 (w_locked (proc s)) (w_trace (proc s)))).
Proof.
  destruct s as [n w]. unfold hash_step, _output_directory, _make_output_dir.
  unfold bind, get_self, getcwd, get_proc, ret, path_exists, when; simpl.
  assert (Hmono : ∀ (fs : filesystem) d p, is_Some (fs !! p) → is_Some (<[d := Dir]> fs !! p)).
  { intros fs d p Hp. destruct (decide (d = p)) as [->|Hne].
    - rewrite lookup_insert_eq. eauto.
    - by rewrite lookup_insert_ne. }
  destruct (output_directory_base n) as [b|] eqn:Hb; simpl.
  - destruct (bool_decide _); simpl.
    + exists b, (w_fs w). split; [by intros ? [= ->]|]. split; [done|].
      destruct (get_bunch_hash H (inputs n) (w_fs w)). simpl.
      rewrite (with_base_same n b Hb). by destruct w.
    + exists b, (<[abspath H (w_cwd w) (path_join b (name n)) := Dir]> (w_fs w)).
      split; [by intros ? [= ->]|]. split; [apply Hmono|].
      simpl. destruct (get_bunch_hash H (inputs n) _). simpl.
      by rewrite (with_base_same n b Hb).
  - set (d := mkdtemp H (w_fs w)).
    destruct (bool_decide _); simpl.
    + exists d, (<[d := Dir]> (w_fs w)). split; [done|]. split; [apply Hmono|].
      simpl. by destruct (get_bunch_hash H (inputs n) _).
    + exists d, (<[abspath H (w_cwd w) (path_join d (name n)) := Dir]>
                   (<[d := Dir]> (w_fs w))).
      split; [done|]. split; [intros p Hp; apply Hmono, Hmono, Hp|].
      simpl. by destruct (get_bunch_hash H (inputs n) _).
Qed.

Lemma hash_step_Ok s :
  ∃ outdir hashed hv s1 base,
    hash_step H s = (Ok (outdir, hashed, hv, hashfile_name outdir hv), s1) ∧
    self s1 = with_base (Some base) (self s) ∧
    (∀ b, output_directory_base (self s) = Some b → base = b) ∧
    outdir = abspath H (w_cwd (proc s)) (path_join base (name (self s))) ∧
    w_cwd (proc s1) = w_cwd (proc s) ∧
    w_locked (proc s1) = w_locked (proc s) ∧
    w_trace (proc s1) = w_trace (proc s) ∧
    (∀ p, is_Some (w_fs (proc s) !! p) → is_Some (w_fs (proc s1) !! p)) ∧
    (hashed, hv) = get_bunch_hash H (inputs (self s)) (w_fs (proc s1)).
Proof.
  destruct (hash_step_spec s) as (base & fs1 & Hb & Hmono & Hstep).
  cbv zeta in Hstep. do 4 eexists. exists base.
  split; [exact Hstep|]. simpl. repeat split; try done.
  by destruct (get_bunch_hash H (inputs (self s)) fs1).
Qed.

(** The three ways through [run] on a disk based node. *)
Lemma run_update_path s outdir hashed hv hashfile s1 :
  disk_based (self s) = true →
  hash_step H s = (Ok (outdir, hashed, hv, hashfile), s1) →
  run H true s =
    (_save_hashfile H hashfile hashed ;;
     repoint_inputs H outdir ;;
     _run_interface H false (Some outdir) ;;
     let* n := get_self in ret (_result n)) s1.
Proof.
  intros Hdb Hstep. unfold run. rewrite bind_unfold. simpl. rewrite Hdb.
  rewrite bind_unfold, (bind_Ok_eq _ _ _ _ _ Hstep). simpl.
  unfold bind, path_exists, get_proc, ret. simpl.
  destruct (_save_hashfile H hashfile hashed s1) as [[[]|e] s2]; [|done].
  destruct (repoint_inputs H outdir s2) as [[[]|e] s3]; [|done].
  by destruct (_run_interface H false (Some outdir) s3) as [[[]|e] s4].
Qed.



End Ready.

(** ** Runs that only collect *)

Section Collecting.

Context (H : Helpers).

(** A run of the interface without iteration fields makes one call. *)
Lemma run_interface_once_Ok execute cwd s s' :
  iterfield (self s) = [] →
  _run_interface H execute cwd s = (Ok tt, s') →
  ∃ ev, w_trace (proc s') = ev :: w_trace (proc s) ∧
        call_inputs ev = inputs (self s) ∧
        if execute then
          ok_run ev ∧
          ∃ c result, ev = EvRun (inputs (self s)) c result ∧
            _result (self s') =
              Some (mkResult (SOne (run_interface result)) (SOne (run_runtime result))
                             (run_outputs result))
        else
          is_aggregate ev ∧
          _result (self s') = Some (mkResult SNone SNone (call_outputs ev)).
Proof.
  intros Hfields. unfold _run_interface. intros Hrun.
  apply bind_Ok in Hrun as (old_cwd & s1 & Hcwd & Hrun).
  injection Hcwd as <- <-.
  set (g := λ s : state, (inputs (self s), iterfield (self s), w_trace (proc s))).
  apply bind_Ok in Hrun as ([] & s2 & Hch & Hrun).
  assert (Hs2 : g s2 = g s).
  { apply when_Ok in Hch as [[_ Hch]|[_ ->]]; [|done].
    destruct s. injection Hch as <-. done. }
  apply bind_Ok in Hrun as (n & s2' & Hn & Hrun). injection Hn as <- <-.
  apply bind_Ok in Hrun as (cwd' & s3 & Hdir & Hrun).
  assert (Hs3 : g s3 = g s).
  { rewrite <- Hs2. destruct (_ && _).
    - pose proof (keeps_output_directory H g ltac:(done) s2) as Hk.
      apply bind_Ok in Hdir as (d & s2a & Hd & Hdir). rewrite Hd in Hk.
      unfold keeps in Hk. simpl in Hk. rewrite <- Hk.
      apply bind_Ok in Hdir as ([] & s2b & Hc & Hdir).
      destruct s2a. injection Hc as <-. injection Hdir as _ <-. done.
    - injection Hdir as _ <-. done. }
  apply bind_Ok in Hrun as (n' & s3' & Hn & Hrun). injection Hn as <- <-.
  apply bind_Ok in Hrun as (cwd'' & s4 & Hbody & Hrun).
  injection Hs3 as Hi3 Hf3 Ht3. rewrite Hf3, Hfields in Hbody.
  apply bind_Ok in Hbody as ([] & s3a & Hcall & Hret). injection Hret as _ <-.
  assert (Hfin : self s' = self s3a ∧ w_trace (proc s') = w_trace (proc s3a)).
  { apply when_Ok in Hrun as [[_ Hch']|[_ ->]]; [|done].
    destruct s3a. by injection Hch' as <-. }
  destruct Hfin as [-> ->]. rewrite <- Hi3, <- Ht3.
  destruct execute.
  - apply bind_Ok in Hcall as (result & s3b & Hc & Hrest).
    unfold call_run in Hc. destruct (if_run _ _ _ _ _) as [res fs'].
    injection Hc as <- <-.
    apply bind_Ok in Hrest as ([] & s3c & Hm & Hw). injection Hm as <-.
    destruct (Z.eqb_spec (returncode (run_runtime res)) 0) as [Hz|Hz]; [|discriminate].
    injection Hw as <-. simpl.
    eexists. split; [reflexivity|]. split; [reflexivity|]. split; [exact Hz|].
    by exists cwd', res.
  - apply bind_Ok in Hcall as (aggouts & s3b & Hc & Hrest).
    injection Hc as <- <-. injection Hrest as <-. simpl.
    eexists. split; [reflexivity|]. split; [reflexivity|]. done.
Qed.



End Collecting.


(** ** Running twice *)

Section Twice.

Context (H : Helpers).

Lemma stage_inputs_keeps_cwd outdir :
  sat (keeps (λ s, w_cwd (proc s))) (stage_inputs H outdir).
Proof.
  unfold stage_inputs, set_inputs_attr. keeps_auto.
  all: apply keeps_call_copyfiles; done.
Qed.










End Twice.


(** ** The check of the return code in [run] *)

Global Instance zero_kept_composable : Composable zero_kept.
Proof.
  split.
  - intros s r _ Hpre. exact Hpre.
  - intros s s' s'' r H1 H2 Hr Hpre. apply (H2 Hr). by apply H1.
Qed.

Lemma keeps_zero_kept s r s' :
  keeps (λ s, runtime <$> _result (self s)) s r s' → zero_kept s r s'.
Proof.
  unfold keeps, zero_kept. intros Hk _ Hpre res' Hres'.
  rewrite Hres' in Hk. simpl in Hk.
  destruct (_result (self s)) as [res|] eqn:Hres; [|discriminate].
  injection Hk as Hk. specialize (Hpre res eq_refl).
  unfold all_zero in *. by rewrite Hk.
Qed.

Section ReturnCodes.

Context (H : Helpers).

Lemma py_insert_Forall {A} (P : A → Prop) i x l :
  P x → Forall P l → Forall P (py_insert i x l).
Proof.
  intros Hx Hl. unfold py_insert. apply Forall_app. split.
  - by apply Forall_take.
  - constructor; [done|]. by apply Forall_drop.
Qed.

Lemma zero_kept_invoke itervals i cwd : sat zero_kept (invoke true itervals i cwd).
Proof.
  intros [n w]. unfold invoke, bind, call_run; simpl.
  destruct (if_run _ _ _ _ _) as [result fs']; simpl.
  destruct (Z.eqb_spec (returncode (run_runtime result)) 0) as [Hz|Hz]; simpl;
    [|by intros [=]].
  unfold update_result, bind, get_self; simpl.
  destruct (_result n) as [res|] eqn:Hres; simpl; [|by intros [=]].
  unfold record_call.
  destruct (interface res) as [| |itfs] eqn:Hi; simpl; try (by intros [=]).
  destruct (runtime res) as [| |rts] eqn:Hr; simpl; try (by intros [=]).
  intros _ Hpre res' [= <-]. unfold all_zero. simpl.
  specialize (Hpre res Hres). unfold all_zero in Hpre. rewrite Hr in Hpre.
  by apply py_insert_Forall.
Qed.

Lemma zero_kept_iterate_once basewd itervals i cwd :
  sat zero_kept (iterate_once H true basewd itervals i cwd).
Proof.
  unfold iterate_once.
  apply sat_bind; [exact _| |intros [c subdir]].
  { apply (sat_weaken _ _ _ keeps_zero_kept). unfold enter_subdir. keeps_auto. }
  apply sat_bind; [exact _| |intros _].
  { apply (sat_weaken _ _ _ keeps_zero_kept). unfold assign_iterfields. keeps_auto.
    all: apply keeps_call_copyfiles; done. }
  apply sat_bind; [exact _|apply zero_kept_invoke|intros outs].
  apply sat_bind; [exact _| |intros _; apply sat_ret; exact _].
  apply (sat_weaken _ _ _ keeps_zero_kept).
  intros [n w]. unfold keeps, store_outputs, update_result, bind, get_self; simpl.
  destruct (_result n) as [res|] eqn:Hres; simpl; by rewrite ?Hres.
Qed.

Lemma zero_kept_iterate basewd itervals vals i cwd :
  sat zero_kept (iterate H true basewd itervals i vals cwd).
Proof.
  revert i cwd. induction vals as [|v vals IH]; intros i cwd; simpl.
  - apply sat_ret; exact _.
  - apply sat_bind; [exact _|apply zero_kept_iterate_once|intros; apply IH].
Qed.

Lemma combined_returncode_zero res :
  all_zero res → combined_returncode res = Ok 0%Z.
Proof.
  unfold combined_returncode, all_zero.
  destruct (runtime res) as [|r|rts]; [done|by intros ->|].
  intros Hz. f_equal. induction Hz as [|r rts Hr _ IH]; [done|].
  simpl. rewrite Hr. exact IH.
Qed.

(** When the run of the interface returns to [run], the combined
    return code is 0: [run] goes on to save the hash file, and the
    branch that builds [could_not_run] is not taken. *)
Lemma executed_returncode_zero cwd s s' :
  _run_interface H true cwd s = (Ok tt, s') →
  ∃ res, _result (self s') = Some res ∧ combined_returncode res = Ok 0%Z.
Proof.
  intros Hrun. destruct (iterfield (self s)) as [|field0 fields] eqn:Hfields.
  - destruct (run_interface_once_Ok H _ _ _ _ Hfields Hrun)
      as (ev & _ & _ & Hok & c & result & -> & Hres).
    eexists. split; [exact Hres|]. simpl in Hok.
    unfold combined_returncode. simpl. by rewrite Hok.
  - destruct (run_interface_iter_Ok H _ _ _ _ _ _ Hfields Hrun)
      as (s3 & basewd & c & s4 & s5 & _ & _ & _ & _ & Hsteps).
    destruct (coerce_iterfields (self s3)) as [itervals notlist].
    destruct Hsteps as (Hit & Hre & Hself & _).
    pose proof (zero_kept_iterate basewd itervals (itervals !!! field0) 0 basewd
                  (mkState (with_result (Some (mkResult (SList []) (SList []) ∅)) (self s3))
                           (proc s3))) as Hz.
    rewrite Hit in Hz. simpl in Hz.
    pose proof (restore_inputs_config (field0 :: fields) itervals notlist s4) as Hk.
    rewrite Hre in Hk. unfold keeps in Hk. simpl in Hk. injection Hk as Hr5 _.
    destruct (iterate_Ok H _ _ _ _ _ _ _ _ _ [] _ Hit eq_refl eq_refl)
      as (calls & res & _ & _ & _ & Hres & _).
    { intros key. simpl. apply lookup_empty. }
    exists res. split; [by rewrite Hself, Hr5|].
    apply combined_returncode_zero, Hz; [done| |done].
    intros res0 [= <-]. unfold all_zero. simpl. constructor.
Qed.

End ReturnCodes.

(** ** The node on concrete inputs *)

Lemma demo_abspath_nonempty c p : abspath Demo.helpers c p ≠ "".
Proof.
  change (abspath Demo.helpers c p)
    with (if String.prefix "/" p then p else c +:+ "/" +:+ p).
  destruct (String.prefix "/" p) eqn:Hp.
  - by destruct p.
  - apply string_app_nonempty. discriminate.
Qed.


Lemma failed_call_aborts_run_witness :
  let n := Demo.node_of Demo.stamper ["infile"] true (Some "/wf")
             {[ "infile" := VList [VStr "/data/a.nii"; VStr "/data/missing.nii";
                                   VStr "/data/b.nii"] ]} in
  let s := mkState n Demo.world0 in
  let res := (run Demo.helpers false s).1 in
  let s' := (run Demo.helpers false s).2 in
  res = Raise (RuntimeError "no such file: /wf/N/infile_1/missing.nii") ∧
  ∃ new, w_trace (proc s') = new ++ w_trace (proc s) ∧
    ∀ b c result,
      EvRun b c result ∈ new → returncode (run_runtime result) ≠ 0%Z →
      res = Raise (RuntimeError (stderr (run_runtime result))) ∧
      ∃ earlier, new = EvRun b c result :: earlier ∧ Forall ok_run earlier.
Proof.
  intros n s res s'. split; [vm_compute; reflexivity|].
  apply (failed_call_aborts_run Demo.helpers false s s' res).
  apply surjective_pairing.
Defined.

Lemma iteration_outputs_in_order_witness :
  let n := Demo.node_of Demo.doubler ["x"] false None
             {[ "x" := VList [VInt 3; VInt 4; VInt 5] ]} in
  let s := mkState n Demo.world0 in
  let s' := (_run_interface Demo.helpers true None s).2 in
  ∃ calls res,
    w_trace (proc s') = reverse calls ++ w_trace (proc s) ∧
    length calls = 3%nat ∧
    _result (self s') = Some res ∧
    gathers calls (outputs res) ∧
    outputs res !! "y" = Some (VList [VInt 6; VInt 8; VInt 10]).
Proof.
  intros n s s'.
  destruct (iteration_outputs_in_order Demo.helpers true None s s' "x" [])
    as (calls & res & Ht & _ & Hlen & _ & Hres & Hg & _).
  - reflexivity.
  - vm_compute. reflexivity.
  - exists calls, res. repeat split; try done.
    vm_compute in Hres. injection Hres as <-. vm_compute. reflexivity.
Defined.




(** ** Where the code falls short *)

(** C5: a run of the interface whose adapter fails raises with the
    process left in the directory of the node; the directory the
    process was in before is not restored. *)
Theorem failed_run_interface_leaves_cwd :
  let n := Demo.node_of Demo.doubler [] true (Some "/wf") {[ "x" := VInt (-1) ]} in
  let s := mkState n Demo.world0 in
  let out := _run_interface Demo.helpers true (Some "/wf/N") s in
  out.1 = Raise (RuntimeError "negative input") ∧
  w_cwd (proc s) = "/home" ∧
  w_cwd (proc out.2) = "/wf/N".
Proof. vm_compute. repeat split. Qed.

(** C3: the error that [run] raises for a failed adapter is the
    [RuntimeError] of [_run_interface], which carries the error output
    only; the message with the name of the node and its inputs is never
    built. *)
Theorem failed_run_raises_stderr_only :
  let n := Demo.node_of Demo.doubler [] true (Some "/wf") {[ "x" := VInt (-1) ]} in
  let s := mkState n Demo.world0 in
  (run Demo.helpers false s).1 = Raise (RuntimeError "negative input") ∧
  _result (self (run Demo.helpers false s).2) =
    Some (mkResult (SOne "Doubler") (SOne (mkRuntime 1 "negative input")) ∅) ∧
  could_not_run Demo.helpers n
    (mkResult (SOne "Doubler") (SOne (mkRuntime 1 "negative input")) ∅) =
    StandardError ("Could not run N" +:+ newline +:+ "with inputs:" +:+ newline +:+
                   "x=-1;" +:+ newline +:+ tab +:+ "stderr: negative input").
Proof. vm_compute. repeat split. Qed.

(** * Further properties of the node *)

(** ** Nodes that are not disk based *)

Global Instance stays_put_composable : Composable stays_put.
Proof.
  split.
  - intros s r Hdb. auto.
  - intros s s' s'' r H1 H2 Hdb.
    destruct (H1 Hdb) as (Hdb' & Hc & Hb).
    destruct (H2 Hdb') as (Hdb'' & Hc' & Hb').
    split; [done|]. split; congruence.
Qed.

Lemma stays_put_modify_self (f : NodeWrapper → NodeWrapper) :
  (∀ n, disk_based (f n) = disk_based n ∧
        output_directory_base (f n) = output_directory_base n) →
  sat stays_put (modify_self f).
Proof. intros Hf [n w] Hdb. simpl in *. destruct (Hf n) as [-> ->]. auto. Qed.

Lemma stays_put_modify_proc (f : world → world) :
  (∀ w, w_cwd (f w) = w_cwd w) → sat stays_put (modify_proc f).
Proof. intros Hf [n w] Hdb. simpl in *. rewrite Hf. auto. Qed.

Lemma set_input_base field v n :
  disk_based (set_input field v n) = disk_based n ∧
  output_directory_base (set_input field v n) = output_directory_base n.
Proof. unfold set_input. by destruct (bunch_has _ _). Qed.

Ltac stays_auto :=
  repeat first
    [ sat_step
    | apply stays_put_modify_self; intros; simpl; auto using set_input_base
    | apply stays_put_modify_proc; intros; reflexivity ].

Section NoDisk.

Context (H : Helpers).

Lemma stays_put_call_copyfiles files dest copy :
  sat stays_put (call_copyfiles H files dest copy).
Proof.
  intros [n w] Hdb. unfold call_copyfiles, bind, get_proc; simpl.
  destruct (copyfiles H files dest copy (w_fs w)). simpl. auto.
Qed.

Lemma stays_put_enter_subdir basewd i cwd :
  sat stays_put (enter_subdir basewd i cwd).
Proof.
  intros [n w] Hdb. simpl in Hdb. unfold enter_subdir, bind, get_self; simpl.
  rewrite Hdb. simpl. auto.
Qed.

Lemma stays_put_call_run cwd : sat stays_put (call_run cwd).
Proof.
  intros [n w] Hdb. unfold call_run. simpl.
  destruct (if_run _ _ _ _ _). simpl. auto.
Qed.

Lemma stays_put_iterate_once execute basewd itervals i cwd :
  sat stays_put (iterate_once H execute basewd itervals i cwd).
Proof.
  unfold iterate_once.
  apply sat_bind; [exact _|apply stays_put_enter_subdir|intros [c subdir]].
  apply sat_bind; [exact _| |intros _].
  { unfold assign_iterfields. stays_auto. all: apply stays_put_call_copyfiles. }
  apply sat_bind; [exact _| |intros outs].
  { unfold invoke. destruct execute.
    - apply sat_bind; [exact _|apply stays_put_call_run|intros result].
      unfold update_result. stays_auto.
    - intros [n w] Hdb. simpl. auto. }
  unfold store_outputs, update_result. stays_auto.
Qed.

Lemma stays_put_iterate execute basewd itervals vals i cwd :
  sat stays_put (iterate H execute basewd itervals i vals cwd).
Proof.
  revert i cwd. induction vals as [|v vals IH]; intros i cwd; simpl.
  - apply sat_ret; exact _.
  - apply sat_bind; [exact _|apply stays_put_iterate_once|intros; apply IH].
Qed.

Lemma stays_put_restore_inputs fields itervals notlist :
  sat stays_put (restore_inputs fields itervals notlist).
Proof.
  revert itervals. induction fields as [|f fields IH]; intros itervals; simpl.
  - stays_auto.
  - destruct (notlist !!! f).
    + destruct (py_pop (itervals !!! f)) as [[v rest]|]; [|stays_auto].
      apply sat_bind; [exact _|stays_auto|intros; apply IH].
    + apply sat_bind; [exact _|stays_auto|intros; apply IH].
Qed.

Lemma restoring_cwd_last (body : M (option string)) s :
  sat stays_put body →
  stays_put s
    (failure (bind body (λ c, when (truthy_dir c) (chdir (w_cwd (proc s)))) s).1)
    (bind body (λ c, when (truthy_dir c) (chdir (w_cwd (proc s)))) s).2.
Proof.
  intros Hb Hdb. specialize (Hb s Hdb). unfold bind.
  destruct (body s) as [[c|e] s1]; simpl in *; [|done].
  destruct (truthy_dir c); simpl; [|done].
  destruct Hb as (? & ? & ?). auto.
Qed.

(** Without a directory argument, a node that is not disk based runs
    the interface where the process is. *)
Lemma stays_put_run_interface execute cwd :
  truthy_dir cwd = false → sat stays_put (_run_interface H execute cwd).
Proof.
  intros Hcwd s Hdb. unfold _run_interface.
  rewrite bind_unfold. simpl. rewrite Hcwd. simpl.
  rewrite bind_unfold. simpl. rewrite bind_unfold. simpl. rewrite Hdb. simpl.
  rewrite bind_unfold. simpl. rewrite bind_unfold. simpl.
  apply restoring_cwd_last; [|done].
  destruct (iterfield (self s)) as [|field0 fields].
  - destruct execute.
    + apply sat_bind; [exact _| |intros; stays_auto].
      apply sat_bind; [exact _|apply stays_put_call_run|intros; stays_auto].
    + apply sat_bind; [exact _| |intros; stays_auto].
      apply sat_bind; [exact _| |intros; stays_auto].
      intros [n w] Hd. simpl. auto.
  - destruct (coerce_iterfields (self s)) as [itervals notlist].
    apply sat_bind; [exact _|stays_auto|intros _].
    apply sat_bind; [exact _|apply stays_put_iterate|intros c].
    apply sat_bind; [exact _|apply stays_put_restore_inputs|intros; stays_auto].
Qed.

End NoDisk.

(** A run of a node that is not disk based stays where it is. *)
Lemma stays_put_run (H : Helpers) (updatehash : bool) : sat stays_put (run H updatehash).
Proof.
  intros s Hdb.
  assert (Hsame : run H updatehash s =
            (_run_interface H true None ;; let* n := get_self in ret (_result n)) s).
  { unfold run. rewrite bind_unfold. simpl. by rewrite Hdb. }
  rewrite Hsame.
  assert (Hput : sat stays_put
            (_run_interface H true None ;; let* n := get_self in ret (_result n))).
  { apply sat_bind; [exact _|by apply stays_put_run_interface|intros; stays_auto]. }
  by apply Hput.
Qed.

(** X1: on a node that is not disk based, [run] goes straight to
    [_run_interface(execute=True)]: the [updatehash] flag makes no
    difference, the process never leaves its working directory
    (whether the run returns or raises), no base directory is
    allocated, and everything the run does outside the node is calling
    [run] on the adapter: no hash file, no [aggregate_outputs]. *)
Theorem run_without_disk_stays_put (H : Helpers) (updatehash : bool)
    (s s' : state) (res : outcome (option InterfaceResult)) :
  disk_based (self s) = false →
  run H updatehash s = (res, s') →
  run H (negb updatehash) s = (res, s') ∧
  w_cwd (proc s') = w_cwd (proc s) ∧
  output_directory_base (self s') = output_directory_base (self s) ∧
  ∃ new, w_trace (proc s') = new ++ w_trace (proc s) ∧
         Forall (λ e, is_run e = true) new.
Proof.
  intros Hdb Hrun.
  assert (Hsame : ∀ u, run H u s =
            (_run_interface H true None ;; let* n := get_self in ret (_result n)) s).
  { intros u. unfold run. rewrite bind_unfold. simpl. by rewrite Hdb. }
  split; [by rewrite Hsame, <- (Hsame updatehash)|].
  pose proof (stays_put_run H updatehash s Hdb) as Hput.
  rewrite Hrun in Hput. simpl in Hput.
  destruct Hput as (_ & Hc & Hb). split; [done|]. split; [done|].
  rewrite Hsame in Hrun.
  pose proof (exec_run_interface H None s) as [_ (new & Ht & Hshape)].
  rewrite bind_unfold in Hrun.
  destruct (_run_interface H true None s) as [[[]|e] s1]; simpl in *.
  all: injection Hrun as <- <-; exists new; (split; [done|]).
  all: destruct Hshape as [Hok|(b & c & result & rest & -> & _ & _ & Hok)].
  all: try constructor; try done.
  all: eapply Forall_impl; [exact Hok|]; by intros [].
Qed.

Lemma run_without_disk_stays_put_witness :
  let n := Demo.node_of Demo.doubler [] false None {[ "x" := VInt 3 ]} in
  let s := mkState n Demo.world0 in
  let out := run Demo.helpers true s in
  disk_based n = false ∧
  run Demo.helpers false s = (out.1, out.2) ∧
  w_cwd (proc out.2) = w_cwd (proc s) ∧
  output_directory_base (self out.2) = output_directory_base (self s) ∧
  ∃ new, w_trace (proc out.2) = new ++ w_trace (proc s) ∧
         Forall (λ e, is_run e = true) new.
Proof.
  intros n s out. split; [reflexivity|].
  apply (run_without_disk_stays_put Demo.helpers true s out.2 out.1).
  - reflexivity.
  - apply surjective_pairing.
Defined.

(** ** Coming back to the working directory *)

Section Home.

Context (H : Helpers).

Lemma output_directory_abspath s d s1 :
  _output_directory H s = (Ok d, s1) → ∃ c p, d = abspath H c p.
Proof.
  destruct s as [n w]. unfold _output_directory, bind, get_self, getcwd, get_proc, ret; simpl.
  destruct (output_directory_base n); simpl; intros [= <- _]; eauto.
Qed.

Lemma run_interface_comes_home execute cwd s s' :
  (∀ c p, abspath H c p ≠ "") →
  _run_interface H execute cwd s = (Ok tt, s') →
  w_cwd (proc s') = w_cwd (proc s).
Proof.
  intros Habs Hrun.
  destruct (truthy_dir cwd) eqn:Hcwd.
  { destruct cwd as [d|]; [|discriminate].
    apply (run_interface_restores_cwd H execute d s s'); [|done].
    intros ->. discriminate. }
  destruct (disk_based (self s)) eqn:Hdb.
  2:{ pose proof (stays_put_run_interface H execute cwd Hcwd s Hdb) as Hput.
      rewrite Hrun in Hput. apply Hput. }
  unfold _run_interface in Hrun. rewrite Hcwd in Hrun. simpl in Hrun.
  apply bind_Ok in Hrun as (old_cwd & s1 & Hold & Hrun). injection Hold as <- <-.
  apply bind_Ok in Hrun as ([] & s2 & Hw & Hrun). injection Hw as <-.
  apply bind_Ok in Hrun as (n & s2' & Hn & Hrun). injection Hn as <- <-.
  rewrite Hdb in Hrun.
  apply bind_Ok in Hrun as (cwd' & s3 & Hdir & Hrun).
  apply bind_Ok in Hdir as (d & s2a & Hd & Hdir).
  apply output_directory_abspath in Hd as (c0 & p0 & ->).
  apply bind_Ok in Hdir as ([] & s2b & _ & Hdir). injection Hdir as <- <-.
  apply bind_Ok in Hrun as (n' & s3' & Hn & Hrun). injection Hn as <- <-.
  apply bind_Ok in Hrun as (cwd'' & s4 & Hbody & Hrun).
  assert (Htr : truthy_dir cwd'' = true).
  { destruct (iterfield (self s2b)) as [|field0 fields].
    - apply bind_Ok in Hbody as ([] & s3a & _ & Hret). injection Hret as <- _.
      by apply truthy_dir_Some.
    - destruct (coerce_iterfields (self s2b)) as [itervals notlist].
      apply bind_Ok in Hbody as ([] & s3a & _ & Hbody).
      apply bind_Ok in Hbody as (c & s3b & Hit & Hbody).
      apply bind_Ok in Hbody as ([] & s3c & _ & Hret). injection Hret as <- _.
      eapply iterate_cwd_truthy; [exact Hit|]. by apply truthy_dir_Some. }
  rewrite Htr in Hrun. simpl in Hrun. destruct s4. by injection Hrun as <-.
Qed.

End Home.

(** ** The ways through [run] *)

Section Paths.

Context (H : Helpers).

(** The executing and the skipping way through [run], by the test of
    line 177. *)
Lemma run_executes_when s outdir hashed hv hashfile s1 :
  disk_based (self s) = true →
  hash_step H s = (Ok (outdir, hashed, hv, hashfile), s1) →
  default false (overwrite (self s1))
    || negb (bool_decide (is_Some (w_fs (proc s1) !! hashfile))) = true →
  run H false s =
    (modify_proc (λ w, with_fs (cleandir H outdir (w_fs w)) w) ;;
     stage_inputs H outdir ;;
     _run_interface H true (Some outdir) ;;
     (let* n := get_self in
      match _result n with
      | None => raise AttributeError
      | Some res =>
        match combined_returncode res with
        | Raise e => raise e
        | Ok rc =>
          if (rc =? 0)%Z then _save_hashfile H hashfile hashed
          else raise (could_not_run H n res)
        end
      end) ;;
     let* n := get_self in ret (_result n)) s1.
Proof.
  intros Hdb Hstep Hex. unfold run. rewrite bind_unfold. simpl. rewrite Hdb.
  rewrite bind_unfold, (bind_Ok_eq _ _ _ _ _ Hstep). simpl.
  unfold bind at 1 2 3. unfold path_exists, get_proc, bind at 1 2, ret, when, get_self. simpl.
  rewrite Hex. simpl.
  unfold bind, get_self, ret, modify_proc.
  destruct (stage_inputs H outdir _) as [[[]|e] s3]; [|done].
  destruct (_run_interface H true (Some outdir) s3) as [[[]|e] s4]; [|done].
  destruct (_result (self s4)) as [res|]; [|done].
  destruct (combined_returncode res) as [rc|e]; [|done].
  destruct (rc =? 0)%Z; [|done].
  by destruct (_save_hashfile H hashfile hashed s4) as [[[]|e] s5].
Qed.

Lemma run_skips_when s outdir hashed hv hashfile s1 :
  disk_based (self s) = true →
  hash_step H s = (Ok (outdir, hashed, hv, hashfile), s1) →
  default false (overwrite (self s1))
    || negb (bool_decide (is_Some (w_fs (proc s1) !! hashfile))) = false →
  run H false s =
    (repoint_inputs H outdir ;;
     _run_interface H false (Some outdir) ;;
     let* n := get_self in ret (_result n)) s1.
Proof.
  intros Hdb Hstep Hex. unfold run. rewrite bind_unfold. simpl. rewrite Hdb.
  rewrite bind_unfold, (bind_Ok_eq _ _ _ _ _ Hstep). simpl.
  unfold bind at 1 2 3. unfold path_exists, get_proc, bind at 1 2, ret, when, get_self. simpl.
  rewrite Hex. simpl.
  unfold bind, get_self, ret.
  destruct (repoint_inputs H outdir s1) as [[[]|e] s3]; [|done].
  by destruct (_run_interface H false (Some outdir) s3) as [[[]|e] s4].
Qed.

Lemma repoint_inputs_keeps_cwd outdir :
  sat (keeps (λ s, w_cwd (proc s))) (repoint_inputs H outdir).
Proof.
  unfold repoint_inputs, set_inputs_attr. keeps_auto.
  all: apply keeps_call_copyfiles; done.
Qed.

Lemma outdir_nonempty s outdir hashed hv hashfile s1 :
  (∀ c p, abspath H c p ≠ "") →
  hash_step H s = (Ok (outdir, hashed, hv, hashfile), s1) → outdir ≠ "".
Proof.
  intros Habs Hstep.
  destruct (hash_step_Ok H s) as (o & h & v & t & base & Hs & _ & _ & -> & _).
  rewrite Hs in Hstep. injection Hstep as <- _ _ _ _. apply Habs.
Qed.

Ltac kept_by lem Hrun Hk :=
  match type of Hrun with
  | _ ?st = _ =>
    pose proof (lem st) as Hk; rewrite Hrun in Hk; unfold keeps in Hk; simpl in Hk
  end.

Lemma run_comes_home updatehash s r s' :
  (∀ c p, abspath H c p ≠ "") →
  run H updatehash s = (Ok r, s') →
  w_cwd (proc s') = w_cwd (proc s).
Proof.
  intros Habs Hrun.
  destruct (disk_based (self s)) eqn:Hdb.
  2:{ pose proof (stays_put_run H updatehash s Hdb) as Hput.
      rewrite Hrun in Hput. apply Hput. }
  destruct (hash_step_Ok H s) as (outdir & hashed & hv & s1 & base & Hstep & _ & _ &
                                  Hout & Hcwd1 & _).
  assert (Hne : outdir ≠ "") by (rewrite Hout; apply Habs).
  rewrite <- Hcwd1.
  destruct updatehash.
  - rewrite (run_update_path H _ _ _ _ _ _ Hdb Hstep) in Hrun.
    rewrite bind_unfold, save_hashfile_outcome in Hrun.
    apply bind_Ok in Hrun as ([] & s3 & Hrep & Hrun).
    kept_by (repoint_inputs_keeps_cwd outdir) Hrep Hk.
    apply bind_Ok in Hrun as ([] & s4 & Hri & Hret). injection Hret as _ <-.
    rewrite (run_interface_restores_cwd H _ _ _ _ Hne Hri), Hk.
    by destruct (bool_decide _).
  - destruct (default false (overwrite (self s1))
              || negb (bool_decide (is_Some (w_fs (proc s1) !! hashfile_name outdir hv))))
      eqn:Hex.
    + rewrite (run_executes_when _ _ _ _ _ _ Hdb Hstep Hex) in Hrun.
      apply bind_Ok in Hrun as ([] & sa & Hclean & Hrun). injection Hclean as <-.
      apply bind_Ok in Hrun as ([] & sb & Hstage & Hrun).
      kept_by (stage_inputs_keeps_cwd H outdir) Hstage Hk.
      apply bind_Ok in Hrun as ([] & sc & Hri & Hrun).
      apply bind_Ok in Hrun as ([] & sd & Hcheck & Hret). injection Hret as _ <-.
      apply bind_Ok in Hcheck as (n & sc' & Hn & Hcheck). injection Hn as <- <-.
      destruct (_result (self sc)) as [res|]; [|discriminate].
      destruct (combined_returncode res) as [rc|e]; [|discriminate].
      destruct (rc =? 0)%Z; [|discriminate].
      rewrite save_hashfile_outcome in Hcheck. injection Hcheck as <-. simpl.
      transitivity (w_cwd (proc sc)); [by destruct (bool_decide (_ ∈ _))|].
      by rewrite (run_interface_restores_cwd H _ _ _ _ Hne Hri), Hk.
    + rewrite (run_skips_when _ _ _ _ _ _ Hdb Hstep Hex) in Hrun.
      apply bind_Ok in Hrun as ([] & s3 & Hrep & Hrun).
      kept_by (repoint_inputs_keeps_cwd outdir) Hrep Hk.
      apply bind_Ok in Hrun as ([] & s4 & Hri & Hret). injection Hret as _ <-.
      by rewrite (run_interface_restores_cwd H _ _ _ _ Hne Hri), Hk.
Qed.

(** A run that executes and returns: successful calls of the adapter,
    then the hash file. *)
Lemma executing_run_Ok s outdir hashed hv hashfile s1 r s' :
  disk_based (self s) = true →
  hash_step H s = (Ok (outdir, hashed, hv, hashfile), s1) →
  default false (overwrite (self s1))
    || negb (bool_decide (is_Some (w_fs (proc s1) !! hashfile))) = true →
  run H false s = (Ok r, s') →
  ∃ calls res,
    w_trace (proc s') =
      (if bool_decide (hashfile ∈ w_locked (proc s))
       then [EvCritical hashfile] else save_events H hashfile hashed)
      ++ calls ++ w_trace (proc s) ∧
    Forall ok_run calls ∧
    (iterfield (self s) = [] → length calls = 1%nat) ∧
    r = Some res ∧ _result (self s') = Some res ∧
    (hashfile ∉ w_locked (proc s) →
     w_fs (proc s') !! hashfile = Some (File (saved_body H hashed))).
Proof.
  intros Hdb Hstep Hex Hrun.
  pose proof (quiet_hash_step H no_event s) as [Hc1 (new1 & Ht1 & Hnew1)].
  rewrite Hstep in Hc1, Ht1. simpl in Hc1, Ht1.
  destruct new1 as [|e new1]; [simpl in Ht1|by inversion Hnew1].
  rewrite (run_executes_when _ _ _ _ _ _ Hdb Hstep Hex) in Hrun.
  apply bind_Ok in Hrun as ([] & sa & Hclean & Hrun). injection Hclean as <-.
  apply bind_Ok in Hrun as ([] & sb & Hstage & Hrun).
  match type of Hstage with
  | _ ?st = _ => pose proof (quiet_stage_inputs H no_event outdir st) as [Hcb (newb & Htb & Hnewb)]
  end.
  rewrite Hstage in Hcb, Htb. simpl in Hcb, Htb.
  destruct newb as [|e newb]; [simpl in Htb|by inversion Hnewb].
  apply bind_Ok in Hrun as ([] & sc & Hri & Hrun).
  pose proof (exec_run_interface H (Some outdir) sb) as [Hcc (calls & Htc & Hshape)].
  rewrite Hri in Hcc, Htc, Hshape. simpl in Hcc, Htc, Hshape.
  destruct Hshape as [Hok|(? & ? & ? & ? & _ & _ & [=] & _)].
  apply bind_Ok in Hrun as ([] & sd & Hcheck & Hret). injection Hret as <- <-.
  apply bind_Ok in Hcheck as (n & sc' & Hn & Hcheck). injection Hn as <- <-.
  destruct (_result (self sc)) as [res|] eqn:Hres; [|discriminate].
  destruct (combined_returncode res) as [rc|e]; [|discriminate].
  destruct (rc =? 0)%Z; [|discriminate].
  rewrite save_hashfile_outcome in Hcheck. injection Hcheck as <-. simpl.
  assert (Hlc : w_locked (proc sc) = w_locked (proc s)).
  { rewrite (cfg_locked _ _ Hcc), (cfg_locked _ _ Hcb). simpl. apply (cfg_locked _ _ Hc1). }
  exists calls, res. rewrite Hlc, Hres.
  split; [|split; [done|split; [|split; [done|split; [done|]]]]].
  - destruct (bool_decide (_ ∈ _)); simpl; by rewrite Htc, Htb, Ht1.
  - intros Hf.
    assert (Hfb : iterfield (self sb) = []).
    { rewrite (cfg_iterfield _ _ Hcb). simpl. by rewrite (cfg_iterfield _ _ Hc1). }
    destruct (run_interface_once_Ok H _ _ _ _ Hfb Hri) as (ev & Hev & _).
    rewrite Hev in Htc. change (ev :: w_trace (proc sb)) with ([ev] ++ w_trace (proc sb)) in Htc.
    by apply app_inv_tail in Htc as <-.
  - intros Hl. rewrite bool_decide_eq_false_2 by done. simpl. apply lookup_insert_eq.
Qed.

End Paths.

(** X2: whenever [_run_interface] returns, and whenever [run]
    returns, the process is back in the working directory it was in
    when the call started, whatever directories were entered on the
    way ([abspath] never yields the empty string). *)
Theorem returning_calls_restore_cwd (H : Helpers) :
  (∀ c p, abspath H c p ≠ "") →
  (∀ execute cwd s s',
     _run_interface H execute cwd s = (Ok tt, s') →
     w_cwd (proc s') = w_cwd (proc s)) ∧
  (∀ updatehash s r s',
     run H updatehash s = (Ok r, s') →
     w_cwd (proc s') = w_cwd (proc s)).
Proof.
  intros Habs. split.
  - intros execute cwd s s'. by apply run_interface_comes_home.
  - intros updatehash s r s'. by apply run_comes_home.
Qed.

Lemma returning_calls_restore_cwd_witness :
  let n := Demo.node_of Demo.stamper ["infile"] true (Some "/wf")
             {[ "infile" := VList [VStr "/data/a.nii"; VStr "/data/b.nii"] ]} in
  let s := mkState n Demo.world0 in
  let out := run Demo.helpers false s in
  out.1 = Ok (Demo.returned out.1) ∧
  w_cwd (proc out.2) = w_cwd (proc s).
Proof.
  intros n s out.
  assert (Hok : out.1 = Ok (Demo.returned out.1)) by (vm_compute; reflexivity).
  split; [exact Hok|].
  destruct (returning_calls_restore_cwd Demo.helpers demo_abspath_nonempty) as [_ Hrun].
  apply (Hrun false s (Demo.returned out.1) out.2).
  rewrite <- Hok. apply surjective_pairing.
Defined.

(** X3: with [overwrite=True] a disk based [run] (not in update-hash
    mode) executes whether or not the hash file of the current inputs
    is already there.  When it returns, what it did is: successful
    calls of [run] on the adapter (exactly one without iteration
    fields), and after them the saving of the hash file (only a
    critical message when the file cannot be opened); it returns the
    result left on the node. *)
Theorem overwrite_forces_execution (H : Helpers) (s s' : state)
    (r : option InterfaceResult) :
  disk_based (self s) = true →
  overwrite (self s) = Some true →
  run H false s = (Ok r, s') →
  ∃ outdir hashed hashvalue hashfile s1 calls res,
    hash_step H s = (Ok (outdir, hashed, hashvalue, hashfile), s1) ∧
    w_trace (proc s') =
      (if bool_decide (hashfile ∈ w_locked (proc s))
       then [EvCritical hashfile] else save_events H hashfile hashed)
      ++ calls ++ w_trace (proc s) ∧
    Forall ok_run calls ∧
    (iterfield (self s) = [] → length calls = 1%nat) ∧
    r = Some res ∧ _result (self s') = Some res.
Proof.
  intros Hdb How Hrun.
  destruct (hash_step_Ok H s) as (outdir & hashed & hv & s1 & base & Hstep & Hself & _).
  exists outdir, hashed, hv, (hashfile_name outdir hv), s1.
  destruct (executing_run_Ok H s outdir hashed hv _ s1 r s' Hdb Hstep) as (calls & res & Hres);
    [|done|].
  { rewrite Hself. simpl. by rewrite How. }
  exists calls, res. split; [done|]. tauto.
Qed.

Lemma overwrite_forces_execution_witness :
  let n := Demo.node_with Demo.doubler [] true (Some "/wf") true {[ "x" := VInt 3 ]} in
  let s1 := (run Demo.helpers false (mkState n Demo.world0)).2 in
  let out := run Demo.helpers false s1 in
  is_Some (w_fs (proc s1) !! "/wf/N/_0xx=3;.json") ∧
  ∃ outdir hashed hashvalue hashfile t calls res,
    hash_step Demo.helpers s1 = (Ok (outdir, hashed, hashvalue, hashfile), t) ∧
    w_trace (proc out.2) =
      (if bool_decide (hashfile ∈ w_locked (proc s1))
       then [EvCritical hashfile] else save_events Demo.helpers hashfile hashed)
      ++ calls ++ w_trace (proc s1) ∧
    Forall ok_run calls ∧
    (iterfield (self s1) = [] → length calls = 1%nat) ∧
    Demo.returned out.1 = Some res ∧ _result (self out.2) = Some res.
Proof.
  intros n s1 out. split; [vm_compute; eauto|].
  apply (overwrite_forces_execution Demo.helpers s1 out.2 (Demo.returned out.1)).
  - vm_compute. reflexivity.
  - vm_compute. reflexivity.
  - vm_compute. reflexivity.
Defined.

(** ** What a failed call leaves behind *)

Lemma bind_Raise {A B} (m : M A) (k : A → M B) s e s' :
  bind m k s = (Raise e, s') →
  m s = (Raise e, s') ∨ ∃ a s1, m s = (Ok a, s1) ∧ k a s1 = (Raise e, s').
Proof. unfold bind. destruct (m s) as [[a|e0] s1]; [eauto|]. intros [= -> ->]. by left. Qed.

Section Failing.

Context (H : Helpers).

(** The steps of [_run_interface] before the interface is called:
    they settle the directory and never raise. *)
Lemma run_interface_split execute cwd s :
  ∃ cwd' s3,
    inputs (self s3) = inputs (self s) ∧
    iterfield (self s3) = iterfield (self s) ∧
    disk_based (self s3) = disk_based (self s) ∧
    _interface (self s3) = _interface (self s) ∧
    w_trace (proc s3) = w_trace (proc s) ∧
    (truthy_dir cwd = true → cwd' = cwd ∧ self s3 = self s) ∧
    (disk_based (self s) = true → is_Some cwd') ∧
    _run_interface H execute cwd s =
      (let* n := get_self in
       let* c :=
         match iterfield n with
         | field0 :: _ =>
           let '(itervals, notlist) := coerce_iterfields n in
           modify_self (with_result (Some (mkResult (SList []) (SList []) ∅))) ;;
           let* c := iterate H execute cwd' itervals 0 (itervals !!! field0) cwd' in
           restore_inputs (iterfield n) itervals notlist ;;
           ret c
         | [] =>
           (if execute then
              let* result := call_run cwd' in
              modify_self (with_result (Some
                (mkResult (SOne (run_interface result)) (SOne (run_runtime result))
                          (run_outputs result)))) ;;
              when (negb (returncode (run_runtime result) =? 0)%Z)
                (raise (RuntimeError (stderr (run_runtime result))))
            else
              let* aggouts := call_aggregate_outputs in
              modify_self (with_result (Some (mkResult SNone SNone aggouts)))) ;;
           ret cwd'
         end in
       when (truthy_dir c) (chdir (w_cwd (proc s)))) s3.
Proof.
  destruct s as [n w]. unfold _run_interface.
  rewrite bind_unfold. simpl.
  destruct (truthy_dir cwd) eqn:Hcwd; simpl.
  - rewrite bind_unfold. simpl. rewrite bind_unfold. simpl. rewrite bind_unfold. simpl.
    exists cwd, (mkState n (with_cwd (default "" cwd) w)).
    repeat split; try reflexivity. destruct cwd; [eauto|discriminate].
  - rewrite bind_unfold. simpl. rewrite bind_unfold. simpl.
    destruct (disk_based n) eqn:Hdb; simpl.
    + rewrite bind_unfold.
      unfold _output_directory at 1, bind at 1 2 3 4, get_self at 1, getcwd, get_proc, ret at 1; simpl.
      destruct (output_directory_base n) as [d|] eqn:Hb; simpl.
      * exists (Some (abspath H (w_cwd w) (path_join d (name n)))),
          (mkState n (with_cwd (abspath H (w_cwd w) (path_join d (name n))) w)).
        repeat split; try reflexivity; try discriminate; eauto.
      * set (t := mkdtemp H (w_fs w)).
        exists (Some (abspath H (w_cwd w) (path_join t (name n)))),
          (mkState (with_base (Some t) n)
             (with_cwd (abspath H (w_cwd w) (path_join t (name n)))
                (with_fs (<[t := Dir]> (w_fs w)) w))).
        repeat split; try reflexivity; try discriminate; eauto.
    + rewrite bind_unfold. simpl.
      exists cwd, (mkState n w). repeat split; try reflexivity; try discriminate; exact Hdb.
Qed.

(** Without iteration fields the only error is the failed call, and
    its result is kept on the node. *)
Lemma run_interface_once_Raise execute cwd s e s' :
  iterfield (self s) = [] →
  _run_interface H execute cwd s = (Raise e, s') →
  execute = true ∧
  ∃ c failed,
    w_trace (proc s') = EvRun (inputs (self s)) c failed :: w_trace (proc s) ∧
    returncode (run_runtime failed) ≠ 0 ∧
    e = RuntimeError (stderr (run_runtime failed)) ∧
    _result (self s') =
      Some (mkResult (SOne (run_interface failed)) (SOne (run_runtime failed))
                     (run_outputs failed)) ∧
    inputs (self s') = inputs (self s).
Proof.
  intros Hnil.
  destruct (run_interface_split execute cwd s)
    as (cwd' & [n3 w3] & Hi & Hf & _ & _ & Ht & _ & _ & ->).
  simpl in *. rewrite bind_unfold. simpl. rewrite Hf, Hnil.
  destruct execute.
  - unfold bind, call_run, modify_self, when; simpl.
    destruct (if_run _ _ _ _ _) as [failed fs'] eqn:Hr; simpl.
    destruct (Z.eqb_spec (returncode (run_runtime failed)) 0) as [Hz|Hz]; simpl.
    + destruct (truthy_dir cwd'); discriminate.
    + intros [= <- <-]. split; [done|]. exists cwd', failed. simpl.
      rewrite Hi, Ht. done.
  - unfold bind, call_aggregate_outputs, modify_self; simpl.
    destruct (truthy_dir cwd'); discriminate.
Qed.

Lemma for_each_Raise {A} (P : exn → Prop) (l : list A) (body : A → M unit) :
  (∀ x s e s', body x s = (Raise e, s') → P e) →
  ∀ s e s', for_each l body s = (Raise e, s') → P e.
Proof.
  intros Hb. induction l as [|x l IH]; intros s e s' Hrun; simpl in Hrun; [discriminate|].
  apply bind_Raise in Hrun as [Hrun|([] & s1 & _ & Hrun)]; eauto.
Qed.

Lemma enter_subdir_Raise basewd i cwd s e s' :
  enter_subdir basewd i cwd s = (Raise e, s') → e = AttributeError.
Proof.
  destruct s as [n w]. unfold enter_subdir, bind, get_self; simpl.
  destruct (disk_based n); [|discriminate].
  destruct basewd as [b|]; simpl; [|by intros [= <- _]].
  by destruct (bool_decide _).
Qed.

Lemma assign_iterfields_Raise itervals i subdir s e s' :
  assign_iterfields H itervals i subdir s = (Raise e, s') → e = IndexError.
Proof.
  unfold assign_iterfields. rewrite bind_unfold. simpl.
  apply (for_each_Raise (λ e, e = IndexError)). clear.
  intros f [n w] e s'. destruct ((itervals !!! f) !! i) as [v|]; [|by intros [= <- _]].
  unfold bind, get_self; simpl. destruct (disk_based n); simpl; [|discriminate].
  unfold call_copyfiles, bind, get_proc; simpl.
  by destruct (copyfiles H v _ false (w_fs w)).
Qed.

Lemma store_outputs_Raise i outs s e s' :
  store_outputs i outs s = (Raise e, s') → e = AttributeError.
Proof.
  destruct s as [n w]. unfold store_outputs, update_result, bind, get_self; simpl.
  destruct (_result n); simpl; [discriminate|by intros [= <- _]].
Qed.

Lemma restore_inputs_Raise fields :
  ∀ (itervals : gmap string (list pyval)) notlist s e s',
    restore_inputs fields itervals notlist s = (Raise e, s') → e = IndexError.
Proof.
  induction fields as [|f fields IH]; intros itervals notlist s e s'; simpl; [discriminate|].
  destruct (notlist !!! f).
  - destruct (py_pop _) as [[v rest]|]; [|by intros [= <- _]].
    intros Hrun. apply bind_Raise in Hrun as [Hrun|([] & s1 & _ & Hrun)]; [discriminate|eauto].
  - intros Hrun. apply bind_Raise in Hrun as [Hrun|([] & s1 & _ & Hrun)]; [discriminate|eauto].
Qed.

(** The one [RuntimeError] of a call in the loop: the call returned a
    nonzero status, and the iteration values were put on the node. *)
Lemma invoke_RuntimeError itervals i cwd s msg s' :
  invoke true itervals i cwd s = (Raise (RuntimeError msg), s') →
  ∃ failed,
    w_trace (proc s') = EvRun (inputs (self s)) cwd failed :: w_trace (proc s) ∧
    returncode (run_runtime failed) ≠ 0 ∧ msg = stderr (run_runtime failed) ∧
    self s' = with_itervals (Some itervals) (self s).
Proof.
  destruct s as [n w]. unfold invoke, bind, call_run; simpl.
  destruct (if_run _ _ _ _ _) as [failed fs']; simpl.
  destruct (Z.eqb_spec (returncode (run_runtime failed)) 0) as [Hz|Hz]; simpl.
  - unfold update_result, bind, get_self; simpl.
    destruct (_result n) as [res|]; simpl; [|discriminate].
    unfold record_call. destruct (interface res), (runtime res); simpl; discriminate.
  - intros [= <- <-]. exists failed. done.
Qed.

Lemma iterate_once_RuntimeError basewd itervals i cwd s msg s' :
  iterate_once H true basewd itervals i cwd s = (Raise (RuntimeError msg), s') →
  ∃ c failed s2,
    w_trace (proc s') = EvRun (inputs (self s2)) c failed :: w_trace (proc s) ∧
    returncode (run_runtime failed) ≠ 0 ∧ msg = stderr (run_runtime failed) ∧
    self s' = with_itervals (Some itervals) (self s2) ∧
    _result (self s2) = _result (self s) ∧
    ∀ f, f ∈ iterfield (self s) → bunch_has (inputs (self s)) f = true →
      ∃ v subdir, (itervals !!! f) !! i = Some v ∧
        assigned H (disk_based (self s)) subdir v (bunch_get (inputs (self s2)) f).
Proof.
  unfold iterate_once. intros Hrun.
  apply bind_Raise in Hrun as [Hrun|([c subdir] & s1 & Hent & Hrun)].
  { by apply enter_subdir_Raise in Hrun. }
  pose proof (enter_subdir_keeps basewd i cwd s) as K1. rewrite Hent in K1.
  unfold keeps in K1. simpl in K1. injection K1 as Hn1 Ht1.
  apply bind_Raise in Hrun as [Hrun|([] & s2 & Hass & Hrun)].
  { by apply assign_iterfields_Raise in Hrun. }
  pose proof (assign_iterfields_keeps H itervals i subdir s1) as K2. rewrite Hass in K2.
  unfold keeps in K2. simpl in K2. injection K2 as Hr2 Hd2 Ht2.
  apply bind_Raise in Hrun as [Hrun|(outs & s3 & _ & Hrun)].
  2:{ apply bind_Raise in Hrun as [Hrun|([] & s4 & _ & Hrun)]; [|discriminate].
      by apply store_outputs_Raise in Hrun. }
  apply invoke_RuntimeError in Hrun as (failed & Ht & Hrc & Hmsg & Hself).
  exists c, failed, s2. rewrite Ht, Ht2, Ht1, Hr2, Hn1.
  repeat split; try done.
  intros f Hf Hhas.
  unfold assign_iterfields in Hass. apply bind_Ok in Hass as (n1 & s1' & Hg & Hass).
  injection Hg as <- <-. rewrite Hn1 in Hass.
  destruct (assign_fields_values H itervals i subdir (iterfield (self s)) s1 s2 Hass f Hf)
    as (v & Hv & Has); [by rewrite Hn1|].
  exists v, subdir. split; [done|]. by rewrite <- Hn1.
Qed.

Lemma iterate_RuntimeError basewd itervals vals :
  ∀ i cwd s msg s' calls0 res,
    iterate H true basewd itervals i vals cwd s = (Raise (RuntimeError msg), s') →
    length calls0 = i →
    _result (self s) = Some res → gathers calls0 (outputs res) →
    ∃ made c failed s2 res',
      w_trace (proc s') =
        EvRun (inputs (self s2)) c failed :: reverse made ++ w_trace (proc s) ∧
      Forall ok_run made ∧
      returncode (run_runtime failed) ≠ 0 ∧ msg = stderr (run_runtime failed) ∧
      self s' = with_itervals (Some itervals) (self s2) ∧
      _result (self s2) = Some res' ∧ gathers (calls0 ++ made) (outputs res') ∧
      ∀ f, f ∈ iterfield (self s) → bunch_has (inputs (self s)) f = true →
        ∃ v subdir, (itervals !!! f) !! (i + length made)%nat = Some v ∧
          assigned H (disk_based (self s)) subdir v (bunch_get (inputs (self s2)) f).
Proof.
  induction vals as [|v0 vals IH]; intros i cwd s msg s' calls0 res Hrun Hlen Hres Hg;
    simpl in Hrun; [discriminate|].
  apply bind_Raise in Hrun as [Hrun|(c1 & s1 & Hone & Hrest)].
  - apply iterate_once_RuntimeError in Hrun as (c & failed & s2 & Ht & Hrc & Hmsg & Hself & Hr2 & Hin).
    exists [], c, failed, s2, res. simpl. rewrite app_nil_r, Nat.add_0_r, Hr2.
    repeat split; try done.
  - pose proof (iterfields_only_iterate_once H true basewd itervals i cwd s) as [Hf1 [Hdom1 _]].
    pose proof (exec_iterate_once H basewd itervals i cwd s) as [Hc (new & Htn & Hshape)].
    rewrite Hone in Hf1, Hdom1, Hc, Htn, Hshape. simpl in Hf1, Hdom1, Hc, Htn, Hshape.
    destruct Hshape as [Hok|(? & ? & ? & ? & _ & _ & [=] & _)].
    apply iterate_once_Ok in Hone as (ev & res0 & res1 & Ht1 & Hcall & Hres0 & Hres1 & Hout & _).
    rewrite Ht1 in Htn. change (ev :: w_trace (proc s)) with ([ev] ++ w_trace (proc s)) in Htn.
    apply app_inv_tail in Htn as <-. inversion_clear Hok as [|? ? Hev _].
    rewrite Hres in Hres0. injection Hres0 as <-.
    assert (Hg1 : gathers (calls0 ++ [ev]) (outputs res1)).
    { rewrite Hout, <- Hlen. by apply gathers_collect. }
    destruct (IH (S i) c1 s1 msg s' (calls0 ++ [ev]) res1 Hrest) as
      (made & c & failed & s2 & res' & Ht & Hdone & Hrc & Hmsg & Hself & Hr2 & Hg' & Hin');
      [|done|done|].
    { rewrite length_app. simpl. lia. }
    exists (ev :: made), c, failed, s2, res'. simpl.
    rewrite reverse_cons, <- app_assoc. simpl. rewrite Ht, Ht1.
    repeat split; try done.
    + by constructor.
    + by rewrite <- app_assoc in Hg'.
    + intros f Hf Hhas. rewrite <- (cfg_disk_based _ _ Hc).
      replace (i + S (length made))%nat with (S i + length made)%nat by lia.
      apply Hin'; [by rewrite Hf1|].
      apply bunch_has_spec. rewrite Hdom1. by apply bunch_has_spec.
Qed.

End Failing.

(** X4: when a call fails in the middle of an iteration, the
    [RuntimeError] leaves the node as the loop had it.  [_itervals]
    holds, for every iteration field, the list of values the iteration
    was running over; the inputs are not restored: they are the ones
    the failed call saw, each iteration field set to its value at the
    failing index; and the result holds the outputs gathered from the
    calls that succeeded before, nothing of the failed one. *)
Theorem failed_iteration_leaves_progress (H : Helpers) (cwd : option string)
    (s s' : state) (msg field0 : string) (fields : list string) :
  iterfield (self s) = field0 :: fields →
  _run_interface H true cwd s = (Raise (RuntimeError msg), s') →
  let values := λ f, iter_values (bunch_get (inputs (self s)) f) in
  ∃ itervals made c failed res,
    w_trace (proc s') =
      EvRun (inputs (self s')) c failed :: reverse made ++ w_trace (proc s) ∧
    Forall ok_run made ∧
    returncode (run_runtime failed) ≠ 0 ∧ msg = stderr (run_runtime failed) ∧
    _itervals (self s') = Some itervals ∧
    (∀ f, f ∈ iterfield (self s) → itervals !!! f = values f) ∧
    (∀ f, f ∈ iterfield (self s) → bunch_has (inputs (self s)) f = true →
       ∃ v subdir, values f !! length made = Some v ∧
         assigned H (disk_based (self s)) subdir v (bunch_get (inputs (self s')) f)) ∧
    _result (self s') = Some res ∧ gathers made (outputs res).
Proof.
  intros Hfields Hrun values.
  destruct (run_interface_split H true cwd s)
    as (cwd' & s3 & Hi3 & Hf3 & Hd3 & _ & Ht3 & _ & _ & Heq).
  rewrite Heq in Hrun. clear Heq.
  rewrite bind_unfold in Hrun. simpl in Hrun. rewrite Hf3, Hfields in Hrun.
  destruct (coerce_iterfields (self s3)) as [itervals notlist] eqn:Hco.
  assert (Hvals : ∀ f, f ∈ iterfield (self s) → itervals !!! f = values f).
  { intros f Hf. rewrite <- Hf3 in Hf.
    destruct (coerce_iterfields_spec (self s3) f Hf) as [Hv _].
    rewrite Hco in Hv. simpl in Hv. by rewrite Hv, Hi3. }
  apply bind_Raise in Hrun as [Hrun|(c & s4 & Hbody & Hrun)].
  2:{ by destruct (truthy_dir c). }
  apply bind_Raise in Hrun as [Hrun|([] & s3a & Hm & Hrun)]; [discriminate|].
  injection Hm as <-.
  apply bind_Raise in Hrun as [Hrun|(c & s4 & _ & Hrun)].
  2:{ apply bind_Raise in Hrun as [Hrun|([] & s5 & _ & Hrun)]; [|discriminate].
      by apply restore_inputs_Raise in Hrun. }
  destruct (iterate_RuntimeError H _ _ _ _ _ _ _ _ [] _ Hrun eq_refl eq_refl)
    as (made & c & failed & s2 & res & Ht & Hdone & Hrc & Hmsg & Hself & Hr2 & Hg & Hin).
  { intros key. simpl. apply lookup_empty. }
  simpl in Ht, Hg, Hin.
  exists itervals, made, c, failed, res. rewrite Hself. simpl.
  rewrite Ht, Ht3. repeat split; try done.
  intros f Hf Hhas.
  destruct (Hin f) as (v & subdir & Hv & Has); [by rewrite Hf3|by rewrite Hi3|].
  exists v, subdir. rewrite <- Hvals, <- Hd3 by done. done.
Qed.

Lemma failed_iteration_leaves_progress_witness :
  let n := Demo.node_of Demo.doubler ["x"] false None
             {[ "x" := VList [VInt 3; VInt (-1); VInt 5] ]} in
  let s := mkState n Demo.world0 in
  let out := _run_interface Demo.helpers true None s in
  let values := λ f, iter_values (bunch_get (inputs (self s)) f) in
  out.1 = Raise (RuntimeError "negative input") ∧
  bunch_get (inputs (self out.2)) "x" = VInt (-1) ∧
  ∃ itervals made c failed res,
    w_trace (proc out.2) =
      EvRun (inputs (self out.2)) c failed :: reverse made ++ w_trace (proc s) ∧
    Forall ok_run made ∧
    returncode (run_runtime failed) ≠ 0 ∧
    "negative input" = stderr (run_runtime failed) ∧
    _itervals (self out.2) = Some itervals ∧
    (∀ f, f ∈ iterfield (self s) → itervals !!! f = values f) ∧
    (∀ f, f ∈ iterfield (self s) → bunch_has (inputs (self s)) f = true →
       ∃ v subdir, values f !! length made = Some v ∧
         assigned Demo.helpers (disk_based (self s)) subdir v
           (bunch_get (inputs (self out.2)) f)) ∧
    _result (self out.2) = Some res ∧ gathers made (outputs res).
Proof.
  intros n s out values.
  split; [vm_compute; reflexivity|]. split; [vm_compute; reflexivity|].
  apply (failed_iteration_leaves_progress Demo.helpers None s out.2
           "negative input" "x" []).
  - reflexivity.
  - vm_compute. reflexivity.
Defined.



(** ** The output directory *)

Section Directories.

Context (H : Helpers).

Lemma output_directory_outcome s :
  let base := default (mkdtemp H (w_fs (proc s))) (output_directory_base (self s)) in
  _output_directory H s =
    (Ok (abspath H (w_cwd (proc s)) (path_join base (name (self s)))),
     match output_directory_base (self s) with
     | Some _ => s
     | None => mkState (with_base (Some base) (self s))
                       (with_fs (<[base := Dir]> (w_fs (proc s))) (proc s))
     end).
Proof.
  destruct s as [n w]. unfold _output_directory, bind, get_self, getcwd, get_proc, ret; simpl.
  by destruct (output_directory_base n).
Qed.

Lemma run_from_based updatehash s :
  disk_based (self s) = true →
  run H updatehash s = run H updatehash (_output_directory H s).2.
Proof.
  intros Hdb. rewrite output_directory_outcome. simpl.
  destruct (output_directory_base (self s)) as [b|] eqn:Hb; [done|].
  unfold run. rewrite !bind_unfold. simpl. rewrite Hdb.
  rewrite !bind_unfold. f_equal.
  unfold hash_step. rewrite !bind_unfold.
  rewrite !output_directory_outcome. simpl. rewrite Hb. simpl.
  reflexivity.
Qed.

End Directories.

(** X6: [_output_directory] settles the base directory once.  The
    first call on a node without one takes a fresh temporary directory
    and records it; from then on the method changes nothing, and
    calling it again returns the same directory. *)
Theorem output_directory_is_stable (H : Helpers) (s : state) :
  ∃ d s1,
    _output_directory H s = (Ok d, s1) ∧
    _output_directory H s1 = (Ok d, s1) ∧
    (is_Some (output_directory_base (self s)) → s1 = s) ∧
    (output_directory_base (self s) = None →
     output_directory_base (self s1) = Some (mkdtemp H (w_fs (proc s))) ∧
     w_fs (proc s1) !! mkdtemp H (w_fs (proc s)) = Some Dir) ∧
    w_cwd (proc s1) = w_cwd (proc s) ∧
    w_trace (proc s1) = w_trace (proc s).
Proof.
  do 2 eexists. split; [apply output_directory_outcome|].
  rewrite output_directory_outcome.
  destruct s as [n w]. simpl.
  destruct (output_directory_base n) as [b|] eqn:Hb; simpl.
  - rewrite Hb. split; [done|]. split; [done|]. split; [done|]. done.
  - split; [done|]. split; [by intros [? [=]]|]. split; [|done].
    intros _. split; [done|]. by rewrite lookup_insert_eq.
Qed.

(** X7: once [_make_output_dir] has returned for the (absolute)
    directory that [_output_directory] computed, that directory exists;
    nothing that existed before is gone, and the process has not
    moved. *)
Theorem made_output_directory_exists (H : Helpers) (s s1 s2 : state)
    (d d' : string) :
  _output_directory H s = (Ok d, s1) →
  abspath H (w_cwd (proc s1)) d = d →
  _make_output_dir H d s1 = (Ok d', s2) →
  d' = d ∧
  is_Some (w_fs (proc s2) !! d) ∧
  (∀ p, is_Some (w_fs (proc s) !! p) → is_Some (w_fs (proc s2) !! p)) ∧
  w_cwd (proc s2) = w_cwd (proc s) ∧
  w_trace (proc s2) = w_trace (proc s).
Proof.
  rewrite output_directory_outcome. intros [= <- <-].
  assert (Hmono : ∀ (fs : filesystem) d p, is_Some (fs !! p) → is_Some (<[d := Dir]> fs !! p)).
  { intros fs d p Hp. destruct (decide (d = p)) as [->|Hne].
    - rewrite lookup_insert_eq. eauto.
    - by rewrite lookup_insert_ne. }
  destruct s as [n w]. simpl.
  unfold _make_output_dir, bind, getcwd, get_proc, path_exists, ret, when; simpl.
  destruct (output_directory_base n) as [b|]; simpl; intros ->;
    destruct (bool_decide _) eqn:Hex; simpl; intros [= <- <-]; simpl;
    repeat split; try done.
  - by apply bool_decide_eq_true in Hex.
  - rewrite lookup_insert_eq. eauto.
  - apply Hmono.
  - by apply bool_decide_eq_true in Hex.
  - apply Hmono.
  - rewrite lookup_insert_eq. eauto.
  - intros p Hp. by apply Hmono, Hmono.
Qed.

Lemma made_output_directory_exists_witness :
  let n := Demo.node_of Demo.doubler [] true None {[ "x" := VInt 3 ]} in
  let s := mkState n Demo.world0 in
  let s1 := (_output_directory Demo.helpers s).2 in
  let s2 := (_make_output_dir Demo.helpers "/tmp/tmpdir/N" s1).2 in
  w_fs (proc s) !! "/tmp/tmpdir/N" = None ∧
  "/tmp/tmpdir/N" = "/tmp/tmpdir/N" ∧
  is_Some (w_fs (proc s2) !! "/tmp/tmpdir/N") ∧
  (∀ p, is_Some (w_fs (proc s) !! p) → is_Some (w_fs (proc s2) !! p)) ∧
  w_cwd (proc s2) = w_cwd (proc s) ∧
  w_trace (proc s2) = w_trace (proc s).
Proof.
  intros n s s1 s2. split; [vm_compute; reflexivity|].
  apply (made_output_directory_exists Demo.helpers s s1 s2 "/tmp/tmpdir/N" "/tmp/tmpdir/N").
  - vm_compute. reflexivity.
  - vm_compute. reflexivity.
  - vm_compute. reflexivity.
Defined.

(** X8: whatever way a [run] of a disk based node ends, the node
    has a base directory afterwards: the one it was given, or else the
    temporary directory taken at the start of this run.  A later run
    therefore works in the same place. *)
Theorem temporary_base_is_allocated_once (H : Helpers) (updatehash : bool)
    (s s' : state) (res : outcome (option InterfaceResult)) :
  disk_based (self s) = true →
  run H updatehash s = (res, s') →
  output_directory_base (self s') =
    Some (default (mkdtemp H (w_fs (proc s))) (output_directory_base (self s))).
Proof.
  intros Hdb Hrun. rewrite run_from_based in Hrun by done.
  pose proof (sat_run_shape H updatehash (_output_directory H s).2) as [Hc _].
  rewrite Hrun in Hc. simpl in Hc.
  rewrite output_directory_outcome in Hc. simpl in Hc.
  destruct (output_directory_base (self s)) as [b|] eqn:Hb; simpl in *.
  - rewrite (cfg_base _ _ Hc); rewrite Hb; eauto.
  - rewrite (cfg_base _ _ Hc); simpl; eauto.
Qed.

Lemma temporary_base_is_allocated_once_witness :
  let n := Demo.node_of Demo.doubler [] true None {[ "x" := VInt 3 ]} in
  let s := mkState n Demo.world0 in
  let out := run Demo.helpers false s in
  output_directory_base (self s) = None ∧
  mkdtemp Demo.helpers (w_fs (proc s)) = "/tmp/tmpdir" ∧
  output_directory_base (self out.2) =
    Some (default (mkdtemp Demo.helpers (w_fs (proc s))) (output_directory_base (self s))).
Proof.
  intros n s out. split; [reflexivity|]. split; [reflexivity|].
  apply (temporary_base_is_allocated_once Demo.helpers false s out.2 out.1).
  - reflexivity.
  - apply surjective_pairing.
Defined.

(** ** The hash file of an execution *)



(** ** The errors of [run] *)

Section Kinds.

Context (H : Helpers).

Lemma stage_inputs_Ok outdir s : ∃ s', stage_inputs H outdir s = (Ok tt, s').
Proof.
  unfold stage_inputs. rewrite bind_unfold. simpl.
  destruct (get_input_info (_interface (self s))) as [infos|]; [|by eexists].
  destruct (for_each_inv (λ _, True) (λ _ _, True) infos
     (λ info,
        let* n := get_self in
        let files := bunch_get (inputs n) (key info) in
        match files with
        | VNone => ret tt
        | _ =>
          let infiles := filename_to_list H files in
          let* newfiles := call_copyfiles H infiles (VList [VStr outdir]) (copy info) in
          set_inputs_attr (key info) (list_to_filename H newfiles)
        end)) with s as (s' & Hrun & _); [done|done| |done|eauto].
  clear. intros info [n w] _. unfold bind, get_self. simpl.
  assert (∃ s', (let* newfiles := call_copyfiles H (filename_to_list H (bunch_get (inputs n) (key info)))
                                    (VList [VStr outdir]) (copy info) in
                 set_inputs_attr (key info) (list_to_filename H newfiles)) (mkState n w)
                = (Ok tt, s')) as [s' Hs'].
  { unfold call_copyfiles, bind, get_proc. simpl.
    destruct (copyfiles H _ _ _ _). simpl. by eexists. }
  destruct (bunch_get (inputs n) (key info)); eauto.
Qed.

Lemma invoke_not_standard execute itervals i cwd s e s' :
  invoke execute itervals i cwd s = (Raise e, s') → ∀ msg, e ≠ StandardError msg.
Proof.
  destruct s as [n w]. unfold invoke. destruct execute; [|discriminate].
  unfold bind, call_run; simpl.
  destruct (if_run _ _ _ _ _) as [result fs']; simpl.
  destruct (negb _); simpl; [by intros [= <- _]|].
  unfold update_result, bind, get_self; simpl.
  destruct (_result n) as [res|]; simpl; [|by intros [= <- _]].
  unfold record_call. destruct (interface res), (runtime res); simpl;
    first [discriminate|by intros [= <- _]].
Qed.

Lemma iterate_not_standard execute basewd itervals vals :
  ∀ i cwd s e s',
    iterate H execute basewd itervals i vals cwd s = (Raise e, s') →
    ∀ msg, e ≠ StandardError msg.
Proof.
  induction vals as [|v vals IH]; intros i cwd s e s' Hrun; simpl in Hrun; [discriminate|].
  apply bind_Raise in Hrun as [Hrun|(c & s1 & _ & Hrun)]; [|eauto].
  unfold iterate_once in Hrun.
  apply bind_Raise in Hrun as [Hrun|([c subdir] & s1 & _ & Hrun)].
  { apply enter_subdir_Raise in Hrun as ->. done. }
  apply bind_Raise in Hrun as [Hrun|([] & s2 & _ & Hrun)].
  { apply assign_iterfields_Raise in Hrun as ->. done. }
  apply bind_Raise in Hrun as [Hrun|(outs & s3 & _ & Hrun)].
  { by eapply invoke_not_standard. }
  apply bind_Raise in Hrun as [Hrun|([] & s4 & _ & Hrun)]; [|discriminate].
  apply store_outputs_Raise in Hrun as ->. done.
Qed.

Lemma run_interface_not_standard execute cwd s e s' :
  _run_interface H execute cwd s = (Raise e, s') → ∀ msg, e ≠ StandardError msg.
Proof.
  intros Hrun.
  destruct (iterfield (self s)) as [|field0 fields] eqn:Hfields.
  { destruct (run_interface_once_Raise H _ _ _ _ _ Hfields Hrun)
      as (_ & c & failed & _ & _ & -> & _). done. }
  destruct (run_interface_split H execute cwd s)
    as (cwd' & s3 & _ & Hf3 & _ & _ & _ & _ & _ & Heq).
  rewrite Heq in Hrun. clear Heq.
  rewrite bind_unfold in Hrun. simpl in Hrun. rewrite Hf3, Hfields in Hrun.
  destruct (coerce_iterfields (self s3)) as [itervals notlist].
  apply bind_Raise in Hrun as [Hrun|(c & s4 & Hbody & Hrun)].
  2:{ by destruct (truthy_dir c). }
  apply bind_Raise in Hrun as [Hrun|([] & s3a & _ & Hrun)]; [discriminate|].
  apply bind_Raise in Hrun as [Hrun|(c & s4 & _ & Hrun)].
  { by eapply iterate_not_standard. }
  apply bind_Raise in Hrun as [Hrun|([] & s5 & _ & Hrun)]; [|discriminate].
  apply restore_inputs_Raise in Hrun as ->. done.
Qed.

Lemma run_not_standard updatehash s e s' :
  run H updatehash s = (Raise e, s') → ∀ msg, e ≠ StandardError msg.
Proof.
  intros Hrun.
  destruct (disk_based (self s)) eqn:Hdb.
  2:{ assert (Hsame : run H updatehash s =
                (_run_interface H true None ;; let* n := get_self in ret (_result n)) s).
      { unfold run. rewrite bind_unfold. simpl. by rewrite Hdb. }
      rewrite Hsame in Hrun.
      apply bind_Raise in Hrun as [Hrun|([] & s1 & _ & Hrun)]; [|discriminate].
      by eapply run_interface_not_standard. }
  destruct (hash_step_Ok H s) as (outdir & hashed & hv & s1 & base & Hstep & _).
  assert (Hcollect : ∀ t,
    (repoint_inputs H outdir ;;
     _run_interface H false (Some outdir) ;;
     let* n := get_self in ret (_result n)) t = (Raise e, s') →
    ∀ msg, e ≠ StandardError msg).
  { intros t Ht. destruct (repoint_inputs_Ok H outdir t) as (t1 & Hrep & _).
    rewrite (bind_Ok_eq _ _ _ _ _ Hrep) in Ht.
    apply bind_Raise in Ht as [Ht|([] & t2 & _ & Ht)]; [|discriminate].
    by eapply run_interface_not_standard. }
  destruct updatehash.
  - rewrite (run_update_path H _ _ _ _ _ _ Hdb Hstep) in Hrun.
    rewrite bind_unfold, save_hashfile_outcome in Hrun. by eapply Hcollect.
  - destruct (default false (overwrite (self s1))
              || negb (bool_decide (is_Some (w_fs (proc s1) !! hashfile_name outdir hv))))
      eqn:Hex.
    2:{ rewrite (run_skips_when _ _ _ _ _ _ _ Hdb Hstep Hex) in Hrun. by eapply Hcollect. }
    rewrite (run_executes_when _ _ _ _ _ _ _ Hdb Hstep Hex) in Hrun.
    apply bind_Raise in Hrun as [Hrun|([] & sa & _ & Hrun)]; [discriminate|].
    destruct (stage_inputs_Ok outdir sa) as (sb & Hstage).
    rewrite (bind_Ok_eq _ _ _ _ _ Hstage) in Hrun.
    apply bind_Raise in Hrun as [Hrun|([] & sc & Hri & Hrun)].
    { by eapply run_interface_not_standard. }
    apply bind_Raise in Hrun as [Hrun|([] & sd & _ & Hrun)]; [|discriminate].
    destruct (executed_returncode_zero H _ _ _ Hri) as (res & Hres & Hrc).
    rewrite bind_unfold in Hrun. simpl in Hrun. rewrite Hres, Hrc in Hrun. simpl in Hrun.
    rewrite save_hashfile_outcome in Hrun. discriminate.
Qed.

End Kinds.

(** X10: [run] never ends in the [StandardError] that lines 203-206
    build.  Every error of a failed adapter leaves [_run_interface] as
    a [RuntimeError] first, and when [_run_interface] returns to [run]
    every recorded return code is 0, so the check of the return code
    always goes on to save the hash file. *)
Theorem could_not_run_is_never_raised (H : Helpers) (updatehash : bool)
    (s s' : state) (res : outcome (option InterfaceResult)) :
  run H updatehash s = (res, s') →
  (∀ msg, res ≠ Raise (StandardError msg)) ∧
  (∀ n r rt, runtime r = SOne rt → res ≠ Raise (could_not_run H n r)).
Proof.
  intros Hrun. split.
  - intros msg ->. by apply (run_not_standard H _ _ _ _ Hrun msg).
  - intros n r rt Hrt. unfold could_not_run. rewrite Hrt.
    intros ->. by eapply (run_not_standard H _ _ _ _ Hrun).
Qed.

Lemma could_not_run_is_never_raised_witness :
  let n := Demo.node_of Demo.doubler [] true (Some "/wf") {[ "x" := VInt (-1) ]} in
  let s := mkState n Demo.world0 in
  let out := run Demo.helpers false s in
  out.1 = Raise (RuntimeError "negative input") ∧
  (∀ msg, out.1 ≠ Raise (StandardError msg)) ∧
  (∀ n r rt, runtime r = SOne rt → out.1 ≠ Raise (could_not_run Demo.helpers n r)).
Proof.
  intros n s out. split; [vm_compute; reflexivity|].
  apply (could_not_run_is_never_raised Demo.helpers false s out.2 out.1).
  apply surjective_pairing.
Defined.

(** ** Results of collecting runs *)

Section NoRuntime.

Context (H : Helpers).

Lemma collect_keeps_runtime basewd itervals vals :
  ∀ i cwd,
    sat (keeps (λ s, (interface <$> _result (self s), runtime <$> _result (self s))))
        (iterate H false basewd itervals i vals cwd).
Proof.
  induction vals as [|v vals IH]; intros i cwd; simpl.
  - apply sat_ret; exact _.
  - apply sat_bind; [exact _| |intros; apply IH].
    unfold iterate_once.
    apply sat_bind; [exact _|unfold enter_subdir; keeps_auto|intros [c subdir]].
    apply sat_bind; [exact _| |intros _].
    { unfold assign_iterfields. keeps_auto. all: apply keeps_call_copyfiles; done. }
    apply sat_bind; [exact _| |intros outs].
    { intros [n w]. done. }
    apply sat_bind; [exact _| |intros _; apply sat_ret; exact _].
    intros [n w]. unfold keeps, store_outputs, update_result, bind, get_self; simpl.
    destruct (_result n) as [res|] eqn:Hres; simpl; by rewrite ?Hres.
Qed.

End NoRuntime.

(** X11: a run of the interface that only collects outputs records
    nothing about an execution: without iteration fields the result
    has [None] for its interface and its runtime, and with iteration
    fields it has the two empty lists the loop started from. *)
Theorem collecting_run_has_no_runtime (H : Helpers) (cwd : option string)
    (s s' : state) :
  _run_interface H false cwd s = (Ok tt, s') →
  ∃ res, _result (self s') = Some res ∧
    match iterfield (self s) with
    | [] => interface res = SNone ∧ runtime res = SNone
    | _ => interface res = SList [] ∧ runtime res = SList []
    end.
Proof.
  intros Hrun. destruct (iterfield (self s)) as [|field0 fields] eqn:Hfields.
  - destruct (run_interface_once_Ok H _ _ _ _ Hfields Hrun) as (ev & _ & _ & _ & Hres).
    eexists. split; [exact Hres|done].
  - destruct (run_interface_iter_Ok H _ _ _ _ _ _ Hfields Hrun)
      as (s3 & basewd & c & s4 & s5 & _ & _ & _ & _ & Hsteps).
    destruct (coerce_iterfields (self s3)) as [itervals notlist].
    destruct Hsteps as (Hit & Hre & Hself & _).
    pose proof (collect_keeps_runtime H basewd itervals (itervals !!! field0) 0 basewd
                  (mkState (with_result (Some (mkResult (SList []) (SList []) ∅)) (self s3))
                           (proc s3))) as Hk.
    rewrite Hit in Hk. unfold keeps in Hk. simpl in Hk.
    pose proof (restore_inputs_config (field0 :: fields) itervals notlist s4) as Hk5.
    rewrite Hre in Hk5. unfold keeps in Hk5. simpl in Hk5. injection Hk5 as Hr5 _.
    rewrite Hself, Hr5.
    destruct (_result (self s4)) as [res|]; [|discriminate].
    injection Hk as Hi Hr. by exists res.
Qed.

Lemma collecting_run_has_no_runtime_witness :
  let n := Demo.node_of Demo.doubler ["x"] false None
             {[ "x" := VList [VInt 3; VInt 4] ]} in
  let s := mkState n Demo.world0 in
  let out := _run_interface Demo.helpers false None s in
  out.1 = Ok tt ∧
  ∃ res, _result (self out.2) = Some res ∧
    match iterfield (self s) with
    | [] => interface res = SNone ∧ runtime res = SNone
    | _ => interface res = SList [] ∧ runtime res = SList []
    end.
Proof.
  intros n s out. split; [vm_compute; reflexivity|].
  apply (collecting_run_has_no_runtime Demo.helpers None s out.2).
  vm_compute. reflexivity.
Defined.

(** ** From [set_input] to [get_output] *)

(** X12: a value given to [set_input] for an input of the interface
    is what the adapter sees at the next [run], and what the adapter
    produces is what [get_output] hands out afterwards.  For a node
    that is not disk based and has no iteration fields: the run makes
    one call of [run] on the adapter, with the inputs updated at that
    parameter and no directory argument; it returned status 0; [run]
    returns the result of that call; and [get_output] returns every
    output of it. *)
Theorem set_input_reaches_the_adapter (H : Helpers) (updatehash : bool)
    (n : NodeWrapper) (w : world) (parameter : string) (val : pyval)
    (r : option InterfaceResult) (s' : state) :
  bunch_has (inputs n) parameter = true →
  iterfield n = [] →
  disk_based n = false →
  run H updatehash (mkState (set_input parameter val n) w) = (Ok r, s') →
  let seen := <[parameter := val]> (inputs n) in
  let result := (if_run (_interface n) seen None (w_cwd w) (w_fs w)).1 in
  returncode (run_runtime result) = 0 ∧
  w_trace (proc s') = EvRun seen None result :: w_trace w ∧
  r = Some (mkResult (SOne (run_interface result)) (SOne (run_runtime result))
                     (run_outputs result)) ∧
  ∀ k x, run_outputs result !! k = Some x → get_output (self s') k = Ok x.
Proof.
  intros Hhas Hf Hdb. unfold run, set_input. rewrite Hhas.
  unfold bind, get_self, _run_interface, bind, getcwd, get_proc, get_self, ret, when; simpl.
  rewrite Hdb. simpl. rewrite Hdb. simpl. rewrite Hf. simpl. unfold call_run, bind, modify_self; simpl.
  destruct (if_run _ _ _ _ _) as [result fs'] eqn:Hr; simpl.
  destruct (Z.eqb_spec (returncode (run_runtime result)) 0) as [Hz|Hz]; simpl; [|discriminate].
  intros [= <- <-]. simpl. repeat split; try done.
  intros k x Hk. unfold get_output. simpl.
  unfold bunch_has, bunch_get. rewrite Hk.
  by rewrite bool_decide_eq_true_2 by eauto.
Qed.

Lemma set_input_reaches_the_adapter_witness :
  let n := Demo.node_of Demo.doubler [] false None ∅ in
  let out := run Demo.helpers false (mkState (set_input "x" (VInt 3) n) Demo.world0) in
  let seen := <["x" := VInt 3]> (inputs n) in
  let result := (if_run (_interface n) seen None (w_cwd Demo.world0)
                        (w_fs Demo.world0)).1 in
  run_outputs result !! "y" = Some (VInt 6) ∧
  returncode (run_runtime result) = 0 ∧
  w_trace (proc out.2) = EvRun seen None result :: w_trace Demo.world0 ∧
  Demo.returned out.1 =
    Some (mkResult (SOne (run_interface result)) (SOne (run_runtime result))
                   (run_outputs result)) ∧
  ∀ k x, run_outputs result !! k = Some x → get_output (self out.2) k = Ok x.
Proof.
  intros n out seen result. split; [vm_compute; reflexivity|].
  apply (set_input_reaches_the_adapter Demo.helpers false n Demo.world0 "x" (VInt 3)
           (Demo.returned out.1) out.2).
  - vm_compute. reflexivity.
  - reflexivity.
  - reflexivity.
  - vm_compute. reflexivity.
Defined.

(** ** Directories of the iterations *)

Section Subdirectories.

Context (H : Helpers).

Lemma assign_iterfields_keeps_place itervals i subdir :
  sat (keeps (λ s, (_interface (self s), w_cwd (proc s), w_trace (proc s))))
      (assign_iterfields H itervals i subdir).
Proof.
  unfold assign_iterfields. keeps_auto.
  all: apply keeps_call_copyfiles; done.
Qed.

Lemma iterate_once_subdir b itervals i cwd s c' s' :
  disk_based (self s) = true →
  iterate_once H true (Some b) itervals i cwd s = (Ok c', s') →
  let subdir := iteration_dir b (default "" (head (iterfield (self s)))) i in
  c' = Some subdir ∧
  ∃ ev, w_trace (proc s') = ev :: w_trace (proc s) ∧
        runs_inside (_interface (self s)) subdir ev.
Proof.
  intros Hdb Hrun subdir. unfold iterate_once in Hrun.
  apply bind_Ok in Hrun as ([c sd] & s1 & Hent & Hrun).
  assert (Hs1 : c = Some subdir ∧ sd = subdir ∧ self s1 = self s ∧
                w_cwd (proc s1) = subdir ∧ w_trace (proc s1) = w_trace (proc s)).
  { destruct s as [n w]. simpl in Hdb.
    unfold enter_subdir, bind, get_self, path_exists, get_proc, ret, when in Hent.
    simpl in Hent. rewrite Hdb in Hent. simpl in Hent.
    destruct (bool_decide _); simpl in Hent; injection Hent as <- <- <-; done. }
  destruct Hs1 as (-> & -> & Hn1 & Hc1 & Ht1).
  apply bind_Ok in Hrun as ([] & s2 & Hass & Hrun).
  pose proof (assign_iterfields_keeps_place itervals i subdir s1) as K2.
  rewrite Hass in K2. unfold keeps in K2. simpl in K2. injection K2 as Hi2 Hc2 Ht2.
  apply bind_Ok in Hrun as (outs & s3 & Hinv & Hrun).
  apply bind_Ok in Hrun as ([] & s4 & Hst & Hret). injection Hret as <- <-.
  apply store_outputs_Ok in Hst as (res3 & _ & _ & Hp4).
  split; [done|]. rewrite Hp4.
  destruct s2 as [n2 w2]. simpl in *.
  unfold invoke, bind, call_run in Hinv. simpl in Hinv.
  destruct (if_run _ _ _ _ _) as [result fs'] eqn:Hr. simpl in Hinv.
  destruct (negb _); simpl in Hinv; [discriminate|].
  unfold update_result, bind, get_self in Hinv. simpl in Hinv.
  destruct (_result n2) as [res|]; simpl in Hinv; [|discriminate].
  destruct (record_call i result res); simpl in Hinv; [|discriminate].
  injection Hinv as _ <-. simpl.
  eexists. split; [by rewrite Ht2, Ht1|].
  exists (inputs n2), (w_fs w2). rewrite Hi2, Hn1, Hc2, Hc1 in Hr. by rewrite Hr.
Qed.

Lemma iterate_subdirs b itervals vals :
  ∀ i cwd s c' s',
    disk_based (self s) = true →
    iterate H true (Some b) itervals i vals cwd s = (Ok c', s') →
    ∃ calls,
      w_trace (proc s') = reverse calls ++ w_trace (proc s) ∧
      length calls = length vals ∧
      ∀ j ev, calls !! j = Some ev →
        runs_inside (_interface (self s))
          (iteration_dir b (default "" (head (iterfield (self s)))) (i + j)) ev.
Proof.
  induction vals as [|v vals IH]; intros i cwd s c' s' Hdb Hrun; simpl in Hrun.
  - injection Hrun as _ <-. exists []. split; [done|]. split; [done|].
    intros j ev Hj. inversion Hj.
  - apply bind_Ok in Hrun as (c1 & s1 & Hone & Hrest).
    pose proof (exec_iterate_once H (Some b) itervals i cwd s) as [Hc _].
    rewrite Hone in Hc. simpl in Hc.
    destruct (iterate_once_subdir _ _ _ _ _ _ _ Hdb Hone) as (_ & ev & Ht1 & Hev).
    destruct (IH (S i) c1 s1 c' s') as (calls & Ht & Hlen & Hcalls); [|done|].
    { by rewrite (cfg_disk_based _ _ Hc). }
    exists (ev :: calls). rewrite reverse_cons, <- app_assoc. simpl.
    rewrite Ht, Ht1. repeat split; [lia|].
    intros [|j] e Hj; simpl in Hj.
    + injection Hj as <-. by rewrite Nat.add_0_r.
    + specialize (Hcalls j e Hj).
      rewrite (cfg_interface _ _ Hc), (cfg_iterfield _ _ Hc) in Hcalls.
      by replace (i + S j)%nat with (S i + j)%nat by lia.
Qed.

End Subdirectories.

(** X13: a disk based node runs every iteration in a directory of
    its own.  When [_run_interface] executes in the directory [d] and
    returns, the call for index [i] was made with [cwd] set to
    [d/<first iteration field>_<i>] and with the process inside that
    directory, and there is one such call per value of the first
    iteration field. *)
Theorem iterations_run_in_numbered_directories (H : Helpers) (d : string)
    (s s' : state) (field0 : string) (fields : list string) :
  d ≠ "" →
  disk_based (self s) = true →
  iterfield (self s) = field0 :: fields →
  _run_interface H true (Some d) s = (Ok tt, s') →
  ∃ calls,
    w_trace (proc s') = reverse calls ++ w_trace (proc s) ∧
    length calls = length (iter_values (bunch_get (inputs (self s)) field0)) ∧
    ∀ i ev, calls !! i = Some ev →
      runs_inside (_interface (self s)) (iteration_dir d field0 i) ev.
Proof.
  intros Hd Hdb Hfields Hrun.
  destruct (run_interface_split H true (Some d) s)
    as (cwd' & s3 & Hi3 & Hf3 & Hd3 & Hitf3 & Ht3 & Hsame & _ & Heq).
  destruct Hsame as [-> Hself]; [by apply truthy_dir_Some|].
  rewrite Heq in Hrun. clear Heq.
  apply bind_Ok in Hrun as (n & s3' & Hn & Hrun). injection Hn as <- <-.
  rewrite Hf3, Hfields in Hrun.
  apply bind_Ok in Hrun as (c & s4 & Hbody & Hrun).
  destruct (coerce_iterfields (self s3)) as [itervals notlist] eqn:Hco.
  apply bind_Ok in Hbody as ([] & s3a & Hm & Hbody). injection Hm as <-.
  apply bind_Ok in Hbody as (c1 & s3b & Hit & Hbody).
  apply bind_Ok in Hbody as ([] & s3c & Hre & Hret). injection Hret as <- <-.
  pose proof (λ Hdb', iterate_subdirs H _ _ _ _ _ _ _ _ Hdb' Hit) as Hsub.
  destruct Hsub as (calls & Ht & Hlen & Hcalls); [simpl; by rewrite Hd3|].
  simpl in Ht, Hcalls. rewrite Hf3, Hfields, Hitf3 in Hcalls. simpl in Hcalls.
  pose proof (restore_inputs_config (field0 :: fields) itervals notlist s3b) as Hk.
  rewrite Hre in Hk. unfold keeps in Hk. simpl in Hk. injection Hk as _ Hp5.
  exists calls. split; [|split; [|done]].
  - apply when_Ok in Hrun as [[_ Hch]|[_ ->]].
    + destruct s3c. injection Hch as <-. simpl in *. by rewrite Hp5, Ht, Ht3.
    + by rewrite Hp5, Ht, Ht3.
  - rewrite Hlen.
    destruct (coerce_iterfields_spec (self s3) field0) as [Hv _].
    { rewrite Hf3, Hfields. set_solver. }
    rewrite Hco in Hv. simpl in Hv. by rewrite Hv, Hi3.
Qed.

Lemma iterations_run_in_numbered_directories_witness :
  let n := Demo.node_of Demo.stamper ["infile"] true (Some "/wf")
             {[ "infile" := VList [VStr "/data/a.nii"; VStr "/data/b.nii"] ]} in
  let s := mkState n Demo.world0 in
  let out := _run_interface Demo.helpers true (Some "/wf/N") s in
  iteration_dir "/wf/N" "infile" 1 = "/wf/N/infile_1" ∧
  ∃ calls,
    w_trace (proc out.2) = reverse calls ++ w_trace (proc s) ∧
    length calls = length (iter_values (bunch_get (inputs (self s)) "infile")) ∧
    ∀ i ev, calls !! i = Some ev →
      runs_inside (_interface (self s)) (iteration_dir "/wf/N" "infile" i) ev.
Proof.
  intros n s out. split; [vm_compute; reflexivity|].
  apply (iterations_run_in_numbered_directories Demo.helpers "/wf/N" s out.2 "infile" []).
  - discriminate.
  - reflexivity.
  - reflexivity.
  - vm_compute. reflexivity.
Defined.

(** ** Staging the input files *)

Section Staging.

Context (H : Helpers).

Lemma stage_each outdir (l : list InputInfo) :
  let body := λ info : InputInfo,
    let* n := get_self in
    let files := bunch_get (inputs n) (key info) in
    match files with
    | VNone => ret tt
    | _ =>
      let infiles := filename_to_list H files in
      let* newfiles := call_copyfiles H infiles (VList [VStr outdir]) (copy info) in
      set_inputs_attr (key info) (list_to_filename H newfiles)
    end in
  ∀ s, ∃ s',
    for_each l body s = (Ok tt, s') ∧
    w_cwd (proc s') = w_cwd (proc s) ∧ w_trace (proc s') = w_trace (proc s) ∧
    (∀ k, k ∉ key <$> l → inputs (self s') !! k = inputs (self s) !! k) ∧
    (∀ k, bunch_get (inputs (self s)) k = VNone →
          inputs (self s') !! k = inputs (self s) !! k) ∧
    (NoDup (key <$> l) →
     ∀ info, info ∈ l → bunch_get (inputs (self s)) (key info) ≠ VNone →
       ∃ fs, inputs (self s') !! key info =
             Some (staged H outdir info (bunch_get (inputs (self s)) (key info)) fs)).
Proof.
  intros body.
  assert (Hstep : ∀ info s, ∃ s1,
    body info s = (Ok tt, s1) ∧
    w_cwd (proc s1) = w_cwd (proc s) ∧ w_trace (proc s1) = w_trace (proc s) ∧
    inputs (self s1) =
      match bunch_get (inputs (self s)) (key info) with
      | VNone => inputs (self s)
      | files => <[key info := staged H outdir info files (w_fs (proc s))]> (inputs (self s))
      end).
  { intros info [n w]. unfold body, bind, get_self, staged. simpl.
    assert (∃ s1,
      (let* newfiles := call_copyfiles H (filename_to_list H (bunch_get (inputs n) (key info)))
                          (VList [VStr outdir]) (copy info) in
       set_inputs_attr (key info) (list_to_filename H newfiles)) (mkState n w) = (Ok tt, s1) ∧
      w_cwd (proc s1) = w_cwd w ∧ w_trace (proc s1) = w_trace w ∧
      inputs (self s1) =
        <[key info := list_to_filename H
            (copyfiles H (filename_to_list H (bunch_get (inputs n) (key info)))
               (VList [VStr outdir]) (copy info) (w_fs w)).1]> (inputs n)) as (s1 & Hs1).
    { unfold call_copyfiles, bind, get_proc. simpl.
      destruct (copyfiles H _ _ _ _). simpl. by eexists. }
    destruct (bunch_get (inputs n) (key info)); eauto. }
  induction l as [|info l IH]; intros s; simpl.
  - exists s. repeat split; try done. intros _ info Hin. inversion Hin.
  - destruct (Hstep info s) as (s1 & Hb & Hc1 & Ht1 & Hi1).
    destruct (IH s1) as (s' & Hrest & Hc & Ht & Hoff & Hnone & Hset).
    exists s'. rewrite (bind_Ok_eq _ _ _ _ _ Hb).
    split; [done|]. split; [congruence|]. split; [congruence|].
    assert (Hother : ∀ k, k ≠ key info → inputs (self s1) !! k = inputs (self s) !! k).
    { intros k Hk. rewrite Hi1.
      destruct (bunch_get (inputs (self s)) (key info)); try done;
        by rewrite lookup_insert_ne. }
    split; [|split].
    + intros k Hk. rewrite Hoff by set_solver. apply Hother. set_solver.
    + intros k Hk. destruct (decide (k = key info)) as [->|Hne].
      * rewrite Hk in Hi1. rewrite Hnone; rewrite Hi1; done.
      * rewrite Hnone; [by apply Hother|]. unfold bunch_get. by rewrite Hother.
    + intros Hnd info0 Hin Hval. apply NoDup_cons in Hnd as [Hhead Hnd].
      apply elem_of_cons in Hin as [->|Hin].
      * exists (w_fs (proc s)). rewrite Hoff by done. rewrite Hi1.
        destruct (bunch_get (inputs (self s)) (key info)); try done;
          by rewrite lookup_insert_eq.
      * assert (Hne : key info0 ≠ key info).
        { intros Heq. apply Hhead. rewrite <- Heq. by apply list_elem_of_fmap_2. }
        assert (Hsame : bunch_get (inputs (self s1)) (key info0)
                        = bunch_get (inputs (self s)) (key info0)).
        { unfold bunch_get. by rewrite Hother. }
        rewrite <- Hsame. apply Hset; [done|done|by rewrite Hsame].
Qed.

End Staging.



(** ** Pointing the inputs at staged files *)

Section Repointing.

Context (H : Helpers).

Lemma copy_missing_then (f : pyval) (newfile : string) (copy : bool) s :
  ∃ s1,
    self s1 = self s ∧ w_cwd (proc s1) = w_cwd (proc s) ∧
    w_trace (proc s1) = w_trace (proc s) ∧
    ∀ B (k : M B),
      (let* ex := path_exists newfile in
       when (negb ex) (let* _ := call_copyfiles H f (VStr newfile) copy in ret tt) ;;
       k) s = k s1.
Proof.
  destruct s as [n w]. unfold bind, path_exists, get_proc, ret, when. simpl.
  destruct (negb _); simpl; [|by exists (mkState n w)].
  unfold call_copyfiles, bind, get_proc. simpl.
  destruct (copyfiles H f _ _ _) as [x fs']. simpl.
  by exists (mkState n (with_fs fs' w)).
Qed.

Lemma repoint_list outdir (info : InputInfo) (files : pyval) :
  is_list files = true →
  let inner := λ (i : nat) (f : pyval),
    let newfile := fname_presuffix H f outdir in
    let* ex := path_exists newfile in
    when (negb ex)
      (let* _ := call_copyfiles H f (VStr newfile) (copy info) in ret tt) ;;
    if is_list files then
      let* n := get_self in
      match bunch_get (inputs n) (key info) with
      | VList l => set_inputs_attr (key info) (VList (<[i := VStr newfile]> l))
      | _ => raise TypeError
      end
    else set_inputs_attr (key info) (VStr newfile) in
  ∀ rest pre s,
    inputs (self s) !! key info = Some (VList (pre ++ rest)) →
    ∃ s',
      for_enumerate (length pre) rest inner s = (Ok tt, s') ∧
      w_cwd (proc s') = w_cwd (proc s) ∧ w_trace (proc s') = w_trace (proc s) ∧
      inputs (self s') =
        <[key info := VList (pre ++ ((λ f, VStr (fname_presuffix H f outdir)) <$> rest))]>
          (inputs (self s)).
Proof.
  intros Hl inner. induction rest as [|f rest IH]; intros pre s Hcur; simpl.
  - exists s. repeat split; try done. by rewrite insert_id.
  - set (x := VStr (fname_presuffix H f outdir)).
    destruct (copy_missing_then f (fname_presuffix H f outdir) (copy info) s)
      as (s1 & Hn1 & Hc1 & Ht1 & Hcp).
    assert (Hone : inner (length pre) f s =
              (Ok tt, mkState (with_inputs (<[key info := VList (pre ++ x :: rest)]>
                                              (inputs (self s))) (self s)) (proc s1))).
    { unfold inner. cbv zeta. rewrite Hcp. rewrite Hl.
      rewrite bind_unfold. simpl. rewrite Hn1. unfold bunch_get. rewrite Hcur. simpl.
      unfold set_inputs_attr, modify_self. simpl. rewrite Hn1.
      replace (length pre) with (length pre + 0)%nat by lia.
      by rewrite insert_app_r. }
    destruct (IH (pre ++ [x])
                (mkState (with_inputs (<[key info := VList (pre ++ x :: rest)]>
                                         (inputs (self s))) (self s)) (proc s1)))
      as (s' & Hrest & Hc & Ht & Hi).
    { simpl. rewrite lookup_insert_eq. by rewrite <- app_assoc. }
    exists s'. rewrite (bind_Ok_eq _ _ _ _ _ Hone).
    replace (S (length pre)) with (length (pre ++ [x])) by (rewrite length_app; simpl; lia).
    split; [done|]. split; [by rewrite Hc|]. split; [by rewrite Ht|].
    rewrite Hi. simpl. rewrite insert_insert_eq. by rewrite <- app_assoc.
Qed.

Lemma repoint_each outdir (l : list InputInfo) :
  let body := λ info : InputInfo,
    let* n := get_self in
    let files := bunch_get (inputs n) (key info) in
    when (truthy files)
      (let infiles := match files with VList l => l | _ => [files] end in
       for_enumerate 0 infiles (λ i f,
         let newfile := fname_presuffix H f outdir in
         let* ex := path_exists newfile in
         when (negb ex)
           (let* _ := call_copyfiles H f (VStr newfile) (copy info) in ret tt) ;;
         if is_list files then
           let* n := get_self in
           match bunch_get (inputs n) (key info) with
           | VList l => set_inputs_attr (key info) (VList (<[i := VStr newfile]> l))
           | _ => raise TypeError
           end
         else set_inputs_attr (key info) (VStr newfile))) in
  ∀ s, ∃ s',
    for_each l body s = (Ok tt, s') ∧
    w_cwd (proc s') = w_cwd (proc s) ∧ w_trace (proc s') = w_trace (proc s) ∧
    (∀ k, k ∉ key <$> l → inputs (self s') !! k = inputs (self s) !! k) ∧
    (∀ k, truthy (bunch_get (inputs (self s)) k) = false →
          inputs (self s') !! k = inputs (self s) !! k) ∧
    (NoDup (key <$> l) →
     ∀ info, info ∈ l → truthy (bunch_get (inputs (self s)) (key info)) = true →
       inputs (self s') !! key info =
         Some (repointed H outdir (bunch_get (inputs (self s)) (key info)))).
Proof.
  intros body.
  assert (Hstep : ∀ info s, ∃ s1,
    body info s = (Ok tt, s1) ∧
    w_cwd (proc s1) = w_cwd (proc s) ∧ w_trace (proc s1) = w_trace (proc s) ∧
    inputs (self s1) =
      if truthy (bunch_get (inputs (self s)) (key info))
      then <[key info := repointed H outdir (bunch_get (inputs (self s)) (key info))]>
             (inputs (self s))
      else inputs (self s)).
  { intros info s. unfold body. rewrite bind_unfold. simpl.
    destruct (truthy (bunch_get (inputs (self s)) (key info))) eqn:Htr; simpl;
      [|by exists s].
    destruct (bunch_get (inputs (self s)) (key info)) as [| | | | |l0] eqn:Hfiles;
      try discriminate.
    5:{ destruct (repoint_list outdir info (VList l0) eq_refl l0 [] s) as (s' & Hrun & Hrest).
        { unfold bunch_get in Hfiles.
          destruct (inputs (self s) !! key info) as [v|]; [|discriminate].
          simpl in Hfiles. by rewrite Hfiles. }
        exists s'. split; [exact Hrun|exact Hrest]. }
    all: simpl; rewrite bind_unfold.
    all: match goal with
         | |- context [fname_presuffix _ ?f ?o] =>
           destruct (copy_missing_then f (fname_presuffix H f o) (copy info) s)
             as (s1 & Hn1 & Hc1 & Ht1 & Hcp)
         end.
    all: rewrite Hcp; unfold set_inputs_attr, modify_self, ret; simpl;
      eexists; (split; [reflexivity|]); simpl; rewrite Hn1; done. }
  induction l as [|info l IH]; intros s; simpl.
  - exists s. repeat split; try done. intros _ info Hin. inversion Hin.
  - destruct (Hstep info s) as (s1 & Hb & Hc1 & Ht1 & Hi1).
    destruct (IH s1) as (s' & Hrest & Hc & Ht & Hoff & Hfalsy & Hset).
    exists s'. rewrite (bind_Ok_eq _ _ _ _ _ Hb).
    split; [done|]. split; [congruence|]. split; [congruence|].
    assert (Hother : ∀ k, k ≠ key info → inputs (self s1) !! k = inputs (self s) !! k).
    { intros k Hk. rewrite Hi1. destruct (truthy _); [|done]. by rewrite lookup_insert_ne. }
    split; [|split].
    + intros k Hk. rewrite Hoff by set_solver. apply Hother. set_solver.
    + intros k Hk. destruct (decide (k = key info)) as [->|Hne].
      * rewrite Hk in Hi1. rewrite Hfalsy; rewrite Hi1; done.
      * rewrite Hfalsy; [by apply Hother|]. unfold bunch_get. by rewrite Hother.
    + intros Hnd info0 Hin Hval. apply NoDup_cons in Hnd as [Hhead Hnd].
      apply elem_of_cons in Hin as [->|Hin].
      * rewrite Hoff by done. rewrite Hi1, Hval. by rewrite lookup_insert_eq.
      * assert (Hne : key info0 ≠ key info).
        { intros Heq. apply Hhead. rewrite <- Heq. by apply list_elem_of_fmap_2. }
        assert (Hsame : bunch_get (inputs (self s1)) (key info0)
                        = bunch_get (inputs (self s)) (key info0)).
        { unfold bunch_get. by rewrite Hother. }
        rewrite <- Hsame. apply Hset; [done|done|by rewrite Hsame].
Qed.

End Repointing.



(** ** Iteration fields of different lengths *)

Section Ragged.

Context (H : Helpers).



End Ragged.


(** ** What [run] returns *)

Section Returned.

Context (H : Helpers).

Lemma run_interface_Ok_result execute cwd s s' :
  _run_interface H execute cwd s = (Ok tt, s') → is_Some (_result (self s')).
Proof.
  intros Hrun. destruct (iterfield (self s)) as [|field0 fields] eqn:Hfields.
  - destruct (run_interface_once_Ok H _ _ _ _ Hfields Hrun) as (ev & _ & _ & Hres).
    destruct execute.
    + destruct Hres as (_ & c & result & _ & ->). eauto.
    + destruct Hres as (_ & ->). eauto.
  - destruct (run_interface_iter_spec H _ _ _ _ _ _ Hfields Hrun)
      as (calls & res & _ & _ & _ & _ & -> & _). eauto.
Qed.

(** What [run] returns is the result on the node, and there is one. *)
Lemma run_returns_result updatehash s r s' :
  run H updatehash s = (Ok r, s') →
  ∃ res, r = Some res ∧ _result (self s') = Some res.
Proof.
  intros Hrun.
  assert (Hr : r = _result (self s')).
  { unfold run in Hrun. apply bind_Ok in Hrun as (n & s0 & _ & Hrun).
    apply bind_Ok in Hrun as ([] & s1 & _ & Hrun).
    by injection Hrun as <- <-. }
  assert (Hsome : is_Some (_result (self s'))).
  2:{ destruct Hsome as [res Hres]. exists res. by rewrite Hr. }
  clear Hr.
  destruct (disk_based (self s)) eqn:Hdb.
  2:{ assert (Hsame : run H updatehash s =
                (_run_interface H true None ;; let* n := get_self in ret (_result n)) s).
      { unfold run. rewrite bind_unfold. simpl. by rewrite Hdb. }
      rewrite Hsame in Hrun.
      apply bind_Ok in Hrun as ([] & s1 & Hri & Hret). injection Hret as _ <-.
      by eapply run_interface_Ok_result. }
  destruct (hash_step_Ok H s) as (outdir & hashed & hv & s1 & base & Hstep & _).
  assert (Hcollect : ∀ t,
    (repoint_inputs H outdir ;;
     _run_interface H false (Some outdir) ;;
     let* n := get_self in ret (_result n)) t = (Ok r, s') →
    is_Some (_result (self s'))).
  { intros t Ht. apply bind_Ok in Ht as ([] & t1 & _ & Ht).
    apply bind_Ok in Ht as ([] & t2 & Hri & Hret). injection Hret as _ <-.
    by eapply run_interface_Ok_result. }
  destruct updatehash.
  - rewrite (run_update_path H _ _ _ _ _ _ Hdb Hstep) in Hrun.
    rewrite bind_unfold, save_hashfile_outcome in Hrun. by eapply Hcollect.
  - destruct (default false (overwrite (self s1))
              || negb (bool_decide (is_Some (w_fs (proc s1) !! hashfile_name outdir hv))))
      eqn:Hex.
    2:{ rewrite (run_skips_when _ _ _ _ _ _ _ Hdb Hstep Hex) in Hrun. by eapply Hcollect. }
    destruct (executing_run_Ok H s outdir hashed hv _ s1 r s' Hdb Hstep Hex Hrun)
      as (calls & res & _ & _ & _ & _ & -> & _). eauto.
Qed.

End Returned.

(** X17: what [run] returns is the result it left on the node, and a
    run that returns has always left one.  [get_output] then reads
    from that result: for every output the result holds, it returns
    the stored value (the list of the values of all iterations when
    the node iterates). *)
Theorem run_result_feeds_get_output (H : Helpers) (updatehash : bool)
    (s s' : state) (r : option InterfaceResult) :
  run H updatehash s = (Ok r, s') →
  ∃ res,
    r = Some res ∧ _result (self s') = Some res ∧
    ∀ k x, outputs res !! k = Some x → get_output (self s') k = Ok x.
Proof.
  intros Hrun. destruct (run_returns_result H _ _ _ _ Hrun) as (res & -> & Hres).
  exists res. split; [done|]. split; [done|].
  intros k x Hk. unfold get_output. rewrite Hres.
  unfold bunch_has, bunch_get. rewrite Hk.
  by rewrite bool_decide_eq_true_2 by eauto.
Qed.

Lemma run_result_feeds_get_output_witness :
  let n := Demo.node_of Demo.doubler ["x"] false None
             {[ "x" := VList [VInt 3; VInt 4] ]} in
  let s := mkState n Demo.world0 in
  let out := run Demo.helpers false s in
  get_output (self out.2) "y" = Ok (VList [VInt 6; VInt 8]) ∧
  ∃ res,
    Demo.returned out.1 = Some res ∧ _result (self out.2) = Some res ∧
    ∀ k x, outputs res !! k = Some x → get_output (self out.2) k = Ok x.
Proof.
  intros n s out. split; [vm_compute; reflexivity|].
  apply (run_result_feeds_get_output Demo.helpers false s out.2 (Demo.returned out.1)).
  vm_compute. reflexivity.
Defined.

(** ** The inputs a run leaves behind *)

Section Kept.

Context (H : Helpers).

Lemma save_hashfile_self hashfile hashed s :
  self (_save_hashfile H hashfile hashed s).2 = self s.
Proof. by rewrite save_hashfile_outcome. Qed.

(** The inputs a [run] of a disk based node leaves behind are the ones
    its staging or re-pointing step produced. *)
Lemma run_inputs_from_step updatehash s outdir hashed hv hashfile t r s' :
  disk_based (self s) = true →
  hash_step H s = (Ok (outdir, hashed, hv, hashfile), t) →
  run H updatehash s = (Ok r, s') →
  ∃ t0 t1,
    self t0 = self t ∧
    (if negb updatehash &&
        (default false (overwrite (self s))
         || negb (bool_decide (is_Some (w_fs (proc t) !! hashfile))))
     then stage_inputs H outdir t0 = (Ok tt, t1)
     else repoint_inputs H outdir t0 = (Ok tt, t1)) ∧
    inputs (self s') = inputs (self t1).
Proof.
  intros Hdb Hstep Hrun.
  destruct (hash_step_Ok H s) as (o & h & v & s1 & base & Hs & Hself & _).
  rewrite Hs in Hstep. injection Hstep as <- <- <- <- <-.
  assert (How : overwrite (self s1) = overwrite (self s)) by (by rewrite Hself).
  rewrite <- How.
  assert (Hcollect : ∀ t0,
    (repoint_inputs H o ;;
     _run_interface H false (Some o) ;;
     let* n := get_self in ret (_result n)) t0 = (Ok r, s') →
    ∃ t1, repoint_inputs H o t0 = (Ok tt, t1) ∧ inputs (self s') = inputs (self t1)).
  { intros t0 Ht. apply bind_Ok in Ht as ([] & t1 & Hrep & Ht).
    apply bind_Ok in Ht as ([] & t2 & Hri & Hret). injection Hret as _ <-.
    exists t1. split; [done|]. by eapply run_interface_keeps_inputs. }
  destruct updatehash; simpl.
  - rewrite (run_update_path H _ _ _ _ _ _ Hdb Hs) in Hrun.
    rewrite bind_unfold in Hrun.
    destruct (_save_hashfile H (hashfile_name o v) h s1) as [[[]|e] s2] eqn:Hsave;
      [|discriminate].
    destruct (Hcollect _ Hrun) as (t1 & Hrep & Hin).
    exists s2, t1. split; [|by split].
    pose proof (save_hashfile_self (hashfile_name o v) h s1) as Hk.
    by rewrite Hsave in Hk.
  - destruct (default false (overwrite (self s1))
              || negb (bool_decide (is_Some (w_fs (proc s1) !! hashfile_name o v))))
      eqn:Hex.
    2:{ rewrite (run_skips_when _ _ _ _ _ _ _ Hdb Hs Hex) in Hrun.
        destruct (Hcollect _ Hrun) as (t1 & Hrep & Hin). by exists s1, t1. }
    rewrite (run_executes_when _ _ _ _ _ _ _ Hdb Hs Hex) in Hrun.
    apply bind_Ok in Hrun as ([] & sa & Hclean & Hrun). injection Hclean as <-.
    apply bind_Ok in Hrun as ([] & sb & Hstage & Hrun).
    apply bind_Ok in Hrun as ([] & sc & Hri & Hrun).
    apply bind_Ok in Hrun as ([] & sd & Hcheck & Hret). injection Hret as _ <-.
    apply bind_Ok in Hcheck as (n & sc' & Hn & Hcheck). injection Hn as <- <-.
    destruct (_result (self sc)) as [res|]; [|discriminate].
    destruct (combined_returncode res) as [rc|e]; [|discriminate].
    destruct (rc =? 0)%Z; [|discriminate].
    pose proof (save_hashfile_self (hashfile_name o v) h sc) as Hk.
    rewrite Hcheck in Hk. simpl in Hk.
    eexists _, sb. split; [|split; [exact Hstage|]]; [done|].
    rewrite Hk. by eapply run_interface_keeps_inputs.
Qed.

End Kept.

(** X18: a [run] of a disk based node that returns leaves the file
    inputs that [get_input_info] declares pointing into the output
    directory; they are not set back.  After a run that executed, a
    declared input that had a value holds what staging put there
    ([list_to_filename] of the files [copyfiles] returned); after a run
    that skipped the execution or only updated the hash, a declared
    input whose value is true in a condition holds its file names moved
    into the output directory.  All other inputs are as before. *)
Theorem run_leaves_inputs_in_outdir (H : Helpers) (updatehash : bool)
    (s t s' : state) (r : option InterfaceResult) (outdir : string)
    (hashed : bunch) (hashvalue hashfile : string) (infos : list InputInfo) :
  disk_based (self s) = true →
  hash_step H s = (Ok (outdir, hashed, hashvalue, hashfile), t) →
  get_input_info (_interface (self s)) = Some infos →
  NoDup (key <$> infos) →
  run H updatehash s = (Ok r, s') →
  (∀ k, k ∉ key <$> infos → inputs (self s') !! k = inputs (self s) !! k) ∧
  ∀ info, info ∈ infos →
    let files := bunch_get (inputs (self s)) (key info) in
    if negb updatehash &&
       (default false (overwrite (self s))
        || negb (bool_decide (is_Some (w_fs (proc t) !! hashfile))))
    then files ≠ VNone →
         ∃ fs, inputs (self s') !! key info = Some (staged H outdir info files fs)
    else truthy files = true →
         inputs (self s') !! key info = Some (repointed H outdir files).
Proof.
  intros Hdb Hstep Hinfo Hnd Hrun.
  destruct (run_inputs_from_step H _ _ _ _ _ _ _ _ _ Hdb Hstep Hrun)
    as (t0 & t1 & Hself & Hpath & Hin).
  destruct (hash_step_Ok H s) as (o & h & v & s1 & base & Hs & Hself1 & _).
  rewrite Hs in Hstep. injection Hstep as <- <- <- <- <-.
  assert (Hi0 : inputs (self t0) = inputs (self s)) by (by rewrite Hself, Hself1).
  assert (Hinfo0 : get_input_info (_interface (self t0)) = Some infos).
  { by rewrite Hself, Hself1. }
  rewrite Hin.
  destruct (negb updatehash && _).
  - assert (∃ t1',
      stage_inputs H o t0 = (Ok tt, t1') ∧
      (∀ k, k ∉ key <$> infos → inputs (self t1') !! k = inputs (self t0) !! k) ∧
      (NoDup (key <$> infos) →
       ∀ info, info ∈ infos → bunch_get (inputs (self t0)) (key info) ≠ VNone →
         ∃ fs, inputs (self t1') !! key info =
               Some (staged H o info (bunch_get (inputs (self t0)) (key info)) fs)))
      as (t1' & Hrun' & Hoff & Hset).
    { unfold stage_inputs. rewrite bind_unfold. simpl. rewrite Hinfo0.
      destruct (stage_each H o infos t0) as (t1' & ? & _ & _ & ? & _ & ?). eauto. }
    rewrite Hrun' in Hpath. injection Hpath as <-.
    rewrite Hi0 in Hoff, Hset. split; [exact Hoff|].
    intros info Hinf files Hval. by apply Hset.
  - assert (∃ t1',
      repoint_inputs H o t0 = (Ok tt, t1') ∧
      (∀ k, k ∉ key <$> infos → inputs (self t1') !! k = inputs (self t0) !! k) ∧
      (NoDup (key <$> infos) →
       ∀ info, info ∈ infos → truthy (bunch_get (inputs (self t0)) (key info)) = true →
         inputs (self t1') !! key info =
           Some (repointed H o (bunch_get (inputs (self t0)) (key info)))))
      as (t1' & Hrun' & Hoff & Hset).
    { unfold repoint_inputs. rewrite bind_unfold. simpl. rewrite Hinfo0.
      destruct (repoint_each H o infos t0) as (t1' & ? & _ & _ & ? & _ & ?). eauto. }
    rewrite Hrun' in Hpath. injection Hpath as <-.
    rewrite Hi0 in Hoff, Hset. split; [exact Hoff|].
    intros info Hinf files Hval. by apply Hset.
Qed.

Lemma run_leaves_inputs_in_outdir_witness :
  let n := Demo.node_of Demo.filer [] true (Some "/wf")
             {[ "infile" := VStr "/data/a.nii"; "label" := VStr "first" ]} in
  let s := mkState n Demo.world0 in
  let t := (hash_step Demo.helpers s).2 in
  let out := run Demo.helpers false s in
  inputs (self out.2) = {[ "infile" := VStr "/wf/N/a.nii"; "label" := VStr "first" ]} ∧
  (∀ k, k ∉ key <$> [mkInfo "infile" true] →
        inputs (self out.2) !! k = inputs (self s) !! k) ∧
  ∀ info, info ∈ [mkInfo "infile" true] →
    let files := bunch_get (inputs (self s)) (key info) in
    if negb false &&
       (default false (overwrite (self s))
        || negb (bool_decide
                   (is_Some (w_fs (proc t) !! "/wf/N/_0xinfile='/data/a.nii';label='first';.json"))))
    then files ≠ VNone →
         ∃ fs, inputs (self out.2) !! key info
               = Some (staged Demo.helpers "/wf/N" info files fs)
    else truthy files = true →
         inputs (self out.2) !! key info = Some (repointed Demo.helpers "/wf/N" files).
Proof.
  intros n s t out. split; [vm_compute; reflexivity|].
  apply (run_leaves_inputs_in_outdir Demo.helpers false s t out.2 (Demo.returned out.1)
           "/wf/N" {[ "infile" := VStr "/data/a.nii"; "label" := VStr "first" ]}
           "infile='/data/a.nii';label='first';"
           "/wf/N/_0xinfile='/data/a.nii';label='first';.json" [mkInfo "infile" true]).
  - reflexivity.
  - vm_compute. reflexivity.
  - reflexivity.
  - apply NoDup_singleton.
  - vm_compute. reflexivity.
Defined.

(** ** Construction that goes through *)

(** X19: [__init__] accepts every configuration but the two it
    rejects: with an interface, and with a base directory only if the
    node is disk based, it builds a node that holds the inputs of the
    interface and no result.  Its name is the one given or else
    [<class>.<module>], its id (which is its [repr]) is its name, and
    [overwrite] and the base directory are recorded only for a disk
    based node. *)
Theorem init_accepts_other_configurations (itf : Interface)
    (iterables : bunch) (iterfield : list string) (diskbased : bool)
    (base_directory : option string) (overwrite0 : bool) (name0 : option string) :
  diskbased = true ∨ base_directory = None →
  ∃ n,
    __init__ (Some itf) iterables iterfield diskbased base_directory overwrite0 name0
      = Ok n ∧
    inputs n = interface_inputs itf ∧ _result n = None ∧
    disk_based n = diskbased ∧
    name n = default (class_name itf +:+ "." +:+ module_name itf) name0 ∧
    id n = name n ∧ __repr__ n = name n ∧
    overwrite n = (if diskbased then Some overwrite0 else None) ∧
    output_directory_base n = (if diskbased then base_directory else None).
Proof.
  intros Hcfg. unfold __init__.
  assert (negb diskbased && bool_decide (base_directory ≠ None) = false) as ->.
  { destruct Hcfg as [->| ->]; [done|].
    rewrite bool_decide_eq_false_2 by (by intros []). apply andb_false_r. }
  eexists. split; [reflexivity|]. simpl.
  repeat split; by destruct name0.
Qed.

Lemma init_accepts_other_configurations_witness :
  ∃ n,
    __init__ (Some Demo.doubler) ∅ [] false None true None = Ok n ∧
    inputs n = interface_inputs Demo.doubler ∧ _result n = None ∧
    disk_based n = false ∧
    name n = default (class_name Demo.doubler +:+ "." +:+ module_name Demo.doubler) None ∧
    id n = name n ∧ __repr__ n = name n ∧
    overwrite n = (if false then Some true else None) ∧
    output_directory_base n = (if false then None else None).
Proof.
  apply (init_accepts_other_configurations Demo.doubler ∅ [] false None true None).
  right. reflexivity.
Defined.
